(** * LCOV ingestion of vitest-coverage-report-action (Bun fork)

    A shallow embedding of [parseLcovData], [lcovToCoverageReport],
    [lcovToJsonSummary], [lcovToJsonFinal], [parseBunLcovSummary] and
    [parseBunLcovFinal], followed by the properties of the specification
    that were checked against them.
    The JSON loaders of [parseJsonReports.ts], the configuration lookup
    [getBunConfigPath] and the options reader [readOptions] are embedded
    the same way, with further properties of all of these at the end.

    Conventions of the embedding:
    - a JavaScript string is the list of its UTF-16 code units;
    - a JavaScript number is an IEEE 754 binary64 value, taken from the
      Standard Library's [SpecFloat] with [prec = 53] and [emax = 1024];
    - a JavaScript object used as a dictionary is the list of its own
      properties in the order JavaScript lists them: array indices in
      ascending order, then the other names in creation order; a write
      under [__proto__] stores no property;
    - the one effectful function pair (the loaders) runs in a small
      log-and-exception monad over an abstract file system. *)

From Stdlib Require Import ZArith NArith List Bool Lia String Ascii.
From Stdlib Require Import Floats.SpecFloat DecimalNat.
From Stdlib Require Import Reals Lra.
Import ListNotations.

Set Implicit Arguments.
Local Open Scope Z_scope.

(* ================================================================== *)
(** * JavaScript strings *)
(* ================================================================== *)

Module JsString.

Definition code_unit := N.
Definition t := list code_unit.

(** Literals of the development are written as Rocq strings. *)
Definition lit (s : string) : t := map N_of_ascii (list_ascii_of_string s).

Definition eqb (a b : t) : bool :=
  if list_eq_dec N.eq_dec a b then true else false.

(** ECMAScript [WhiteSpace] and [LineTerminator] code points, the set
    removed by [String.prototype.trim] and skipped by [parseInt]. *)
Definition is_space (c : code_unit) : bool :=
  existsb (N.eqb c)
    [9; 10; 11; 12; 13; 32; 160; 5760; 8192; 8193; 8194; 8195; 8196; 8197;
     8198; 8199; 8200; 8201; 8202; 8232; 8233; 8239; 8287; 12288; 65279]%N.

Fixpoint trimStart (s : t) : t :=
  match s with
  | c :: s' => if is_space c then trimStart s' else s
  | [] => []
  end.

Definition trimEnd (s : t) : t := rev (trimStart (rev s)).

Definition trim (s : t) : t := trimEnd (trimStart s).

Fixpoint startsWith (s prefix : t) : bool :=
  match prefix, s with
  | [], _ => true
  | p :: prefix', c :: s' => N.eqb c p && startsWith s' prefix'
  | _ :: _, [] => false
  end.

(** [s.substring(n)] for [0 <= n]. *)
Definition substring (n : nat) (s : t) : t := skipn n s.

(** [s.split(sep)] for a one-code-unit separator; never empty. *)
Fixpoint split (sep : code_unit) (s : t) : list t :=
  match s with
  | [] => [[]]
  | c :: s' =>
      if N.eqb c sep then [] :: split sep s'
      else match split sep s' with
           | piece :: pieces => (c :: piece) :: pieces
           | [] => [[c]]
           end
  end.

Fixpoint of_uint (d : Decimal.uint) : t :=
  match d with
  | Decimal.Nil => []
  | Decimal.D0 d' => 48%N :: of_uint d'
  | Decimal.D1 d' => 49%N :: of_uint d'
  | Decimal.D2 d' => 50%N :: of_uint d'
  | Decimal.D3 d' => 51%N :: of_uint d'
  | Decimal.D4 d' => 52%N :: of_uint d'
  | Decimal.D5 d' => 53%N :: of_uint d'
  | Decimal.D6 d' => 54%N :: of_uint d'
  | Decimal.D7 d' => 55%N :: of_uint d'
  | Decimal.D8 d' => 56%N :: of_uint d'
  | Decimal.D9 d' => 57%N :: of_uint d'
  end.

(** [String(index)] for an array index. *)
Definition String (index : nat) : t := of_uint (Nat.to_uint index).

Definition newline : code_unit := 10%N.
Definition comma : code_unit := 44%N.

End JsString.

Abbreviation jsstring := JsString.t.

(* ================================================================== *)
(** * JavaScript numbers *)
(* ================================================================== *)

Module JsNumber.

Definition prec : Z := 53.
Definition emax : Z := 1024.

Definition number := spec_float.

Definition NaN : number := S754_nan.
Definition zero : number := S754_zero false.

(** The number nearest to an integer (ties to even, overflow to an
    infinity); exact below [2^53]. *)
Definition of_Z (z : Z) : number := binary_normalize prec emax z 0 false.

Definition of_nat (n : nat) : number := of_Z (Z.of_nat n).

Definition add : number -> number -> number := SFadd prec emax.
Definition mul : number -> number -> number := SFmul prec emax.
Definition div : number -> number -> number := SFdiv prec emax.

(** [a > b] *)
Definition gt (a b : number) : bool := SFltb b a.

(** [Math.round]: the nearest integer, a tie going to the larger one;
    a result of zero keeps the sign of the argument. *)
Definition Math_round (x : number) : number :=
  match x with
  | S754_finite sx m e =>
      if 0 <=? e then x
      else
        let n := if sx then Z.neg m else Z.pos m in
        let r := (2 * n + 2 ^ (- e)) / 2 ^ (1 - e) in
        if r =? 0 then S754_zero sx else of_Z r
  | _ => x
  end.

Definition is_digit (c : N) : bool := ((48 <=? c) && (c <=? 57))%N.

Fixpoint digits_value (acc : Z) (s : jsstring) : Z :=
  match s with
  | c :: s' =>
      if is_digit c then digits_value (10 * acc + (Z.of_N c - 48)) s'
      else acc
  | [] => acc
  end.

Definition has_digit (s : jsstring) : bool :=
  match s with
  | c :: _ => is_digit c
  | [] => false
  end.

(** [parseInt(input, 10)]; [None] is [undefined], whose string form
    holds no digit. Leading white space is skipped, one sign is read,
    then the longest run of decimal digits; the integer read is rounded
    to the nearest number (ECMAScript lets an engine approximate past the
    20th significant digit; the correctly rounded value is taken). *)
Definition parseInt (input : option jsstring) : number :=
  match input with
  | None => NaN
  | Some inputString =>
      let str := JsString.trimStart inputString in
      let '(negative, str) :=
        match str with
        | 45%N :: str' => (true, str')
        | 43%N :: str' => (false, str')
        | _ => (false, str)
        end in
      if has_digit str then
        let mathInt := digits_value 0 str in
        if mathInt =? 0 then S754_zero negative
        else of_Z (if negative then - mathInt else mathInt)
      else NaN
  end.

End JsNumber.

Abbreviation number := JsNumber.number.

(* ================================================================== *)
(** * JavaScript objects used as dictionaries *)
(* ================================================================== *)

Module JsObject.

(** The one name an assignment does not store under: on an object made
    by [{}], [o["__proto__"] = v] runs the setter inherited from
    [Object.prototype], which replaces the prototype of [o] (or does
    nothing, for a [v] that is no object) and creates no property. *)
Definition proto_ : jsstring := Eval cbv in JsString.lit "__proto__".

(** An array index: the decimal numeral, without a leading zero, of an
    integer from 0 to [2^32 - 2]. These are the property names an object
    lists first, in ascending order. *)
Definition arrayIndex (k : jsstring) : option Z :=
  match k with
  | [] => None
  | c :: rest =>
      if forallb JsNumber.is_digit k
         && (negb (N.eqb c 48)
             || match rest with [] => true | _ :: _ => false end)
         && (JsNumber.digits_value 0 k <=? 4294967294)
      then Some (JsNumber.digits_value 0 k)
      else None
  end.

Section Dict.
Variable V : Type.

(** The own properties of an object made by [{}], in the order
    [Object.keys] and [JSON.stringify] list them: array indices in
    ascending order, then the other names in creation order. The
    prototype is no property and is not kept: nothing here reads
    through it. *)
Definition t := list (jsstring * V).

Definition empty : t := [].

(** The own property [k], if there is one: [Object.hasOwn(o, k)] and
    then [o[k]]. *)
Fixpoint get (o : t) (k : jsstring) : option V :=
  match o with
  | [] => None
  | (k', v) :: o' => if JsString.eqb k' k then Some v else get o' k
  end.

(** [o[k] = v] for a name that is no array index: an existing property
    keeps its place, a new one goes last. *)
Fixpoint setNamed (o : t) (k : jsstring) (v : V) : t :=
  match o with
  | [] => [(k, v)]
  | (k', v') :: o' =>
      if JsString.eqb k' k then (k', v) :: o'
      else (k', v') :: setNamed o' k v
  end.

(** [o[k] = v] for the array index [k] of value [i]: an existing
    property keeps its place, a new one goes after the smaller indices
    and before everything else. *)
Fixpoint setIndex (o : t) (k : jsstring) (i : Z) (v : V) : t :=
  match o with
  | [] => [(k, v)]
  | (k', v') :: o' =>
      if JsString.eqb k' k then (k', v) :: o'
      else match arrayIndex k' with
           | Some i' =>
               if i' <? i then (k', v') :: setIndex o' k i v
               else (k, v) :: o
           | None => (k, v) :: o
           end
  end.

(** [o[k] = v] *)
Definition set (o : t) (k : jsstring) (v : V) : t :=
  if JsString.eqb k proto_ then o
  else match arrayIndex k with
       | Some i => setIndex o k i v
       | None => setNamed o k v
       end.

Definition keys (o : t) : list jsstring := map fst o.
End Dict.

Arguments empty {V}.

End JsObject.

(* ================================================================== *)
(** * The LCOV record parser *)
(* ================================================================== *)

(** [{ found, hit }]; the second field is named [hits] here because
    [hit] is the field of a line entry. *)
Record Counter := { found : number; hits : number }.

Record LineEntry := { line : number; hit : number }.

Record LcovRecord := {
  sourceFile : jsstring;
  lines : list LineEntry;
  functions : Counter;
  branches : Counter
}.

Definition SF_ : jsstring := Eval cbv in JsString.lit "SF:".
Definition DA_ : jsstring := Eval cbv in JsString.lit "DA:".
Definition FNF_ : jsstring := Eval cbv in JsString.lit "FNF:".
Definition FNH_ : jsstring := Eval cbv in JsString.lit "FNH:".
Definition BRF_ : jsstring := Eval cbv in JsString.lit "BRF:".
Definition BRH_ : jsstring := Eval cbv in JsString.lit "BRH:".
Definition end_of_record : jsstring := Eval cbv in JsString.lit "end_of_record".

(** The loop state of [parseLcovData]: [records] and [currentRecord]. *)
Definition ParserState := (list LcovRecord * option LcovRecord)%type.

Definition newRecord (path : jsstring) : LcovRecord :=
  {| sourceFile := path;
     lines := [];
     functions := {| found := JsNumber.zero; hits := JsNumber.zero |};
     branches := {| found := JsNumber.zero; hits := JsNumber.zero |} |}.

Definition pushLine (r : LcovRecord) (l : LineEntry) : LcovRecord :=
  {| sourceFile := sourceFile r; lines := lines r ++ [l];
     functions := functions r; branches := branches r |}.

Definition setFunctions (r : LcovRecord) (c : Counter) : LcovRecord :=
  {| sourceFile := sourceFile r; lines := lines r;
     functions := c; branches := branches r |}.

Definition setBranches (r : LcovRecord) (c : Counter) : LcovRecord :=
  {| sourceFile := sourceFile r; lines := lines r;
     functions := functions r; branches := c |}.

(** The entry a [DA:] line describes: [split(',')] destructured into its
    first two pieces, each read by [parseInt]. *)
Definition daEntry (trimmed : jsstring) : LineEntry :=
  let parts := JsString.split JsString.comma (JsString.substring 3 trimmed) in
  {| line := JsNumber.parseInt (nth_error parts 0);
     hit := JsNumber.parseInt (nth_error parts 1) |}.

Definition intAfter (n : nat) (trimmed : jsstring) : number :=
  JsNumber.parseInt (Some (JsString.substring n trimmed)).

Definition onCurrent (st : ParserState) (f : LcovRecord -> LcovRecord)
  : ParserState :=
  match snd st with
  | Some r => (fst st, Some (f r))
  | None => st
  end.

(** One iteration of the [for (const line of lines)] loop. *)
Definition parseLine (st : ParserState) (ln : jsstring) : ParserState :=
  let trimmed := JsString.trim ln in
  match trimmed with
  | [] => st
  | _ :: _ =>
    if JsString.startsWith trimmed SF_ then
      (fst st, Some (newRecord (JsString.substring 3 trimmed)))
    else if JsString.startsWith trimmed DA_ then
      onCurrent st (fun r => pushLine r (daEntry trimmed))
    else if JsString.startsWith trimmed FNF_ then
      onCurrent st (fun r => setFunctions r
        {| found := intAfter 4 trimmed; hits := hits (functions r) |})
    else if JsString.startsWith trimmed FNH_ then
      onCurrent st (fun r => setFunctions r
        {| found := found (functions r); hits := intAfter 4 trimmed |})
    else if JsString.startsWith trimmed BRF_ then
      onCurrent st (fun r => setBranches r
        {| found := intAfter 4 trimmed; hits := hits (branches r) |})
    else if JsString.startsWith trimmed BRH_ then
      onCurrent st (fun r => setBranches r
        {| found := found (branches r); hits := intAfter 4 trimmed |})
    else if JsString.eqb trimmed end_of_record then
      (match snd st with
       | Some r =>
           match sourceFile r with
           | [] => fst st
           | _ :: _ => fst st ++ [r]
           end
       | None => fst st
       end, None)
    else st
  end.

Definition parseLines (lns : list jsstring) (st : ParserState) : ParserState :=
  fold_left parseLine lns st.

Definition parseLcovData (lcovContent : jsstring) : list LcovRecord :=
  fst (parseLines (JsString.split JsString.newline lcovContent) ([], None)).

(* ================================================================== *)
(** * The aggregator [lcovToCoverageReport] *)
(* ================================================================== *)

(** One entry of a [CoverageReport]: [{ total, covered, skipped, pct }]. *)
Record ReportNumbers := {
  total : number;
  covered : number;
  skipped : number;
  pct : number
}.

Record CoverageReport := {
  r_lines : ReportNumbers;
  r_statements : ReportNumbers;
  r_functions : ReportNumbers;
  r_branches : ReportNumbers
}.

(** The eight [let] counters of the function. *)
Record Counters := {
  totalLines : number;
  coveredLines : number;
  totalFunctions : number;
  coveredFunctions : number;
  totalBranches : number;
  coveredBranches : number;
  totalStatements : number;
  coveredStatements : number
}.

Definition zeroCounters : Counters :=
  {| totalLines := JsNumber.zero; coveredLines := JsNumber.zero;
     totalFunctions := JsNumber.zero; coveredFunctions := JsNumber.zero;
     totalBranches := JsNumber.zero; coveredBranches := JsNumber.zero;
     totalStatements := JsNumber.zero; coveredStatements := JsNumber.zero |}.

(** [record.lines.filter(l => l.hit > 0)] *)
Definition hitLines (record : LcovRecord) : list LineEntry :=
  filter (fun l => JsNumber.gt (hit l) JsNumber.zero) (lines record).

(** [x.length] as a number. *)
Definition lengthOf {A} (x : list A) : number := JsNumber.of_nat (List.length x).

(** One iteration of the [for (const record of records)] loop. *)
Definition addRecord (c : Counters) (record : LcovRecord) : Counters :=
  {| totalLines := JsNumber.add (totalLines c) (lengthOf (lines record));
     coveredLines := JsNumber.add (coveredLines c) (lengthOf (hitLines record));
     totalFunctions :=
       JsNumber.add (totalFunctions c) (found (functions record));
     coveredFunctions :=
       JsNumber.add (coveredFunctions c) (hits (functions record));
     totalBranches := JsNumber.add (totalBranches c) (found (branches record));
     coveredBranches :=
       JsNumber.add (coveredBranches c) (hits (branches record));
     totalStatements :=
       JsNumber.add (totalStatements c) (lengthOf (lines record));
     coveredStatements :=
       JsNumber.add (coveredStatements c) (lengthOf (hitLines record)) |}.

Definition hundred : number := JsNumber.of_Z 100.

(** [t > 0 ? Math.round((c / t) * 100 * 100) / 100 : 0], the expression
    written out once for each of the four entries. *)
Definition percentage (c t : number) : number :=
  if JsNumber.gt t JsNumber.zero then
    JsNumber.div
      (JsNumber.Math_round
         (JsNumber.mul (JsNumber.mul (JsNumber.div c t) hundred) hundred))
      hundred
  else JsNumber.zero.

Definition reportNumbers (t c : number) : ReportNumbers :=
  {| total := t; covered := c; skipped := JsNumber.zero;
     pct := percentage c t |}.

Definition lcovToCoverageReport (records : list LcovRecord) : CoverageReport :=
  let c := fold_left addRecord records zeroCounters in
  {| r_lines := reportNumbers (totalLines c) (coveredLines c);
     r_statements := reportNumbers (totalStatements c) (coveredStatements c);
     r_functions := reportNumbers (totalFunctions c) (coveredFunctions c);
     r_branches := reportNumbers (totalBranches c) (coveredBranches c) |}.

(* ================================================================== *)
(** * The summary builder [lcovToJsonSummary] *)
(* ================================================================== *)

Definition JsonSummary := JsObject.t CoverageReport.

Definition total_ : jsstring := Eval cbv in JsString.lit "total".

Definition addFileCoverage (summary : JsonSummary) (record : LcovRecord)
  : JsonSummary :=
  let fileCoverage := lcovToCoverageReport [record] in
  JsObject.set summary (sourceFile record) fileCoverage.

Definition lcovToJsonSummary (records : list LcovRecord) : JsonSummary :=
  let summary : JsonSummary := [(total_, lcovToCoverageReport records)] in
  fold_left addFileCoverage records summary.

(* ================================================================== *)
(** * The final-map builder [lcovToJsonFinal] *)
(* ================================================================== *)

Record Position := { p_line : number; column : number }.

Record Range := { start : Position; end_ : Position }.

Record FileCoverageReport := {
  path : jsstring;
  all : bool;
  statementMap : JsObject.t Range;
  s : JsObject.t number
}.

Definition JsonFinal := JsObject.t FileCoverageReport.

(** [xs.forEach((x, index) => ...)] threading the state the callback
    mutates; [index] counts from the given start. *)
Fixpoint forEach {A St} (f : St -> A -> nat -> St) (xs : list A)
    (index : nat) (st : St) : St :=
  match xs with
  | [] => st
  | x :: xs' => forEach f xs' (Datatypes.S index) (f st x index)
  end.

Definition lineRange (l : LineEntry) : Range :=
  {| start := {| p_line := line l; column := JsNumber.zero |};
     end_ := {| p_line := line l; column := hundred |} |}.

(** The callback of [record.lines.forEach]; the state is the pair
    [(statementMap, statementCoverage)]. *)
Definition addStatement (st : JsObject.t Range * JsObject.t number)
    (l : LineEntry) (index : nat) : JsObject.t Range * JsObject.t number :=
  let stmtId := JsString.String index in
  (JsObject.set (fst st) stmtId (lineRange l),
   JsObject.set (snd st) stmtId (hit l)).

Definition fileReport (record : LcovRecord) : FileCoverageReport :=
  let maps := forEach addStatement (lines record) 0%nat
                (JsObject.empty, JsObject.empty) in
  {| path := sourceFile record;
     all := false;
     statementMap := fst maps;
     s := snd maps |}.

Definition addFileReport (final : JsonFinal) (record : LcovRecord) : JsonFinal :=
  JsObject.set final (sourceFile record) (fileReport record).

Definition lcovToJsonFinal (records : list LcovRecord) : JsonFinal :=
  fold_left addFileReport records JsObject.empty.

(* ================================================================== *)
(** * The report loaders *)
(* ================================================================== *)

(** A thrown value: an [Error] with its [stack], or anything else. *)
Inductive Thrown :=
  | ErrorObject (stack : jsstring)
  | OtherValue.

(** [err instanceof Error ? err.stack : ""] *)
Definition stackOf (err : Thrown) : jsstring :=
  match err with
  | ErrorObject stack => stack
  | OtherValue => []
  end.

(** What the loaders hand to [@actions/core]: the call, with the path
    and the stack the message template is filled with. *)
Inductive CoreCall :=
  | setFailed (lcovPath stack : jsstring)
  | warning (lcovPath stack : jsstring).

(** A computation that may log through [@actions/core] and either
    returns or throws. *)
Definition Action (A : Type) : Type := (list CoreCall * (Thrown + A))%type.

Definition ret {A} (a : A) : Action A := ([], inr a).

Definition throw {A} (err : Thrown) : Action A := ([], inl err).

Definition bind {A B} (m : Action A) (k : A -> Action B) : Action B :=
  match m with
  | (log, inl err) => (log, inl err)
  | (log, inr a) => let '(log', r) := k a in (log ++ log', r)
  end.

Definition tryCatch {A} (body : Action A) (handler : Thrown -> Action A)
  : Action A :=
  match body with
  | (log, inl err) => let '(log', r) := handler err in (log ++ log', r)
  | (log, inr a) => (log, inr a)
  end.

Definition call (c : CoreCall) : Action unit := ([c], inr tt).

Notation "x <- m ;; k" := (bind m (fun x => k))
  (at level 61, m at next level, right associativity).
Notation "m ;;; k" := (bind m (fun _ => k))
  (at level 61, right associativity).

Section Loader.

(** [process.cwd()], [path.resolve] and [readFile(_, 'utf8')]: the
    file system is whatever maps a resolved path to its text or to the
    failure of the read. *)
Variable cwd : jsstring.
Variable resolve : jsstring -> jsstring -> jsstring.
Variable readFile : jsstring -> Thrown + jsstring.

Definition awaitReadFile (resolvedPath : jsstring) : Action jsstring :=
  ([], readFile resolvedPath).

Definition parseBunLcovSummary (lcovPath : jsstring) : Action JsonSummary :=
  tryCatch
    (let resolvedPath := resolve cwd lcovPath in
     lcovContent <- awaitReadFile resolvedPath ;;
     let records := parseLcovData lcovContent in
     ret (lcovToJsonSummary records))
    (fun err =>
       let stack := stackOf err in
       call (setFailed lcovPath stack) ;;;
       throw err).

Definition parseBunLcovFinal (lcovPath : jsstring) : Action JsonFinal :=
  tryCatch
    (let resolvedPath := resolve cwd lcovPath in
     lcovContent <- awaitReadFile resolvedPath ;;
     let records := parseLcovData lcovContent in
     ret (lcovToJsonFinal records))
    (fun err =>
       let stack := stackOf err in
       call (warning lcovPath stack) ;;;
       ret JsObject.empty).

End Loader.

(* ================================================================== *)
(** * Effects of the other loaders *)
(* ================================================================== *)

(** A computation that logs entries of type [L] and returns or throws:
    [Action] with the log entries left open, for the functions whose
    messages are not those of the LCOV loaders. *)
Definition Eff (L A : Type) : Type := (list L * (Thrown + A))%type.

Definition retE {L A} (a : A) : Eff L A := ([], inr a).

Definition throwE {L A} (err : Thrown) : Eff L A := ([], inl err).

Definition bindE {L A B} (m : Eff L A) (k : A -> Eff L B) : Eff L B :=
  match m with
  | (log, inl err) => (log, inl err)
  | (log, inr a) => let '(log', r) := k a in (log ++ log', r)
  end.

Definition tryCatchE {L A} (body : Eff L A) (handler : Thrown -> Eff L A)
  : Eff L A :=
  match body with
  | (log, inl err) => let '(log', r) := handler err in (log ++ log', r)
  | (log, inr a) => (log, inr a)
  end.

Definition logE {L} (c : L) : Eff L unit := ([c], inr tt).

(** [await p] for a promise that settles without logging. *)
Definition awaitE {L A} (p : Thrown + A) : Eff L A := ([], p).

(** The log entries of an inner computation seen from its caller. *)
Definition liftE {L L' A} (f : L -> L') (m : Eff L A) : Eff L' A :=
  (map f (fst m), snd m).

(* ================================================================== *)
(** * The JSON report loaders ([parseJsonReports.ts]) *)
(* ================================================================== *)

(** The calls to [@actions/core] of the JSON loaders, with the path and
    the stack their message templates are filled with. *)
Inductive JsonCoreCall :=
  | jsonSetFailed (jsonSummaryPath stack : jsstring)
  | jsonWarning (jsonFinalPath stack : jsstring).

Section JsonLoader.

(** [J] is the type the caller asserts for the parsed value, and
    [emptyObject] its [{}]. [readFile] gives the text of the buffer read;
    [JSON_parse] is [JSON.parse], which throws on malformed text. *)
Variable J : Type.
Variable emptyObject : J.
Variable cwd : jsstring.
Variable resolve : jsstring -> jsstring -> jsstring.
Variable readFile : jsstring -> Thrown + jsstring.
Variable JSON_parse : jsstring -> Thrown + J.

Definition parseBunCoverageReport (jsonPath : jsstring) : Eff JsonCoreCall J :=
  let resolvedJsonSummaryPath := resolve cwd jsonPath in
  bindE (awaitE (readFile resolvedJsonSummaryPath)) (fun jsonSummaryRaw =>
  awaitE (JSON_parse jsonSummaryRaw)).

Definition parseBunJsonSummary (jsonSummaryPath : jsstring)
  : Eff JsonCoreCall J :=
  tryCatchE
    (parseBunCoverageReport jsonSummaryPath)
    (fun err =>
       let stack := stackOf err in
       bindE (logE (jsonSetFailed jsonSummaryPath stack)) (fun _ =>
       throwE err)).

Definition parseBunJsonFinal (jsonFinalPath : jsstring)
  : Eff JsonCoreCall J :=
  tryCatchE
    (parseBunCoverageReport jsonFinalPath)
    (fun err =>
       let stack := stackOf err in
       bindE (logE (jsonWarning jsonFinalPath stack)) (fun _ =>
       retE emptyObject)).

End JsonLoader.

(* ================================================================== *)
(** * The configuration lookup [getBunConfigPath] *)
(* ================================================================== *)

Definition defaultPaths : list jsstring :=
  Eval cbv in [JsString.lit "bunfig.toml"].

(** The one call to [core.warning], with the search path its message
    names. *)
Inductive ConfigCall :=
  | configWarning (searchPath : jsstring).

Definition anyDefaultLocationIn_ : jsstring :=
  Eval cbv in JsString.lit "any default location in ".

(** The template [any default location in "${workingDirectory}"]; 34 is
    the double quote. *)
Definition anyDefaultLocation (workingDirectory : jsstring) : jsstring :=
  anyDefaultLocationIn_ ++ 34%N :: workingDirectory ++ [34%N].

Section Config.

(** [path.resolve]; [fs.access(_, constants.R_OK)], which rejects when
    the file cannot be read; and the [AggregateError] of a [Promise.any]
    all of whose promises rejected. *)
Variable resolve : jsstring -> jsstring -> jsstring.
Variable access : jsstring -> Thrown + unit.
Variable aggregateError : Thrown.

Definition testFilePath (workingDirectory filePath : jsstring)
  : Thrown + jsstring :=
  let resolvedPath := resolve workingDirectory filePath in
  match access resolvedPath with
  | inl err => inl err
  | inr _ => inr resolvedPath
  end.

(** [Promise.any]: the value of a promise that fulfils, here the first
    one of the list that does (the list it is applied to has one
    element), or the aggregate error when none does. *)
Fixpoint promiseAny {A} (promises : list (Thrown + A)) : Thrown + A :=
  match promises with
  | [] => inl aggregateError
  | inr a :: _ => inr a
  | inl _ :: promises' => promiseAny promises'
  end.

Definition getBunConfigPath (workingDirectory input : jsstring)
  : Eff ConfigCall (option jsstring) :=
  tryCatchE
    (match input with
     | [] =>
         bindE (awaitE (promiseAny
                          (map (testFilePath workingDirectory) defaultPaths)))
           (fun found => retE (Some found))
     | _ :: _ =>
         bindE (awaitE (testFilePath workingDirectory input))
           (fun found => retE (Some found))
     end)
    (fun error =>
       let searchPath :=
         match input with
         | [] => anyDefaultLocation workingDirectory
         | _ :: _ => resolve workingDirectory input
         end in
       bindE (logE (configWarning searchPath)) (fun _ => retE None)).

End Config.

(* ================================================================== *)
(** * The options reader [readOptions] ([options.ts]) *)
(* ================================================================== *)

Definition working_directory_ : jsstring :=
  Eval cbv in JsString.lit "working-directory".
Definition file_coverage_mode_ : jsstring :=
  Eval cbv in JsString.lit "file-coverage-mode".
Definition lcov_path_ : jsstring := Eval cbv in JsString.lit "lcov-path".
Definition lcov_compare_path_ : jsstring :=
  Eval cbv in JsString.lit "lcov-compare-path".
Definition name_ : jsstring := Eval cbv in JsString.lit "name".
Definition bunfig_path_ : jsstring := Eval cbv in JsString.lit "bunfig-path".
Definition file_coverage_root_path_ : jsstring :=
  Eval cbv in JsString.lit "file-coverage-root-path".
Definition pr_ : jsstring := Eval cbv in JsString.lit "pr".

Section Options.

(** The collaborators of [readOptions] whose code is elsewhere are taken
    as they are typed: each may log (entries of type [C]) and may throw.
    [getInput] is [core.getInput] without options, which never throws;
    [emptyThresholds] is the [{}] given for absent thresholds. *)
Variables FileCoverageMode Thresholds Octokit C : Type.
Variable emptyThresholds : Thresholds.
Variable getInput : jsstring -> jsstring.
Variable resolve : jsstring -> jsstring -> jsstring.
Variable access : jsstring -> Thrown + unit.
Variable aggregateError : Thrown.
Variable getCoverageModeFrom : jsstring -> Eff C FileCoverageMode.
Variable getCommentOn : Eff C (list jsstring).
Variable parseCoverageThresholds : jsstring -> Eff C Thresholds.
Variable getCommitSHA : Eff C jsstring.
Variable getPullRequestNumber : Octokit -> Eff C (option number).

Inductive OptionsCall :=
  | fromConfig (c : ConfigCall)
  | fromCollaborator (c : C).

Record Options := {
  fileCoverageMode : FileCoverageMode;
  lcovPath : jsstring;
  lcovComparePath : option jsstring;
  name : jsstring;
  thresholds : Thresholds;
  workingDirectory : jsstring;
  prNumber : option number;
  commitSHA : jsstring;
  commentOn : list jsstring;
  fileCoverageRootPath : jsstring
}.

(** [commentOn.includes("pr")] *)
Definition includesPr (commentOn : list jsstring) : bool :=
  existsb (fun c => JsString.eqb c pr_) commentOn.

Definition readOptions (octokit : Octokit) : Eff OptionsCall Options :=
  let workingDirectory := getInput working_directory_ in
  let fileCoverageModeRaw := getInput file_coverage_mode_ in
  bindE (liftE fromCollaborator (getCoverageModeFrom fileCoverageModeRaw))
    (fun fileCoverageMode =>
  let lcovPath := resolve workingDirectory (getInput lcov_path_) in
  let lcovCompareInput := getInput lcov_compare_path_ in
  let lcovComparePath :=
    match lcovCompareInput with
    | [] => None
    | _ :: _ => Some (resolve workingDirectory lcovCompareInput)
    end in
  let name := getInput name_ in
  bindE (liftE fromCollaborator getCommentOn) (fun commentOn =>
  bindE (liftE fromConfig
           (getBunConfigPath resolve access aggregateError
              workingDirectory (getInput bunfig_path_)))
    (fun viteConfigPath =>
  bindE (match viteConfigPath with
         | Some ((_ :: _) as configPath) =>
             liftE fromCollaborator (parseCoverageThresholds configPath)
         | _ => retE emptyThresholds
         end) (fun thresholds =>
  bindE (liftE fromCollaborator getCommitSHA) (fun commitSHA =>
  bindE (if includesPr commentOn
         then liftE fromCollaborator (getPullRequestNumber octokit)
         else retE None) (fun prNumber =>
  let fileCoverageRootPath := getInput file_coverage_root_path_ in
  retE {| fileCoverageMode := fileCoverageMode;
          lcovPath := lcovPath;
          lcovComparePath := lcovComparePath;
          name := name;
          thresholds := thresholds;
          workingDirectory := workingDirectory;
          prNumber := prNumber;
          commitSHA := commitSHA;
          commentOn := commentOn;
          fileCoverageRootPath := fileCoverageRootPath |})))))).

End Options.

(* ================================================================== *)
(** * Vocabulary of the statements *)
(* ================================================================== *)

(** Lines joined by newlines, as a text. *)
Fixpoint unlines (lns : list jsstring) : jsstring :=
  match lns with
  | [] => []
  | [ln] => ln
  | ln :: lns' => ln ++ JsString.newline :: unlines lns'
  end.

(** What the parser does with a trimmed line, by its shape. *)
Definition isSF (ln : jsstring) : bool :=
  JsString.startsWith (JsString.trim ln) SF_.

Definition isDA (ln : jsstring) : bool :=
  JsString.startsWith (JsString.trim ln) DA_.

Definition isEnd (ln : jsstring) : bool :=
  JsString.eqb (JsString.trim ln) end_of_record.

(** A counter directive: [FNF:], [FNH:], [BRF:] or [BRH:]. *)
Definition isCounter (ln : jsstring) : bool :=
  let trimmed := JsString.trim ln in
  JsString.startsWith trimmed FNF_ || JsString.startsWith trimmed FNH_
  || JsString.startsWith trimmed BRF_ || JsString.startsWith trimmed BRH_.

(** A blank line, or one no branch of the parser recognizes. *)
Definition ignorable (ln : jsstring) : bool :=
  match JsString.trim ln with
  | [] => true
  | _ :: _ => negb (isSF ln || isDA ln || isCounter ln || isEnd ln)
  end.

(** A well-formed block of an LCOV text: the [SF:] line, the lines of
    the record, the [end_of_record] line, and whatever follows the block
    before the next one opens. *)
Record Block := {
  b_open : jsstring;
  b_body : list jsstring;
  b_close : jsstring;
  b_after : list jsstring
}.

Definition blockLines (b : Block) : list jsstring :=
  b_open b :: b_body b ++ b_close b :: b_after b.

Definition blockPath (b : Block) : jsstring :=
  JsString.substring 3 (JsString.trim (b_open b)).

Definition inBody (ln : jsstring) : Prop := isSF ln = false /\ isEnd ln = false.

Definition wellFormed (b : Block) : Prop :=
  isSF (b_open b) = true
  /\ blockPath b <> []
  /\ Forall inBody (b_body b)
  /\ isEnd (b_close b) = true
  /\ Forall (fun ln => isSF ln = false) (b_after b).

(** The [DA:] entries of a block, in order of appearance. *)
Definition blockEntries (b : Block) : list LineEntry :=
  map (fun ln => daEntry (JsString.trim ln)) (filter isDA (b_body b)).

(** [r] was opened by an [SF:] line of [lns] and closed by a later
    [end_of_record] line, no line between them opening or closing. *)
Definition closedIn (lns : list jsstring) (r : LcovRecord) : Prop :=
  exists pre sf body eor post,
    lns = pre ++ sf :: body ++ eor :: post
    /\ isSF sf = true
    /\ sourceFile r = JsString.substring 3 (JsString.trim sf)
    /\ sourceFile r <> []
    /\ Forall inBody body
    /\ isEnd eor = true.

(** [r] was opened by an [SF:] line of [lns] that nothing closed yet. *)
Definition openIn (lns : list jsstring) (r : LcovRecord) : Prop :=
  exists pre sf body,
    lns = pre ++ sf :: body
    /\ isSF sf = true
    /\ sourceFile r = JsString.substring 3 (JsString.trim sf)
    /\ Forall inBody body.

(** What the parser makes of a block. *)
Definition recordOf (b : Block) (r : LcovRecord) : Prop :=
  sourceFile r = blockPath b /\ lines r = blockEntries b.

(** A property name JavaScript gives no meaning of its own: neither
    [__proto__] nor an array index. *)
Definition ordinaryName (k : jsstring) : Prop :=
  k <> JsObject.proto_ /\ JsObject.arrayIndex k = None.

(** The keys after [o[k] = v], for an ordinary name [k]. *)
Definition addKey (ks : list jsstring) (k : jsstring) : list jsstring :=
  if existsb (fun k' => JsString.eqb k' k) ks then ks else ks ++ [k].

(** One write of a loop that stores a property for each element of a
    list: [o[keyOf r] = valueOf r]. *)
Definition write {V R} (keyOf : R -> jsstring) (valueOf : R -> V)
    (o : JsObject.t V) (r : R) : JsObject.t V :=
  JsObject.set o (keyOf r) (valueOf r).

(** The elements of a list with their indices, counted from [i]. *)
Definition indexed {A} (i : nat) (xs : list A) : list (nat * A) :=
  combine (seq i (List.length xs)) xs.

Definition idMap {A V} (f : A -> V) (i : nat) (xs : list A) : JsObject.t V :=
  map (fun p => (JsString.String (fst p), f (snd p))) (indexed i xs).

(** ** Numbers *)

(** [mrs] locates the rational [N / D]: its integer part, whether the
    fraction reaches one half, and whether it is neither 0 nor 1/2. *)
Definition locates (N D : Z) (mrs : shr_record) : Prop :=
  shr_m mrs = N / D
  /\ shr_r mrs = (D <=? 2 * (N mod D))
  /\ shr_s mrs = negb ((2 * (N mod D)) mod D =? 0).

Definition fexp64 (e : Z) : Z := fexp JsNumber.prec JsNumber.emax e.

(** How far [shr_fexp] shifts a mantissa [m] of exponent [e]. *)
Definition shift (m e : Z) : Z := Z.max (fexp64 (Zdigits2 m + e) - e) 0.

(** The real number a finite number stands for. *)
Definition B2R (x : number) : R :=
  match x with
  | S754_finite sx m e => (IZR (cond_Zopp sx (Z.pos m)) * powerRZ 2 e)%R
  | _ => 0%R
  end.

(** The unit roundoff of binary64. *)
Definition u53 : R := (/ IZR (2 ^ 53))%R.

(** No exponent below the least one of binary64; every number the
    parser reads is so. *)
Definition expOk (x : number) : Prop :=
  match x with
  | S754_finite _ _ e => -1074 <= e
  | _ => True
  end.

(** A running total: in range and not the negative zero. *)
Definition accOk (x : number) : Prop := x <> S754_zero true /\ expOk x.

Definition countersOk (r : LcovRecord) : Prop :=
  expOk (found (functions r)) /\ expOk (hits (functions r))
  /\ expOk (found (branches r)) /\ expOk (hits (branches r)).

(** [sum(f(x) for x in xs)]: the terms added one by one, from 0. *)
Definition sumOver {A} (f : A -> number) (xs : list A) : number :=
  fold_left (fun acc x => JsNumber.add acc (f x)) xs JsNumber.zero.

(** The four entries of a report. *)
Definition metrics (b : CoverageReport) : list ReportNumbers :=
  [r_lines b; r_statements b; r_functions b; r_branches b].

(** The line entries of all records, and those that were hit. *)
Definition countLines (records : list LcovRecord) : nat :=
  list_sum (map (fun r => List.length (lines r)) records).

Definition countHitLines (records : list LcovRecord) : nat :=
  list_sum (map (fun r => List.length (hitLines r)) records).

(** [10000 c / t] rounded to the nearest integer, a tie going up. *)
Definition nearestHundredth (c t : Z) : Z := (20000 * c + t) / (2 * t).

(** [10000 c / t] lies exactly halfway between two integers. *)
Definition isTie (c t : Z) : Prop := (20000 * c) mod (2 * t) = t.

(** Case analysis along the [if] chain of [parseLine]; the facts about
    the line are expected in the goal. *)
Ltac parse_line_cases ln :=
  unfold parseLine, onCurrent, isSF, isDA, isEnd, isCounter, ignorable;
  destruct (JsString.trim ln) as [|? ?];
  [ cbn [JsString.startsWith SF_ DA_ fst snd]
  | repeat match goal with
      | |- context [JsString.startsWith ?t ?p] =>
          destruct (JsString.startsWith t p)
      | |- context [JsString.eqb ?t ?p] =>
          destruct (JsString.eqb t p)
      end;
    cbn [fst snd] ].

(** ** Counter directives of a block *)

Definition isFNF (ln : jsstring) : bool :=
  JsString.startsWith (JsString.trim ln) FNF_.
Definition isFNH (ln : jsstring) : bool :=
  JsString.startsWith (JsString.trim ln) FNH_.
Definition isBRF (ln : jsstring) : bool :=
  JsString.startsWith (JsString.trim ln) BRF_.
Definition isBRH (ln : jsstring) : bool :=
  JsString.startsWith (JsString.trim ln) BRH_.

(** The number after the prefix of the last line of the given kind, or
    [init] when there is none. *)
Definition lastIntFrom (kind : jsstring -> bool) (init : number)
    (lns : list jsstring) : number :=
  fold_left (fun acc ln => if kind ln then intAfter 4 (JsString.trim ln)
                           else acc) lns init.

(** The record a well-formed block stands for. *)
Definition blockRecord (b : Block) : LcovRecord :=
  {| sourceFile := blockPath b;
     lines := blockEntries b;
     functions :=
       {| found := lastIntFrom isFNF JsNumber.zero (b_body b);
          hits := lastIntFrom isFNH JsNumber.zero (b_body b) |};
     branches :=
       {| found := lastIntFrom isBRF JsNumber.zero (b_body b);
          hits := lastIntFrom isBRH JsNumber.zero (b_body b) |} |}.

(** A [DA:] line written in decimal, with whatever follows the count. *)
Definition daLine (lineNumber hitCount : nat) (rest : jsstring) : jsstring :=
  DA_ ++ JsString.String lineNumber
      ++ JsString.comma :: JsString.String hitCount ++ rest.

(** 1 when a record is open, 0 otherwise. *)
Definition isOpen (st : ParserState) : nat :=
  match snd st with Some _ => 1%nat | None => 0%nat end.

(** The report of no record at all. *)
Definition zeroNumbers : ReportNumbers :=
  {| total := JsNumber.zero; covered := JsNumber.zero;
     skipped := JsNumber.zero; pct := JsNumber.zero |}.

Definition zeroReport : CoverageReport :=
  {| r_lines := zeroNumbers; r_statements := zeroNumbers;
     r_functions := zeroNumbers; r_branches := zeroNumbers |}.

(** The last record of the list that is named [k], if any. *)
Definition lastNamed (k : jsstring) (records : list LcovRecord)
  : option LcovRecord :=
  find (fun r => JsString.eqb (sourceFile r) k) (rev records).

(** The file [getBunConfigPath] looks for. *)
Definition configTarget (resolve : jsstring -> jsstring -> jsstring)
    (workingDirectory input : jsstring) : jsstring :=
  resolve workingDirectory
    (match input with
     | [] => JsString.lit "bunfig.toml"
     | _ :: _ => input
     end).

(** ** Writing records out *)

(** A record whose numbers are natural numbers, as a coverage tool
    counts them. *)
Record PlainRecord := {
  plainPath : jsstring;
  plainLines : list (nat * nat);
  plainFnf : nat;
  plainFnh : nat;
  plainBrf : nat;
  plainBrh : nat
}.

Definition plainEntry (nh : nat * nat) : LineEntry :=
  {| line := JsNumber.of_nat (fst nh); hit := JsNumber.of_nat (snd nh) |}.

Definition toRecord (p : PlainRecord) : LcovRecord :=
  {| sourceFile := plainPath p;
     lines := map plainEntry (plainLines p);
     functions := {| found := JsNumber.of_nat (plainFnf p);
                     hits := JsNumber.of_nat (plainFnh p) |};
     branches := {| found := JsNumber.of_nat (plainBrf p);
                    hits := JsNumber.of_nat (plainBrh p) |} |}.

(** The block that spells the record out: the path, one [DA:] line for
    each entry, the four counters, the end marker. *)
Definition toBlock (p : PlainRecord) : Block :=
  {| b_open := SF_ ++ plainPath p;
     b_body := map (fun nh => daLine (fst nh) (snd nh) []) (plainLines p)
               ++ [FNF_ ++ JsString.String (plainFnf p);
                   FNH_ ++ JsString.String (plainFnh p);
                   BRF_ ++ JsString.String (plainBrf p);
                   BRH_ ++ JsString.String (plainBrh p)];
     b_close := end_of_record;
     b_after := [] |}.

Definition toText (ps : list PlainRecord) : jsstring :=
  unlines (flat_map (fun p => blockLines (toBlock p)) ps).

(** A path that can be written after [SF:]: not empty, without a line
    break, and without white space at either end. *)
Definition pathOk (path : jsstring) : Prop :=
  path <> [] /\ JsString.trim path = path /\ ~ In JsString.newline path.

(** The values of a dictionary, in the order it lists them. *)
Definition valuesOf {V} (o : JsObject.t V) : list V := map snd o.

(* ================================================================== *)
(** * Sample runs *)
(* ================================================================== *)

Definition sampleText : jsstring := Eval cbv in
  JsString.lit "SF:src/a.ts
DA:1,1
DA:2,0
FNF:2
FNH:1
BRF:0
BRH:0
end_of_record
".

(** A record whose function counters are [FNF:-5] and [FNH:3]. *)
Definition negativeFoundText : jsstring := Eval cbv in
  JsString.lit "SF:src/a.ts
FNF:-5
FNH:3
end_of_record
".

Definition lineHit (n h : Z) : LineEntry :=
  {| line := JsNumber.of_Z n; hit := JsNumber.of_Z h |}.

(** A record of [hitCount] lines that were hit and [missCount] that
    were not. *)
Definition linesRecord (name : jsstring) (hitCount missCount : nat)
  : LcovRecord :=
  {| sourceFile := name;
     lines := repeat (lineHit 1 1) hitCount ++ repeat (lineHit 2 0) missCount;
     functions := {| found := JsNumber.zero; hits := JsNumber.zero |};
     branches := {| found := JsNumber.zero; hits := JsNumber.zero |} |}.

(** 23 lines hit out of 160: [10000 * 23 / 160 = 1437.5]. *)
Definition tieRecord : LcovRecord :=
  linesRecord (JsString.lit "src/a.ts") 23 137.

(** A file that is itself named [total], followed by another file. *)
Definition totalNamedText : jsstring := Eval cbv in
  JsString.lit "SF:total
DA:1,1
end_of_record
SF:src/a.ts
DA:1,0
end_of_record
".

(** Two records that share the name [total]. *)
Definition twiceTotalText : jsstring := Eval cbv in
  JsString.lit "SF:total
DA:1,1
end_of_record
SF:total
DA:1,0
DA:2,0
end_of_record
".

(** A file named like an array index, after a file with a usual path. *)
Definition indexNamedText : jsstring := Eval cbv in
  JsString.lit "SF:src/b.ts
DA:1,1
end_of_record
SF:42
DA:1,0
end_of_record
".

(** A file named [__proto__]. *)
Definition protoNamedText : jsstring := Eval cbv in
  JsString.lit "SF:__proto__
DA:5,1
end_of_record
".

(** Two blocks; the first repeats a line number and holds a blank line
    and a directive the parser does not know. *)
Definition blockA : Block :=
  {| b_open := JsString.lit "SF:src/a.ts";
     b_body := [JsString.lit "DA:3,1"; JsString.lit "DA:3,1";
                JsString.lit ""; JsString.lit "FN:3,main";
                JsString.lit "DA:4,0"];
     b_close := JsString.lit "end_of_record";
     b_after := [] |}.

Definition blockB : Block :=
  {| b_open := JsString.lit "  SF:src/b.ts";
     b_body := [JsString.lit "FNF:1"; JsString.lit "DA:9,2"];
     b_close := JsString.lit "end_of_record ";
     b_after := [JsString.lit ""] |}.

Definition twoBlocksText : jsstring :=
  unlines (flat_map blockLines [blockA; blockB]).

(** A record with the lines 5 (hit once) and 9 (not hit). *)
Definition fiveNine (name : jsstring) : LcovRecord :=
  {| sourceFile := name;
     lines := [lineHit 5 1; lineHit 9 0];
     functions := {| found := JsNumber.zero; hits := JsNumber.zero |};
     branches := {| found := JsNumber.zero; hits := JsNumber.zero |} |}.

(** The same path twice, another one between. *)
Definition sharedPathRecords : list LcovRecord :=
  [linesRecord (JsString.lit "src/a.ts") 1 1;
   linesRecord (JsString.lit "src/b.ts") 2 0;
   linesRecord (JsString.lit "src/a.ts") 0 3].

(** A file system without the report. *)
Definition noSuchFile (resolvedPath : jsstring) : Thrown + jsstring :=
  inl (ErrorObject (JsString.lit "Error: ENOENT")).

Definition joinPath (cwd lcovPath : jsstring) : jsstring :=
  cwd ++ JsString.lit "/" ++ lcovPath.

(** The sample text as a Windows tool would write it: every line
    indented and ended by a carriage return. *)
Definition crlfText : jsstring :=
  unlines (map (fun ln => 32%N :: ln ++ [13%N])
             (JsString.split JsString.newline sampleText)).

(** A file system that holds one file. *)
Definition oneFile (path content : jsstring) (resolvedPath : jsstring)
  : Thrown + jsstring :=
  if JsString.eqb resolvedPath path then inr content
  else inl (ErrorObject (JsString.lit "Error: ENOENT")).

(** A stand-in for [JSON.parse] that knows one text, the empty object,
    and takes the text itself for the value. *)
Definition parseBraces (raw : jsstring) : Thrown + jsstring :=
  if JsString.eqb raw (JsString.lit "{}") then inr raw
  else inl (ErrorObject (JsString.lit "SyntaxError")).

(** A file system in which one path can be read. *)
Definition readable (path : jsstring) (resolvedPath : jsstring)
  : Thrown + unit :=
  if JsString.eqb resolvedPath path then inr tt
  else inl (ErrorObject (JsString.lit "Error: ENOENT")).

(** The inputs of a run in the working directory [/w]. *)
Definition sampleInput (key : jsstring) : jsstring :=
  if JsString.eqb key working_directory_ then JsString.lit "/w"
  else if JsString.eqb key lcov_path_ then JsString.lit "lcov.info"
  else if JsString.eqb key name_ then JsString.lit "unit"
  else [].

(** Collaborators that log nothing and do not fail; comments go to the
    commit only. *)
Definition sampleMode (raw : jsstring) : Eff unit jsstring := retE raw.
Definition sampleCommentOn : Eff unit (list jsstring) :=
  retE [JsString.lit "commit"].
Definition sampleThresholds (configPath : jsstring) : Eff unit jsstring :=
  retE configPath.
Definition sampleCommitSHA : Eff unit jsstring := retE (JsString.lit "abc").
Definition samplePullRequest (octokit : unit) : Eff unit (option number) :=
  retE (Some (JsNumber.of_Z 7)).
Definition failingPullRequest (octokit : unit)
  : Eff unit (option number) :=
  throwE OtherValue.

(** A record with function and branch counters. *)
Definition countersRecord (fnf fnh brf brh : nat) : LcovRecord :=
  {| sourceFile := JsString.lit "src/a.ts";
     lines := [];
     functions := {| found := JsNumber.of_nat fnf;
                     hits := JsNumber.of_nat fnh |};
     branches := {| found := JsNumber.of_nat brf;
                    hits := JsNumber.of_nat brh |} |}.

(** Two records as a coverage tool counts them. *)
Definition plainA : PlainRecord :=
  {| plainPath := JsString.lit "src/a.ts";
     plainLines := [(1, 1); (2, 0); (2, 12)]%nat;
     plainFnf := 2; plainFnh := 1; plainBrf := 0; plainBrh := 0 |}.

Definition plainB : PlainRecord :=
  {| plainPath := JsString.lit "src/my file.ts";
     plainLines := [];
     plainFnf := 0; plainFnh := 0; plainBrf := 4; plainBrh := 3 |}.

(** A record with more function hits than functions found. *)
Definition overHit : LcovRecord := countersRecord 2 3 0 0.

Example sample_records :
  map sourceFile (parseLcovData sampleText) = [JsString.lit "src/a.ts"]
  /\ map (fun r => List.length (lines r)) (parseLcovData sampleText) = [2%nat].
Proof. split; vm_compute; reflexivity. Qed.

Example sample_summary_keys :
  JsObject.keys (lcovToJsonSummary (parseLcovData sampleText))
  = [total_; JsString.lit "src/a.ts"].
Proof. vm_compute. reflexivity. Qed.

Example sample_line_pct :
  option_map (fun b => pct (r_lines b))
    (JsObject.get (lcovToJsonSummary (parseLcovData sampleText)) total_)
  = Some (JsNumber.of_Z 50).
Proof. vm_compute. reflexivity. Qed.

Example sample_final_ids :
  option_map (fun f => JsObject.keys (s f))
    (JsObject.get (lcovToJsonFinal (parseLcovData sampleText))
       (JsString.lit "src/a.ts"))
  = Some [JsString.lit "0"; JsString.lit "1"].
Proof. vm_compute. reflexivity. Qed.

Example parseInt_samples :
  JsNumber.parseInt (Some (JsString.lit " -12abc")) = JsNumber.of_Z (-12)
  /\ JsNumber.parseInt (Some (JsString.lit "abc")) = JsNumber.NaN
  /\ JsNumber.parseInt (Some (JsString.lit "-0")) = S754_zero true
  /\ JsNumber.parseInt None = JsNumber.NaN.
Proof. repeat split; vm_compute; reflexivity. Qed.

Example split_samples :
  JsString.split JsString.comma (JsString.lit "1,,2")
  = [JsString.lit "1"; []; JsString.lit "2"]
  /\ JsString.split JsString.newline [] = [[]]
  /\ JsString.trim (JsString.lit "  a b  ") = JsString.lit "a b".
Proof. repeat split; vm_compute; reflexivity. Qed.

(* ================================================================== *)
(** * Strings: splitting and comparing *)
(* ================================================================== *)

Lemma eqb_eq (a b : jsstring) : JsString.eqb a b = true <-> a = b.
Proof.
  unfold JsString.eqb. destruct (list_eq_dec N.eq_dec a b); split; congruence.
Qed.

Lemma eqb_neq (a b : jsstring) : JsString.eqb a b = false <-> a <> b.
Proof.
  unfold JsString.eqb. destruct (list_eq_dec N.eq_dec a b); split; congruence.
Qed.

Lemma eqb_refl (a : jsstring) : JsString.eqb a a = true.
Proof. now apply eqb_eq. Qed.

Lemma split_nonempty sep str : JsString.split sep str <> [].
Proof.
  destruct str as [|c str]; simpl; [discriminate|].
  destruct (N.eqb c sep); [discriminate|].
  destruct (JsString.split sep str); discriminate.
Qed.

(** Splitting around a separator splits both sides. *)
Lemma split_app sep a b :
  JsString.split sep (a ++ sep :: b)
  = JsString.split sep a ++ JsString.split sep b.
Proof.
  induction a as [|c a IH]; simpl.
  - now rewrite N.eqb_refl.
  - destruct (N.eqb c sep); [now rewrite IH|].
    rewrite IH.
    destruct (JsString.split sep a) eqn:E; [now apply split_nonempty in E|].
    reflexivity.
Qed.

Lemma split_no_sep sep str :
  ~ In sep str -> JsString.split sep str = [str].
Proof.
  induction str as [|c str IH]; simpl; intros H; [reflexivity|].
  destruct (N.eqb_spec c sep) as [->|_]; [tauto|].
  rewrite IH; tauto.
Qed.

Lemma split_unlines lns :
  lns <> [] ->
  Forall (fun ln => ~ In JsString.newline ln) lns ->
  JsString.split JsString.newline (unlines lns) = lns.
Proof.
  induction lns as [|ln lns IH]; intros Hne Hall; [congruence|].
  inversion Hall as [|? ? Hln Hrest]; subst.
  destruct lns as [|ln' lns].
  - simpl. now apply split_no_sep.
  - change (unlines (ln :: ln' :: lns))
      with (ln ++ JsString.newline :: unlines (ln' :: lns)).
    rewrite split_app, IH by (auto; discriminate).
    now rewrite split_no_sep.
Qed.

(* ================================================================== *)
(** * The parser, line by line *)
(* ================================================================== *)

Lemma parseLine_ignorable st ln :
  ignorable ln = true -> parseLine st ln = st.
Proof.
  intros H. unfold parseLine, ignorable in *.
  destruct (JsString.trim ln) eqn:T; [reflexivity|].
  unfold isSF, isDA, isCounter, isEnd in H. rewrite T in H.
  apply negb_true_iff in H.
  repeat match goal with
    | E : _ || _ = false |- _ => apply orb_false_iff in E; destruct E
    end.
  repeat match goal with E : _ = false |- _ => rewrite E; clear E end.
  reflexivity.
Qed.

Lemma parseLine_SF st ln :
  isSF ln = true ->
  parseLine st ln
  = (fst st, Some (newRecord (JsString.substring 3 (JsString.trim ln)))).
Proof.
  unfold isSF, parseLine. intros H.
  destruct (JsString.trim ln) eqn:T; [discriminate|].
  now rewrite H.
Qed.

Lemma parseLine_end st ln :
  isEnd ln = true ->
  parseLine st ln
  = (match snd st with
     | Some r => match sourceFile r with
                 | [] => fst st
                 | _ :: _ => fst st ++ [r]
                 end
     | None => fst st
     end, None).
Proof.
  unfold isEnd, parseLine. intros H. apply eqb_eq in H. rewrite H.
  reflexivity.
Qed.

Lemma isEnd_not_SF ln : isEnd ln = true -> isSF ln = false.
Proof.
  unfold isEnd, isSF. intros H. apply eqb_eq in H. now rewrite H.
Qed.

(** Without an end marker the output is left alone. *)
Lemma parseLine_keeps_records st ln :
  isEnd ln = false -> fst (parseLine st ln) = fst st.
Proof.
  destruct st as [records [r|]]; parse_line_cases ln;
    intros; try reflexivity; discriminate.
Qed.

(** Outside a record only [SF:] changes the state. *)
Lemma parseLine_closed records ln :
  isSF ln = false -> parseLine (records, None) ln = (records, None).
Proof.
  parse_line_cases ln; intros; try reflexivity; discriminate.
Qed.

(** Inside a record, a line that neither opens nor closes one keeps the
    record open under the same path; only [DA:] touches its lines. *)
Lemma parseLine_open records r ln :
  isSF ln = false -> isEnd ln = false ->
  exists r',
    parseLine (records, Some r) ln = (records, Some r')
    /\ sourceFile r' = sourceFile r
    /\ lines r' = lines r ++
         (if isDA ln then [daEntry (JsString.trim ln)] else []).
Proof.
  parse_line_cases ln; intros; try discriminate;
    eexists; (split; [reflexivity|]); simpl; split;
    try reflexivity; now rewrite ?app_nil_r.
Qed.

Lemma parseLines_app l1 l2 st :
  parseLines (l1 ++ l2) st = parseLines l2 (parseLines l1 st).
Proof. unfold parseLines. apply fold_left_app. Qed.

Lemma parseLines_closed records lns :
  Forall (fun ln => isSF ln = false) lns ->
  parseLines lns (records, None) = (records, None).
Proof.
  induction 1 as [|ln lns H _ IH]; [reflexivity|].
  unfold parseLines in *. simpl. now rewrite parseLine_closed.
Qed.

Lemma parseLines_keeps_records lns : forall st,
  Forall (fun ln => isEnd ln = false) lns ->
  fst (parseLines lns st) = fst st.
Proof.
  induction lns as [|ln lns IH]; intros st H; [reflexivity|].
  inversion H; subst. unfold parseLines in *. simpl.
  rewrite IH by assumption. now apply parseLine_keeps_records.
Qed.

(** The body of a block: every [DA:] line adds its entry, in order. *)
Lemma parseLines_open lns : forall records r,
  Forall (fun ln => isSF ln = false /\ isEnd ln = false) lns ->
  exists r',
    parseLines lns (records, Some r) = (records, Some r')
    /\ sourceFile r' = sourceFile r
    /\ lines r' = lines r ++
         map (fun ln => daEntry (JsString.trim ln)) (filter isDA lns).
Proof.
  induction lns as [|ln lns IH]; intros records r H.
  - exists r. simpl. now rewrite app_nil_r.
  - inversion H as [|? ? [H1 H2] Hrest]; subst.
    destruct (parseLine_open records r ln H1 H2) as (r1 & E1 & S1 & L1).
    destruct (IH records r1 Hrest) as (r2 & E2 & S2 & L2).
    exists r2. unfold parseLines in *. simpl. rewrite E1, E2.
    split; [reflexivity|]. split; [congruence|].
    rewrite L2, L1. simpl. destruct (isDA ln); simpl;
      now rewrite <- app_assoc.
Qed.

Lemma isDA_not_SF ln : isDA ln = true -> isSF ln = false.
Proof.
  unfold isDA, isSF. destruct (JsString.trim ln) as [|c t]; [discriminate|].
  simpl. destruct (N.eqb_spec c 68) as [->|]; [reflexivity|discriminate].
Qed.

Lemma isCounter_not_SF ln : isCounter ln = true -> isSF ln = false.
Proof.
  unfold isCounter, isSF.
  destruct (JsString.trim ln) as [|c t]; [discriminate|].
  simpl. destruct (N.eqb_spec c 70) as [->|]; [reflexivity|].
  destruct (N.eqb_spec c 66) as [->|]; [reflexivity|discriminate].
Qed.

Lemma closedIn_app lns more r : closedIn lns r -> closedIn (lns ++ more) r.
Proof.
  intros (pre & sf & body & eor & post & -> & H).
  exists pre, sf, body, eor, (post ++ more). split; [|exact H].
  rewrite <- app_assoc. simpl. rewrite <- app_assoc. reflexivity.
Qed.

(** Every record of the output was opened and then closed; the record
    still in the slot was opened and not closed. *)
Lemma parseLines_provenance lns :
  (forall r, In r (fst (parseLines lns ([], None))) -> closedIn lns r)
  /\ (forall r, snd (parseLines lns ([], None)) = Some r -> openIn lns r).
Proof.
  induction lns as [|ln lns [IHc IHo]] using rev_ind.
  - split; [intros r []|discriminate].
  - rewrite parseLines_app.
    destruct (parseLines lns ([], None)) as [records cur] eqn:E.
    change (parseLines [ln] (records, cur)) with (parseLine (records, cur) ln).
    simpl in IHc, IHo.
    destruct (isSF ln) eqn:HSF.
    + rewrite parseLine_SF by assumption. simpl. split.
      * intros r Hr. apply closedIn_app. auto.
      * intros r [= <-]. exists lns, ln, []. repeat split; auto.
    + destruct (isEnd ln) eqn:HE.
      * rewrite parseLine_end by assumption. simpl. split; [|discriminate].
        intros r Hr.
        assert (In r records \/ (cur = Some r /\ sourceFile r <> [])) as [H|[H N]].
        { destruct cur as [r0|]; [|now left].
          destruct (sourceFile r0) eqn:S0; [now left|].
          apply in_app_or in Hr. destruct Hr as [H|[<-|[]]]; [now left|].
          right. split; [reflexivity|]. rewrite S0. discriminate. }
        -- apply closedIn_app. auto.
        -- destruct (IHo r H) as (pre & sf & body & -> & H1 & H2 & H3).
           exists pre, sf, body, ln, []. repeat split; auto.
           rewrite <- app_assoc. reflexivity.
      * destruct cur as [r0|].
        -- destruct (parseLine_open records r0 ln HSF HE) as (r' & -> & S' & _).
           simpl. split.
           ++ intros r Hr. apply closedIn_app. auto.
           ++ intros r [= <-].
              destruct (IHo r0 eq_refl) as (pre & sf & body & -> & H1 & H2 & H3).
              exists pre, sf, (body ++ [ln]). repeat split; auto.
              ** rewrite <- app_assoc. reflexivity.
              ** congruence.
              ** apply Forall_app. split; [assumption|].
                 constructor; [split; assumption|constructor].
        -- rewrite parseLine_closed by assumption. simpl. split; [|discriminate].
           intros r Hr. apply closedIn_app. auto.
Qed.

(* ================================================================== *)
(** * Claims about the record parser *)
(* ================================================================== *)

(** C5. A record reaches the output only if an [SF:] line with a
    non-empty path opened it and an [end_of_record] line closed it, with
    no other [SF:] or [end_of_record] line between the two; whatever the
    slot holds, lines without an end marker add nothing to the output (so
    a record that is never closed contributes nothing); and an [SF:] line
    replaces the slot by a fresh record without touching the output (so a
    record still open at that point is abandoned). *)
Theorem C5_only_closed_records_are_output :
  (forall text r,
      In r (parseLcovData text) ->
      closedIn (JsString.split JsString.newline text) r)
  /\ (forall records cur lns,
        Forall (fun ln => isEnd ln = false) lns ->
        fst (parseLines lns (records, cur)) = records)
  /\ (forall records cur ln,
        isSF ln = true ->
        parseLine (records, cur) ln
        = (records,
           Some (newRecord (JsString.substring 3 (JsString.trim ln))))).
Proof.
  split; [|split].
  - intros text r. apply parseLines_provenance.
  - intros records cur lns H.
    now rewrite parseLines_keeps_records.
  - intros records cur ln H. now rewrite parseLine_SF.
Qed.

(** C8. The parser is a total function of the text; a blank line or a
    line no branch recognizes may be inserted anywhere in the text
    without changing the output; and a [DA:], [FNF:], [FNH:], [BRF:] or
    [BRH:] line met while no record is open leaves the state as it is. *)
Theorem C8_parser_total_and_tolerant :
  (forall text, exists records, parseLcovData text = records)
  /\ (forall text text' pre junk post,
        JsString.split JsString.newline text = pre ++ post ->
        JsString.split JsString.newline text' = pre ++ junk :: post ->
        ignorable junk = true ->
        parseLcovData text' = parseLcovData text)
  /\ (forall records ln,
        isDA ln || isCounter ln = true ->
        parseLine (records, None) ln = (records, None)).
Proof.
  split; [|split].
  - intros text. eexists. reflexivity.
  - intros text text' pre junk post E E' H. unfold parseLcovData.
    rewrite E, E'.
    change (junk :: post) with ([junk] ++ post).
    rewrite !parseLines_app.
    change (parseLines [junk] ?st) with (parseLine st junk).
    now rewrite parseLine_ignorable.
  - intros records ln H. apply parseLine_closed.
    apply orb_true_iff in H. destruct H.
    + now apply isDA_not_SF.
    + now apply isCounter_not_SF.
Qed.

Lemma parseLines_block b records :
  wellFormed b ->
  exists r,
    parseLines (blockLines b) (records, None) = (records ++ [r], None)
    /\ recordOf b r.
Proof.
  intros (Hopen & Hpath & Hbody & Hclose & Hafter).
  destruct (parseLines_open records
              (newRecord (blockPath b)) Hbody) as (r & E & S & L).
  exists r. split; [|split; [exact S|exact L]].
  unfold blockLines.
  change (b_open b :: ?l) with ([b_open b] ++ l).
  rewrite parseLines_app.
  change (parseLines [b_open b] ?st) with (parseLine st (b_open b)).
  rewrite parseLine_SF by assumption. cbn [fst].
  rewrite parseLines_app. fold (blockPath b). rewrite E.
  change (b_close b :: ?l) with ([b_close b] ++ l).
  rewrite parseLines_app.
  change (parseLines [b_close b] ?st) with (parseLine st (b_close b)).
  rewrite parseLine_end by assumption. cbn [fst snd].
  rewrite S. simpl in S.
  destruct (blockPath b) eqn:P; [congruence|].
  now apply parseLines_closed.
Qed.

Lemma parseLines_blocks blocks : forall records,
  Forall wellFormed blocks ->
  exists rs,
    parseLines (flat_map blockLines blocks) (records, None)
    = (records ++ rs, None)
    /\ Forall2 recordOf blocks rs.
Proof.
  induction blocks as [|b blocks IH]; intros records H.
  - exists []. simpl. rewrite app_nil_r. split; [reflexivity|constructor].
  - inversion H as [|? ? Hb Hrest]; subst.
    destruct (parseLines_block records Hb) as (r & E & Hr).
    destruct (IH (records ++ [r]) Hrest) as (rs & E' & Hrs).
    exists (r :: rs). cbn [flat_map]. rewrite parseLines_app, E, E'.
    rewrite <- app_assoc. split; [reflexivity|]. now constructor.
Qed.

(** C2. A text whose lines are [N] well-formed blocks, one after the
    other (lines that open no record may precede the first block and
    follow each block), parses to exactly [N] records, the [i]-th record
    coming from the [i]-th block: its path is the block's path and its
    lines are the entries of the block's [DA:] lines, one entry for each
    line, in their order of appearance. *)
Theorem C2_one_record_per_block :
  forall (lead : list jsstring) (blocks : list Block) (text : jsstring),
    Forall (fun ln => isSF ln = false) lead ->
    Forall wellFormed blocks ->
    JsString.split JsString.newline text
    = lead ++ flat_map blockLines blocks ->
    List.length (parseLcovData text) = List.length blocks
    /\ Forall2 recordOf blocks (parseLcovData text).
Proof.
  intros lead blocks text Hlead Hblocks E.
  unfold parseLcovData. rewrite E, parseLines_app.
  rewrite parseLines_closed by assumption.
  destruct (parseLines_blocks [] Hblocks) as (rs & -> & H).
  simpl. split; [|exact H].
  symmetry. eapply Forall2_length. exact H.
Qed.

(* ================================================================== *)
(** * Decimal numerals *)
(* ================================================================== *)

Lemma digits_value_of_uint d : forall (a : nat) rest,
  JsNumber.has_digit rest = false ->
  JsNumber.digits_value (Z.of_nat a) (JsString.of_uint d ++ rest)
  = Z.of_nat (Nat.of_uint_acc d a).
Proof.
  induction d; intros a rest H;
    cbn [JsString.of_uint app Nat.of_uint_acc];
    try (cbn [JsNumber.digits_value];
         match goal with
         | |- context [JsNumber.is_digit ?c] =>
             change (JsNumber.is_digit c) with true
         end;
         cbv iota; rewrite <- (IHd _ rest) by assumption; f_equal;
         rewrite Nat.tail_mul_spec; cbn [Z.of_N]; lia).
  destruct rest as [|c rest]; [reflexivity|].
  cbn in H. cbn [JsNumber.digits_value]. now rewrite H.
Qed.

Lemma to_uint_digit_led n :
  exists c str,
    JsString.String n = c :: str /\ JsNumber.is_digit c = true.
Proof.
  unfold JsString.String.
  destruct (Nat.to_uint n) eqn:E; cbn [JsString.of_uint];
    try (eexists; eexists; split; reflexivity).
  pose proof (DecimalNat.Unsigned.of_to n) as H. rewrite E in H.
  cbn in H. subst n. discriminate E.
Qed.

Lemma of_uint_inj d : forall d',
  JsString.of_uint d = JsString.of_uint d' -> d = d'.
Proof.
  induction d; destruct d'; simpl; intros H;
    try discriminate; try reflexivity;
    injection H as H; f_equal; auto.
Qed.

Lemma String_inj i j : JsString.String i = JsString.String j -> i = j.
Proof.
  unfold JsString.String. intros H.
  apply of_uint_inj in H. now apply DecimalNat.Unsigned.to_uint_inj.
Qed.

Lemma String_fresh i : ~ In (JsString.String i) (map JsString.String (seq 0 i)).
Proof.
  intros H. apply in_map_iff in H. destruct H as (j & E & Hj).
  apply String_inj in E. apply in_seq in Hj. lia.
Qed.

Lemma of_uint_digits d :
  forallb JsNumber.is_digit (JsString.of_uint d) = true.
Proof. induction d; cbn [JsString.of_uint forallb]; auto. Qed.

Lemma nzhead_head d :
  match Decimal.nzhead d with Decimal.D0 _ => False | _ => True end.
Proof. induction d; cbn [Decimal.nzhead]; auto. Qed.

(** [String] writes no leading zero. *)
Lemma String_canonical n :
  exists c rest,
    JsString.String n = c :: rest /\ (N.eqb c 48 = false \/ rest = []).
Proof.
  unfold JsString.String.
  pose proof (DecimalNat.Unsigned.to_of (Nat.to_uint n)) as E.
  rewrite DecimalNat.Unsigned.of_to in E. unfold Decimal.unorm in E.
  pose proof (nzhead_head (Nat.to_uint n)) as H.
  destruct (Decimal.nzhead (Nat.to_uint n)); try contradiction;
    rewrite E; cbn [JsString.of_uint];
    eexists; eexists; (split; [reflexivity|]);
    first [now right | now left].
Qed.

Lemma digits_value_String n :
  JsNumber.digits_value 0 (JsString.String n) = Z.of_nat n.
Proof.
  pose proof (@digits_value_of_uint (Nat.to_uint n) 0%nat [] eq_refl) as H.
  rewrite app_nil_r in H. fold (JsString.String n) in H.
  change (Z.of_nat 0) with 0 in H.
  etransitivity; [exact H|]. f_equal. apply DecimalNat.Unsigned.of_to.
Qed.

(** The numerals [String] writes are array indices up to [2^32 - 2]. *)
Lemma arrayIndex_String n :
  JsObject.arrayIndex (JsString.String n)
  = if Z.of_nat n <=? 4294967294 then Some (Z.of_nat n) else None.
Proof.
  destruct (String_canonical n) as (c & rest & E & L).
  assert (D : forallb JsNumber.is_digit (JsString.String n) = true)
    by apply of_uint_digits.
  pose proof (digits_value_String n) as Dv.
  unfold JsObject.arrayIndex. rewrite E in *. rewrite D, Dv.
  assert (C : negb (N.eqb c 48)
              || match rest with [] => true | _ :: _ => false end = true).
  { destruct L as [-> | ->]; [reflexivity|apply orb_true_r]. }
  rewrite C. reflexivity.
Qed.

Lemma String_not_proto n : JsString.String n <> JsObject.proto_.
Proof.
  destruct (to_uint_digit_led n) as (c & str & E & Hc). rewrite E.
  intros [= -> _]. discriminate Hc.
Qed.

(* ================================================================== *)
(** * Dictionaries *)
(* ================================================================== *)

Section DictFacts.
Variable V : Type.
Implicit Types (o : JsObject.t V) (k : jsstring) (v : V).

(** An ordinary name is written like any other name. *)
Lemma set_ordinary o k v :
  ordinaryName k -> JsObject.set o k v = JsObject.setNamed o k v.
Proof.
  intros [N I]. unfold JsObject.set. apply eqb_neq in N.
  now rewrite N, I.
Qed.

(** A write under [__proto__] leaves the properties as they are. *)
Lemma set_proto o v : JsObject.set o JsObject.proto_ v = o.
Proof. reflexivity. Qed.

Lemma get_setNamed_same o k v :
  JsObject.get (JsObject.setNamed o k v) k = Some v.
Proof.
  induction o as [|[k' v'] o IH]; simpl.
  - now rewrite eqb_refl.
  - destruct (JsString.eqb k' k) eqn:E; simpl; now rewrite E.
Qed.

Lemma get_setIndex_same o k i v :
  JsObject.get (JsObject.setIndex o k i v) k = Some v.
Proof.
  induction o as [|[k' v'] o IH]; cbn [JsObject.setIndex JsObject.get].
  - now rewrite eqb_refl.
  - destruct (JsString.eqb k' k) eqn:E; cbn [JsObject.get].
    + now rewrite E.
    + destruct (JsObject.arrayIndex k') as [i'|];
        [destruct (i' <? i)|]; cbn [JsObject.get];
        rewrite ?E, ?eqb_refl; auto.
Qed.

Lemma get_set_same o k v :
  k <> JsObject.proto_ -> JsObject.get (JsObject.set o k v) k = Some v.
Proof.
  intros N. unfold JsObject.set. apply eqb_neq in N. rewrite N.
  destruct (JsObject.arrayIndex k);
    [apply get_setIndex_same|apply get_setNamed_same].
Qed.

Lemma get_setNamed_other o k k' v :
  k <> k' ->
  JsObject.get (JsObject.setNamed o k v) k' = JsObject.get o k'.
Proof.
  intros N. induction o as [|[k0 v0] o IH]; simpl.
  - apply eqb_neq in N. now rewrite N.
  - destruct (JsString.eqb k0 k) eqn:E; simpl.
    + apply eqb_eq in E. subst k0. apply eqb_neq in N. now rewrite N.
    + now rewrite IH.
Qed.

Lemma get_setIndex_other o k k' i v :
  k <> k' ->
  JsObject.get (JsObject.setIndex o k i v) k' = JsObject.get o k'.
Proof.
  intros N. pose proof N as Nb. apply eqb_neq in Nb.
  induction o as [|[k0 v0] o IH]; cbn [JsObject.setIndex JsObject.get].
  - now rewrite Nb.
  - destruct (JsString.eqb k0 k) eqn:E.
    + apply eqb_eq in E. subst k0. cbn [JsObject.get]. now rewrite Nb.
    + destruct (JsObject.arrayIndex k0) as [i'|];
        [destruct (i' <? i)|]; cbn [JsObject.get];
        rewrite ?Nb, ?IH; reflexivity.
Qed.

(** A write touches no other name. *)
Lemma get_set_other o k k' v :
  k <> k' -> JsObject.get (JsObject.set o k v) k' = JsObject.get o k'.
Proof.
  intros N. unfold JsObject.set.
  destruct (JsString.eqb k JsObject.proto_); [reflexivity|].
  destruct (JsObject.arrayIndex k);
    [now apply get_setIndex_other|now apply get_setNamed_other].
Qed.

Lemma keys_set o k v :
  ordinaryName k ->
  JsObject.keys (JsObject.set o k v) = addKey (JsObject.keys o) k.
Proof.
  intros Hk. rewrite set_ordinary by assumption.
  unfold addKey. induction o as [|[k0 v0] o IH]; simpl; [reflexivity|].
  destruct (JsString.eqb k0 k); simpl; [reflexivity|].
  rewrite IH. now destruct (existsb _ (JsObject.keys o)).
Qed.

Lemma setNamed_fresh o k v :
  ~ In k (JsObject.keys o) -> JsObject.setNamed o k v = o ++ [(k, v)].
Proof.
  induction o as [|[k0 v0] o IH]; simpl; intros H; [reflexivity|].
  destruct (JsString.eqb k0 k) eqn:E.
  - apply eqb_eq in E. tauto.
  - rewrite IH; tauto.
Qed.

Lemma set_fresh o k v :
  ordinaryName k ->
  ~ In k (JsObject.keys o) -> JsObject.set o k v = o ++ [(k, v)].
Proof.
  intros Hk H. rewrite set_ordinary by assumption.
  now apply setNamed_fresh.
Qed.

(** A new array index greater than all the names there are goes last. *)
Lemma setIndex_append o k i v :
  Forall (fun kv => fst kv <> k
                    /\ exists i', JsObject.arrayIndex (fst kv) = Some i'
                                  /\ i' < i) o ->
  JsObject.setIndex o k i v = o ++ [(k, v)].
Proof.
  induction 1 as [|[k0 v0] o (N & i' & E & L) _ IH];
    cbn [JsObject.setIndex app fst] in *; [reflexivity|].
  apply eqb_neq in N. rewrite N, E.
  destruct (Z.ltb_spec i' i); [|lia]. now rewrite IH.
Qed.

(** The next statement id goes last. *)
Lemma set_next_index o i v :
  JsObject.keys o = map JsString.String (seq 0 i) ->
  JsObject.set o (JsString.String i) v = o ++ [(JsString.String i, v)].
Proof.
  intros Hk. unfold JsObject.set.
  assert (P : JsString.eqb (JsString.String i) JsObject.proto_ = false)
    by (apply eqb_neq, String_not_proto).
  rewrite P, arrayIndex_String.
  destruct (Z.leb_spec (Z.of_nat i) 4294967294) as [B|B].
  - apply setIndex_append. apply Forall_forall. intros [k0 v0] I.
    assert (Ik : In k0 (JsObject.keys o))
      by (apply in_map_iff; now exists (k0, v0)).
    rewrite Hk in Ik. apply in_map_iff in Ik.
    destruct Ik as (j & <- & Hj). apply in_seq in Hj. cbn [fst]. split.
    + intros C. apply String_inj in C. lia.
    + exists (Z.of_nat j). rewrite arrayIndex_String.
      destruct (Z.leb_spec (Z.of_nat j) 4294967294); [|lia].
      split; [reflexivity|lia].
  - apply setNamed_fresh. rewrite Hk. apply String_fresh.
Qed.

Lemma in_keys_setNamed o k v k' :
  In k' (JsObject.keys (JsObject.setNamed o k v))
  <-> In k' (JsObject.keys o) \/ k' = k.
Proof.
  induction o as [|[k0 v0] o IH]; cbn [JsObject.setNamed].
  - cbn. intuition congruence.
  - destruct (JsString.eqb k0 k) eqn:E.
    + apply eqb_eq in E. subst k0. cbn. intuition congruence.
    + unfold JsObject.keys in *. cbn [map fst In]. rewrite IH. tauto.
Qed.

Lemma in_keys_setIndex o k i v k' :
  In k' (JsObject.keys (JsObject.setIndex o k i v))
  <-> In k' (JsObject.keys o) \/ k' = k.
Proof.
  induction o as [|[k0 v0] o IH]; cbn [JsObject.setIndex].
  - cbn. intuition congruence.
  - destruct (JsString.eqb k0 k) eqn:E.
    + apply eqb_eq in E. subst k0. cbn. intuition congruence.
    + destruct (JsObject.arrayIndex k0) as [i'|]; [destruct (i' <? i)|];
        unfold JsObject.keys in *; cbn [map fst In];
        rewrite ?IH; intuition congruence.
Qed.

(** The names after a write: those there were, and the name written
    unless it is [__proto__]. *)
Lemma in_keys_set o k v k' :
  In k' (JsObject.keys (JsObject.set o k v))
  <-> In k' (JsObject.keys o) \/ (k' = k /\ k <> JsObject.proto_).
Proof.
  unfold JsObject.set. destruct (JsString.eqb k JsObject.proto_) eqn:P.
  - apply eqb_eq in P. tauto.
  - apply eqb_neq in P.
    destruct (JsObject.arrayIndex k);
      [rewrite in_keys_setIndex|rewrite in_keys_setNamed]; tauto.
Qed.

Lemma get_absent o k : ~ In k (JsObject.keys o) -> JsObject.get o k = None.
Proof.
  induction o as [|[k0 v0] o IH]; simpl; intros H; [reflexivity|].
  destruct (JsString.eqb k0 k) eqn:E.
  - apply eqb_eq in E. tauto.
  - apply IH. tauto.
Qed.

Lemma get_app_absent o o' k :
  ~ In k (JsObject.keys o) -> JsObject.get (o ++ o') k = JsObject.get o' k.
Proof.
  induction o as [|[k0 v0] o IH]; simpl; intros H; [reflexivity|].
  destruct (JsString.eqb k0 k) eqn:E.
  - apply eqb_eq in E. tauto.
  - apply IH. tauto.
Qed.

(** A loop that writes one property for each element of a list. *)
Section Writes.
Variable R : Type.
Variable keyOf : R -> jsstring.
Variable valueOf : R -> V.

Lemma get_writes_other rs : forall o k,
  Forall (fun r => keyOf r <> k) rs ->
  JsObject.get (fold_left (write keyOf valueOf) rs o) k = JsObject.get o k.
Proof.
  induction rs as [|r rs IH]; intros o k H; [reflexivity|].
  inversion H; subst. simpl. rewrite IH by assumption.
  now apply get_set_other.
Qed.

(** Last write wins. *)
Lemma get_writes_last pre r post o :
  keyOf r <> JsObject.proto_ ->
  Forall (fun r' => keyOf r' <> keyOf r) post ->
  JsObject.get (fold_left (write keyOf valueOf) (pre ++ r :: post) o) (keyOf r)
  = Some (valueOf r).
Proof.
  intros N H. rewrite fold_left_app. simpl.
  rewrite get_writes_other by assumption.
  now apply get_set_same.
Qed.

(** No write stores anything under [__proto__]. *)
Lemma get_writes_proto rs : forall o,
  JsObject.get (fold_left (write keyOf valueOf) rs o) JsObject.proto_
  = JsObject.get o JsObject.proto_.
Proof.
  induction rs as [|r rs IH]; intros o; [reflexivity|].
  cbn [fold_left]. rewrite IH. unfold write.
  destruct (list_eq_dec N.eq_dec (keyOf r) JsObject.proto_) as [->|N];
    [reflexivity|now apply get_set_other].
Qed.

Lemma in_keys_writes rs : forall o k,
  In k (JsObject.keys (fold_left (write keyOf valueOf) rs o))
  <-> In k (JsObject.keys o)
      \/ (k <> JsObject.proto_ /\ In k (map keyOf rs)).
Proof.
  induction rs as [|r rs IH]; intros o k; cbn [fold_left map In].
  - tauto.
  - rewrite IH. unfold write. rewrite in_keys_set.
    split; [|intuition congruence].
    intros [[H|[-> N]]|[N H]]; auto.
Qed.

Lemma keys_writes rs : forall o,
  Forall ordinaryName (map keyOf rs) ->
  JsObject.keys (fold_left (write keyOf valueOf) rs o)
  = fold_left addKey (map keyOf rs) (JsObject.keys o).
Proof.
  induction rs as [|r rs IH]; intros o H; [reflexivity|].
  cbn [map] in H. inversion H; subst.
  simpl. rewrite IH by assumption. unfold write.
  now rewrite keys_set.
Qed.

(** With fresh, pairwise distinct ordinary keys the writes are appended
    in order. *)
Lemma writes_fresh rs : forall o,
  Forall ordinaryName (map keyOf rs) ->
  NoDup (JsObject.keys o ++ map keyOf rs) ->
  fold_left (write keyOf valueOf) rs o = o ++ map (fun r => (keyOf r, valueOf r)) rs.
Proof.
  induction rs as [|r rs IH]; intros o Ho H; simpl.
  - now rewrite app_nil_r.
  - cbn [map] in Ho. inversion Ho; subst.
    assert (Hr : ~ In (keyOf r) (JsObject.keys o)).
    { simpl in H. apply NoDup_remove_2 in H.
      intros C. apply H. apply in_or_app. now left. }
    unfold write at 2. rewrite set_fresh by assumption.
    rewrite IH.
    + now rewrite <- app_assoc.
    + assumption.
    + unfold JsObject.keys in *. rewrite map_app. simpl.
      rewrite <- app_assoc. exact H.
Qed.
End Writes.
End DictFacts.

(* ================================================================== *)
(** * Claims about the loaders *)
(* ================================================================== *)

(** C4. When the read fails, the summary loader reports the failure
    through [setFailed] and throws the same value again, returning no
    summary, whereas the final-map loader logs one warning, throws
    nothing and returns the empty report. *)
Theorem C4_loaders_diverge_on_failure :
  forall (cwd : jsstring) (resolve : jsstring -> jsstring -> jsstring)
         (readFile : jsstring -> Thrown + jsstring)
         (lcovPath : jsstring) (err : Thrown),
    readFile (resolve cwd lcovPath) = inl err ->
    parseBunLcovSummary cwd resolve readFile lcovPath
    = ([setFailed lcovPath (stackOf err)], inl err)
    /\ parseBunLcovFinal cwd resolve readFile lcovPath
       = ([warning lcovPath (stackOf err)], inr JsObject.empty).
Proof.
  intros cwd resolve readFile lcovPath err H.
  unfold parseBunLcovSummary, parseBunLcovFinal, awaitReadFile.
  unfold tryCatch, bind. rewrite H. split; reflexivity.
Qed.

(** When the read succeeds nothing is logged and nothing is thrown. *)
Lemma loaders_on_success cwd resolve readFile lcovPath lcovContent :
  readFile (resolve cwd lcovPath) = inr lcovContent ->
  parseBunLcovSummary cwd resolve readFile lcovPath
  = ([], inr (lcovToJsonSummary (parseLcovData lcovContent)))
  /\ parseBunLcovFinal cwd resolve readFile lcovPath
     = ([], inr (lcovToJsonFinal (parseLcovData lcovContent))).
Proof.
  intros H.
  unfold parseBunLcovSummary, parseBunLcovFinal, awaitReadFile.
  unfold tryCatch, bind. rewrite H. split; reflexivity.
Qed.

(* ================================================================== *)
(** * Statement ids *)
(* ================================================================== *)

Lemma keys_idMap {A V} (f : A -> V) xs : forall i,
  JsObject.keys (idMap f i xs)
  = map JsString.String (seq i (List.length xs)).
Proof.
  induction xs as [|x xs IH]; intros i; [reflexivity|].
  unfold idMap, indexed, JsObject.keys in *. simpl. f_equal. apply IH.
Qed.

Lemma get_idMap {A V} (f : A -> V) xs : forall i j x,
  nth_error xs j = Some x ->
  JsObject.get (idMap f i xs) (JsString.String (i + j)) = Some (f x).
Proof.
  induction xs as [|x0 xs IH]; intros i j x H.
  - destruct j; discriminate.
  - unfold idMap, indexed in *. simpl. destruct j as [|j]; simpl in H.
    + injection H as ->. rewrite Nat.add_0_r. now rewrite eqb_refl.
    + assert (N : JsString.eqb (JsString.String i)
                    (JsString.String (i + Datatypes.S j)) = false).
      { apply eqb_neq. intros C. apply String_inj in C. lia. }
      rewrite N. rewrite <- Nat.add_succ_comm. now apply IH.
Qed.

(** The two dictionaries [record.lines.forEach] fills. *)
Lemma forEach_addStatement xs : forall i m c,
  JsObject.keys m = map JsString.String (seq 0 i) ->
  JsObject.keys c = map JsString.String (seq 0 i) ->
  forEach addStatement xs i (m, c)
  = (m ++ idMap lineRange i xs, c ++ idMap hit i xs).
Proof.
  induction xs as [|x xs IH]; intros i m c Hm Hc; simpl.
  - now rewrite !app_nil_r.
  - unfold addStatement at 2. cbn [fst snd].
    rewrite (@set_next_index _ m i _ Hm), (@set_next_index _ c i _ Hc).
    rewrite IH.
    + unfold idMap, indexed. simpl. now rewrite <- !app_assoc.
    + unfold JsObject.keys in *. rewrite map_app, Hm, seq_S, map_app.
      reflexivity.
    + unfold JsObject.keys in *. rewrite map_app, Hc, seq_S, map_app.
      reflexivity.
Qed.

Lemma fileReport_maps record :
  statementMap (fileReport record) = idMap lineRange 0 (lines record)
  /\ s (fileReport record) = idMap hit 0 (lines record).
Proof.
  unfold fileReport. rewrite forEach_addStatement by reflexivity.
  split; reflexivity.
Qed.

(* ================================================================== *)
(** * Claims about the final-map builder *)
(* ================================================================== *)

(** A record named [__proto__] gets no entry: the assignment replaces
    the prototype of the report and stores nothing, so the report of the
    sample is the empty object. *)
Lemma C6_counterexample :
  let records := parseLcovData protoNamedText in
  map sourceFile records = [JsObject.proto_]
  /\ lcovToJsonFinal records = JsObject.empty
  /\ JsObject.get (lcovToJsonFinal records) JsObject.proto_ = None.
Proof.
  vm_compute. repeat split; reflexivity.
Qed.

(** C6, amended. Once the builder has processed a record whose
    [sourceFile] is not [__proto__], the report holds under the record's
    [sourceFile] an entry whose [path] is that [sourceFile], whose [all]
    is [false], and whose [statementMap] and [s] have exactly the keys
    ["0"], ["1"], ... up to the number of the record's lines; the id of
    index [i] maps to the range from column 0 to column 100 of the LCOV
    line number of the [i]-th line entry, and to its hit count. The
    entry is still there in the final report unless a later record of the
    same [sourceFile] replaces it. *)
Theorem C6_final_map_entry :
  forall (pre : list LcovRecord) (record : LcovRecord),
  sourceFile record <> JsObject.proto_ ->
  exists entry : FileCoverageReport,
    JsObject.get (lcovToJsonFinal (pre ++ [record])) (sourceFile record)
    = Some entry
    /\ (forall post,
          Forall (fun r' => sourceFile r' <> sourceFile record) post ->
          JsObject.get (lcovToJsonFinal (pre ++ record :: post))
            (sourceFile record) = Some entry)
    /\ path entry = sourceFile record
    /\ all entry = false
    /\ JsObject.keys (statementMap entry)
       = map JsString.String (seq 0 (List.length (lines record)))
    /\ JsObject.keys (s entry)
       = map JsString.String (seq 0 (List.length (lines record)))
    /\ (forall index l,
          nth_error (lines record) index = Some l ->
          JsObject.get (statementMap entry) (JsString.String index)
          = Some {| start := {| p_line := line l;
                                column := JsNumber.of_Z 0 |};
                    end_ := {| p_line := line l;
                               column := JsNumber.of_Z 100 |} |}
          /\ JsObject.get (s entry) (JsString.String index) = Some (hit l)).
Proof.
  intros pre record Named. exists (fileReport record).
  destruct (fileReport_maps record) as [Em Es].
  repeat match goal with |- _ /\ _ => split end.
  - apply (@get_writes_last _ _ sourceFile fileReport pre record [] []);
      [exact Named|constructor].
  - intros post H.
    now apply (@get_writes_last _ _ sourceFile fileReport pre record post []).
  - reflexivity.
  - reflexivity.
  - rewrite Em. apply keys_idMap.
  - rewrite Es. apply keys_idMap.
  - intros index l H. split.
    + rewrite Em. now apply (get_idMap lineRange (lines record) 0 index).
    + rewrite Es. now apply (get_idMap hit (lines record) 0 index).
Qed.

(* ================================================================== *)
(** * Claims about the summary builder *)
(* ================================================================== *)

Lemma writes_keep_head {V R} (keyOf : R -> jsstring) (valueOf : R -> V) rs :
  Forall ordinaryName (map keyOf rs) ->
  forall k v o, exists v' o',
    fold_left (write keyOf valueOf) rs ((k, v) :: o) = (k, v') :: o'.
Proof.
  induction rs as [|r rs IH]; intros H k v o; simpl.
  - now exists v, o.
  - cbn [map] in H. inversion H; subst.
    unfold write at 2. rewrite set_ordinary by assumption.
    simpl. destruct (JsString.eqb k (keyOf r)); now apply IH.
Qed.

(** Records named otherwise leave the ["total"] entry alone. *)
Lemma summary_total_entry records :
  Forall (fun r => sourceFile r <> total_) records ->
  JsObject.get (lcovToJsonSummary records) total_
  = Some (lcovToCoverageReport records).
Proof.
  intros H. unfold lcovToJsonSummary.
  change (fold_left addFileCoverage records)
    with (fold_left
            (write sourceFile (fun r => lcovToCoverageReport [r])) records).
  rewrite get_writes_other by assumption.
  cbn [JsObject.get]. now rewrite eqb_refl.
Qed.

(** C7, amended. The summary has an entry under ["total"] and under
    every [sourceFile] but [__proto__], and under no other name. When no
    [sourceFile] is [__proto__] or an array index, the summary lists its
    entries in the order they were written: ["total"] first, then the
    paths in parse order, a path written again keeping its place; and
    when the paths are moreover pairwise distinct and none is ["total"],
    the summary is the total entry followed by one entry for each
    record, in parse order. A record that no later record
    shares its [sourceFile] with, and that is not named [__proto__], has
    its own bundle stored under that key, whatever earlier records were
    stored there. When no record is named ["total"], the ["total"] entry
    is the aggregate of all the records, those that share a path
    included. *)
Theorem C7_summary_entries :
  forall records : list LcovRecord,
    (forall k,
        In k (JsObject.keys (lcovToJsonSummary records))
        <-> k = total_
            \/ (k <> JsObject.proto_ /\ In k (map sourceFile records)))
    /\ (Forall ordinaryName (map sourceFile records) ->
        (exists bundle rest,
            lcovToJsonSummary records = (total_, bundle) :: rest)
        /\ JsObject.keys (lcovToJsonSummary records)
           = fold_left addKey (map sourceFile records) [total_]
        /\ (NoDup (total_ :: map sourceFile records) ->
            lcovToJsonSummary records
            = (total_, lcovToCoverageReport records)
              :: map (fun r => (sourceFile r, lcovToCoverageReport [r]))
                   records))
    /\ (forall pre r post,
          records = pre ++ r :: post ->
          Forall (fun r' => sourceFile r' <> sourceFile r) post ->
          sourceFile r <> JsObject.proto_ ->
          JsObject.get (lcovToJsonSummary records) (sourceFile r)
          = Some (lcovToCoverageReport [r]))
    /\ (Forall (fun r => sourceFile r <> total_) records ->
        JsObject.get (lcovToJsonSummary records) total_
        = Some (lcovToCoverageReport records)).
Proof.
  intros records. unfold lcovToJsonSummary.
  change (fold_left addFileCoverage records)
    with (fold_left
            (write sourceFile (fun r => lcovToCoverageReport [r])) records).
  split; [|split; [|split]].
  - intros k. rewrite in_keys_writes. cbn. intuition congruence.
  - intros Ord. split; [|split].
    + now apply writes_keep_head.
    + now rewrite keys_writes.
    + intros H. now rewrite writes_fresh.
  - intros pre r post -> H Named. now apply get_writes_last.
  - intros H. fold (lcovToJsonSummary records).
    now apply summary_total_entry.
Qed.

(* ================================================================== *)
(** * Binary64 arithmetic *)
(* ================================================================== *)

Module Binary64.

Import JsNumber.
(** ** Digits *)

Lemma digits2_size p : digits2_pos p = Pos.size p.
Proof. induction p; simpl; congruence. Qed.

Lemma digits_bounds p :
  2 ^ (Z.pos (digits2_pos p) - 1) <= Z.pos p < 2 ^ Z.pos (digits2_pos p).
Proof.
  rewrite digits2_size. split.
  - pose proof (Pos.size_le p) as H.
    apply Pos2Z.pos_le_pos in H. rewrite Pos2Z.inj_pow in H.
    change (Z.pos p~0) with (2 * Z.pos p) in H.
    replace (Z.pos (Pos.size p)) with (Z.succ (Z.pos (Pos.size p) - 1)) in H by lia.
    rewrite Z.pow_succ_r in H by lia. lia.
  - pose proof (Pos.size_gt p) as H.
    apply Pos2Z.pos_lt_pos in H. now rewrite Pos2Z.inj_pow in H.
Qed.

Lemma Zdigits2_bounds m :
  0 < m -> 2 ^ (Zdigits2 m - 1) <= m < 2 ^ Zdigits2 m.
Proof. destruct m; try lia. intros _. apply digits_bounds. Qed.

Lemma Zdigits2_pos m : 0 < m -> 0 < Zdigits2 m.
Proof. destruct m; simpl; lia. Qed.

Lemma Zdigits2_unique m d :
  2 ^ (d - 1) <= m < 2 ^ d -> 0 < m -> Zdigits2 m = d.
Proof.
  intros [L U] Hm.
  pose proof (Zdigits2_bounds Hm) as [L' U'].
  pose proof (Zdigits2_pos Hm) as P.
  assert (0 < d).
  { destruct d; [simpl in U; lia|lia|simpl in U; lia]. }
  destruct (Z.lt_trichotomy (Zdigits2 m) d) as [C|[C|C]]; [|assumption|].
  - assert (2 ^ Zdigits2 m <= 2 ^ (d - 1)) by (apply Z.pow_le_mono_r; lia). lia.
  - assert (2 ^ d <= 2 ^ (Zdigits2 m - 1)) by (apply Z.pow_le_mono_r; lia). lia.
Qed.

(** ** Shifting a mantissa *)

Lemma shr_1_spec mrs :
  0 <= shr_m mrs ->
  shr_1 mrs = Build_shr_record (shr_m mrs / 2) (Z.odd (shr_m mrs))
                (shr_r mrs || shr_s mrs).
Proof.
  destruct mrs as [m r s]. simpl. intros Hm.
  rewrite <- Z.div2_div.
  destruct m as [|[p|p|]|p]; try lia; reflexivity.
Qed.

Lemma locates_shr_1 N D mrs :
  0 <= N -> 0 < D -> locates N D mrs -> locates N (2 * D) (shr_1 mrs).
Proof.
  intros HN HD (Hm & Hr & Hs).
  assert (0 <= N / D) by (apply Z.div_pos; lia).
  rewrite shr_1_spec by lia. unfold locates. cbn [shr_m shr_r shr_s].
  pose proof (Z.mod_pos_bound N D HD) as B.
  pose proof (Z.div_mod N D ltac:(lia)) as E.
  set (q := N / D) in *. set (rho := N mod D) in *.
  pose proof (Z.mod_pos_bound q 2 ltac:(lia)) as B2.
  pose proof (Z.div_mod q 2 ltac:(lia)) as E2.
  assert (Eq : N / (2 * D) = q / 2).
  { rewrite (Z.mul_comm 2 D), <- Z.div_div by lia. reflexivity. }
  assert (Em : N mod (2 * D) = (q mod 2) * D + rho).
  { symmetry. apply Z.mod_unique with (q / 2); [nia|]. rewrite <- Eq. nia. }
  rewrite Hm, Hr, Hs, Eq, Em. repeat split.
  - rewrite Zodd_mod.
    destruct (Z.eqb_spec (q mod 2) 1) as [C|C];
      destruct (Z.leb_spec (2 * D) (2 * (q mod 2 * D + rho))); auto; nia.
  - assert (R : (2 * (q mod 2 * D + rho)) mod (2 * D) = 0 <-> rho = 0).
    { split.
      - intros Z0. apply Z.mod_divide in Z0; [|lia].
        destruct Z0 as [k Hk].
        assert (Hk' : rho = (k - q mod 2) * D) by lia.
        assert (k - q mod 2 = 0) by nia. nia.
      - intros ->. rewrite Z.add_0_r.
        replace (2 * (q mod 2 * D)) with ((q mod 2) * (2 * D)) by ring.
        apply Z.mod_mul. lia. }
    assert (R' : (2 * rho) mod D = 0 <-> (rho = 0 \/ 2 * rho = D)).
    { split.
      - intros Z0. apply Z.mod_divide in Z0; [|lia].
        destruct Z0 as [k Hk].
        assert (k = 0 \/ k = 1) as [->| ->] by nia; lia.
      - intros [->| ->]; [reflexivity|]. apply Z.mod_same. lia. }
    apply eq_iff_eq_true.
    rewrite orb_true_iff, !negb_true_iff, Z.leb_le, !Z.eqb_neq, R, R'. lia.
Qed.

Lemma locates_iter p : forall N D mrs,
  0 <= N -> 0 < D -> locates N D mrs ->
  locates N (D * 2 ^ Z.pos p) (SpecFloat.iter_pos shr_1 p mrs).
Proof.
  induction p as [p IH|p IH|]; intros N D mrs HN HD H;
    simpl SpecFloat.iter_pos;
    try pose proof (Z.pow_pos_nonneg 2 (Z.pos p) ltac:(lia) ltac:(lia)) as P.
  - apply locates_shr_1 in H; try lia.
    apply IH in H; try lia. apply IH in H; try nia.
    replace (D * 2 ^ Z.pos p~1) with (2 * D * 2 ^ Z.pos p * 2 ^ Z.pos p);
      [assumption|].
    replace (Z.pos p~1) with (Z.pos p + Z.pos p + 1) by lia.
    rewrite !Z.pow_add_r, Z.pow_1_r by lia. ring.
  - apply IH in H; try lia. apply IH in H; try nia.
    replace (D * 2 ^ Z.pos p~0) with (D * 2 ^ Z.pos p * 2 ^ Z.pos p);
      [assumption|].
    replace (Z.pos p~0) with (Z.pos p + Z.pos p) by lia.
    rewrite !Z.pow_add_r by lia. ring.
  - apply locates_shr_1 in H; try lia.
    now replace (D * 2 ^ 1) with (2 * D) by ring.
Qed.

(** ** Rounding *)

Lemma fexp64_eq e : fexp64 e = Z.max (e - 53) (-1074).
Proof. reflexivity. Qed.

Lemma locates_exact m : locates m 1 (shr_record_of_loc m loc_Exact).
Proof.
  unfold locates. simpl. rewrite Z.div_1_r, Z.mod_1_r. repeat split.
Qed.

Lemma shr_fexp_locates N D m e l :
  0 <= N -> 0 < D ->
  locates N D (shr_record_of_loc m l) ->
  exists mrs,
    shr_fexp prec emax m e l = (mrs, e + shift m e)
    /\ locates N (D * 2 ^ shift m e) mrs.
Proof.
  intros HN HD H. unfold shr_fexp, shr, shift. fold (fexp64 (Zdigits2 m + e)).
  destruct (fexp64 (Zdigits2 m + e) - e) as [|p|p] eqn:E.
  - eexists. split; [now rewrite Z.add_0_r|]. simpl. now rewrite Z.mul_1_r.
  - eexists. split; [reflexivity|].
    rewrite Z.max_l by lia. now apply locates_iter.
  - eexists. split; [now rewrite Z.max_r, Z.add_0_r by lia|].
    rewrite Z.max_r by lia. simpl. now rewrite Z.mul_1_r.
Qed.

Lemma round_nearest_even_locates N D mrs :
  0 <= N -> 0 < D -> locates N D mrs ->
  let mr := round_nearest_even (shr_m mrs) (loc_of_shr_record mrs) in
  N / D <= mr <= N / D + 1
  /\ 2 * Z.abs (mr * D - N) <= D
  /\ (N mod D = 0 -> mr = N / D).
Proof.
  intros HN HD. destruct mrs as [m r s]. unfold locates.
  cbn [shr_m shr_r shr_s loc_of_shr_record]. intros (Hm & Hr & Hs).
  pose proof (Z.mod_pos_bound N D HD) as B.
  pose proof (Z.div_mod N D ltac:(lia)) as E.
  subst m. set (q := N / D) in *. set (rho := N mod D) in *.
  assert (R' : (2 * rho) mod D = 0 <-> (rho = 0 \/ 2 * rho = D)).
  { split.
    - intros Z0. apply Z.mod_divide in Z0; [|lia].
      destruct Z0 as [k Hk].
      assert (k = 0 \/ k = 1) as [->| ->] by nia; lia.
    - intros [->| ->]; [reflexivity|]. apply Z.mod_same. lia. }
  destruct (Z.leb_spec D (2 * rho)) as [L|L];
    destruct (Z.eqb_spec ((2 * rho) mod D) 0) as [C|C];
    subst r s; cbn [negb round_nearest_even];
    try destruct (Z.even q); repeat split; try nia.
  all: try (intros Z0; apply R' in C; lia).
  all: try (intros Z0; exfalso; apply C; apply R'; lia).
Qed.


(** The two steps of [binary_round_aux]: shift, round to nearest even,
    shift again if the rounding carried. *)
Lemma binary_round_aux_steps N D sx mx ex lx :
  0 <= N -> 0 < D ->
  locates N D (shr_record_of_loc mx lx) ->
  let n1 := shift mx ex in
  let D1 := D * 2 ^ n1 in
  exists mr,
    N / D1 <= mr <= N / D1 + 1
    /\ 2 * Z.abs (mr * D1 - N) <= D1
    /\ (N mod D1 = 0 -> mr = N / D1)
    /\ binary_round_aux prec emax sx mx ex lx
       = match mr / 2 ^ shift mr (ex + n1) with
         | 0 => S754_zero sx
         | Z.pos m =>
             if ex + n1 + shift mr (ex + n1) <=? 971
             then S754_finite sx m (ex + n1 + shift mr (ex + n1))
             else S754_infinity sx
         | Z.neg _ => S754_nan
         end.
Proof.
  intros HN HD H n1 D1.
  destruct (@shr_fexp_locates N D mx ex lx HN HD H) as (mrs & E1 & L1).
  fold n1 in E1, L1. fold D1 in L1.
  assert (HD1 : 0 < D1).
  { unfold D1. pose proof (Z.pow_pos_nonneg 2 n1 ltac:(lia)).
    assert (0 <= n1) by (unfold n1, shift; lia). nia. }
  pose proof (@round_nearest_even_locates N D1 mrs HN HD1 L1) as (B & A & X).
  set (mr := round_nearest_even (shr_m mrs) (loc_of_shr_record mrs)) in *.
  exists mr. repeat split; try tauto.
  assert (0 <= mr) by (pose proof (Z.div_pos N D1 HN HD1); lia).
  destruct (@shr_fexp_locates mr 1 mr (ex + n1) loc_Exact
              ltac:(lia) ltac:(lia) (locates_exact mr)) as (mrs2 & E2 & L2).
  unfold binary_round_aux. rewrite E1. fold mr. rewrite E2.
  destruct L2 as (-> & _). rewrite Z.mul_1_l. reflexivity.
Qed.

Lemma shifted_bounds m :
  0 < m -> 53 <= Zdigits2 m ->
  2 ^ 52 <= m / 2 ^ (Zdigits2 m - 53) < 2 ^ 53.
Proof.
  intros Hm Hd. pose proof (Zdigits2_bounds Hm) as [L U].
  set (n := Zdigits2 m - 53) in *.
  assert (P : 0 < 2 ^ n) by (apply Z.pow_pos_nonneg; lia).
  replace (Zdigits2 m - 1) with (52 + n) in L by lia.
  replace (Zdigits2 m) with (53 + n) in U by lia.
  rewrite Z.pow_add_r in L, U by lia. split.
  - apply Z.div_le_lower_bound; lia.
  - apply Z.div_lt_upper_bound; lia.
Qed.

Lemma shifted_pos m e :
  0 < m -> -1074 <= e -> 0 < m / 2 ^ shift m e.
Proof.
  intros Hm He. unfold shift. rewrite fexp64_eq.
  set (x := Z.max (Zdigits2 m + e - 53) (-1074) - e).
  destruct (Z.le_gt_cases x 0) as [C|C].
  - rewrite Z.max_r by lia. now rewrite Z.pow_0_r, Z.div_1_r.
  - rewrite Z.max_l by lia.
    replace x with (Zdigits2 m - 53) by (unfold x in *; lia).
    pose proof (@shifted_bounds m Hm ltac:(unfold x in *; lia)). lia.
Qed.


(** Rounding a positive mantissa whose exponent is not below the least
    one never gives a zero, and never an exponent below the least one. *)
Lemma binary_round_aux_exact_nonzero sx mx ex :
  0 < mx -> -1074 <= ex ->
  match binary_round_aux prec emax sx mx ex loc_Exact with
  | S754_zero _ => False
  | S754_finite sy _ e => sy = sx /\ -1074 <= e
  | S754_infinity sy => sy = sx
  | S754_nan => False
  end.
Proof.
  intros Hm He.
  destruct (@binary_round_aux_steps mx 1 sx mx ex loc_Exact
              ltac:(lia) ltac:(lia) (locates_exact mx))
    as (mr & B & _ & _ & ->).
  rewrite Z.mul_1_l in B.
  pose proof (@shifted_pos mx ex Hm He) as P1.
  assert (Hmr : 0 < mr) by lia.
  assert (He1 : -1074 <= ex + shift mx ex) by (unfold shift; lia).
  pose proof (@shifted_pos mr _ Hmr He1) as P2.
  destruct (mr / 2 ^ shift mr (ex + shift mx ex)); try lia.
  destruct (_ <=? 971); [|reflexivity].
  split; [reflexivity|]. unfold shift at 2. lia.
Qed.

Lemma shift_normal m e :
  53 <= Zdigits2 m -> -1074 <= e + Zdigits2 m - 53 ->
  shift m e = Zdigits2 m - 53.
Proof. intros. unfold shift. rewrite fexp64_eq. lia. Qed.

(** Rounding in the normal range: the result is finite, its mantissa has
    53 bits, and it lies within half a unit in the last place of the
    located value. *)
Lemma binary_round_aux_normal N D sx mx ex lx :
  0 <= N -> 0 < D ->
  locates N D (shr_record_of_loc mx lx) ->
  0 < mx -> 53 <= Zdigits2 mx ->
  -1074 <= ex + Zdigits2 mx - 53 -> ex + Zdigits2 mx - 53 < 971 ->
  let n := Zdigits2 mx - 53 in
  let D1 := D * 2 ^ n in
  exists m k,
    binary_round_aux prec emax sx mx ex lx = S754_finite sx m (ex + n + k)
    /\ 2 ^ 52 <= Z.pos m < 2 ^ 53
    /\ (k = 0 \/ k = 1)
    /\ 2 ^ 52 <= N / D1
    /\ 2 * Z.abs (Z.pos m * 2 ^ k * D1 - N) <= D1
    /\ (N mod D1 = 0 -> Z.pos m * 2 ^ k = N / D1).
Proof.
  intros HN HD H Hm Hd Hlo Hhi n D1.
  destruct (@binary_round_aux_steps N D sx mx ex lx HN HD H)
    as (mr & B & A & X & ->).
  rewrite (@shift_normal mx ex Hd Hlo) in *. fold n in B, A, X |- *. fold D1 in B, A, X.
  assert (Hq : N / D1 = mx / 2 ^ n).
  { unfold D1. rewrite <- Z.div_div by (try apply Z.pow_pos_nonneg; lia).
    destruct H as (H & _). destruct lx as [|[]]; simpl in H; now rewrite <- H. }
  pose proof (@shifted_bounds mx Hm Hd) as S. fold n in S. rewrite <- Hq in S.
  destruct (Z.eq_dec mr (2 ^ 53)) as [C|C].
  - subst mr.
    assert (Es : shift (2 ^ 53) (ex + n) = 1).
    { unfold shift. rewrite fexp64_eq.
      change (Zdigits2 (2 ^ 53)) with 54. lia. }
    rewrite Es. change (2 ^ 53 / 2 ^ 1) with (Z.pos (2 ^ 52)).
    destruct (Z.leb_spec (ex + n + 1) 971); [|lia].
    exists (2 ^ 52)%positive, 1.
    change (Z.pos (2 ^ 52) * 2 ^ 1) with (2 ^ 53).
    repeat split; try lia; auto.
  - assert (Ed : Zdigits2 mr = 53) by (apply Zdigits2_unique; lia).
    assert (Es : shift mr (ex + n) = 0).
    { unfold shift. rewrite fexp64_eq, Ed. lia. }
    rewrite Es, Z.pow_0_r, Z.div_1_r, Z.add_0_r.
    destruct mr as [|m|m]; try lia.
    destruct (Z.leb_spec (ex + n) 971); [|lia].
    exists m, 0. rewrite Z.add_0_r, Z.pow_0_r, Z.mul_1_r.
    repeat split; try lia; auto.
Qed.

(** ** Integers as numbers *)

Lemma iter_xO p k : Z.pos (Pos.iter xO p k) = Z.pos p * 2 ^ Z.pos k.
Proof.
  induction k as [|k IH] using Pos.peano_ind.
  - simpl. lia.
  - rewrite Pos.iter_succ, Pos2Z.inj_succ, Z.pow_succ_r by lia.
    rewrite Pos2Z.inj_xO, IH. ring.
Qed.

Lemma Zdigits2_shift m k :
  0 < m -> 0 <= k -> Zdigits2 (m * 2 ^ k) = Zdigits2 m + k.
Proof.
  intros Hm Hk. pose proof (Zdigits2_bounds Hm) as [L U].
  pose proof (Zdigits2_pos Hm) as P.
  assert (0 < 2 ^ k) by (apply Z.pow_pos_nonneg; lia).
  apply Zdigits2_unique; [|nia].
  replace (Zdigits2 m + k - 1) with (Zdigits2 m - 1 + k) by lia.
  rewrite !Z.pow_add_r by lia. nia.
Qed.

(** A mantissa of at most 53 bits is normalized without rounding. *)
Lemma binary_round_exact sx p e :
  Zdigits2 (Z.pos p) <= 53 ->
  -1074 <= Zdigits2 (Z.pos p) + e - 53 < 971 ->
  binary_round prec emax sx p e
  = S754_finite sx (Z.to_pos (Z.pos p * 2 ^ (53 - Zdigits2 (Z.pos p))))
      (Zdigits2 (Z.pos p) + e - 53).
Proof.
  intros Hd He. set (d := Zdigits2 (Z.pos p)) in *.
  assert (Hp : 0 < Z.pos p) by lia.
  unfold binary_round, shl_align.
  change (fexp prec emax (Z.pos (digits2_pos p) + e)) with (fexp64 (d + e)).
  rewrite fexp64_eq. rewrite Z.max_l by lia.
  assert (Hround : forall mz, Z.pos mz = Z.pos p * 2 ^ (53 - d) ->
    binary_round_aux prec emax sx (Z.pos mz) (d + e - 53) loc_Exact
    = S754_finite sx mz (d + e - 53)).
  { intros mz Hmz.
    assert (Dz : Zdigits2 (Z.pos mz) = 53).
    { rewrite Hmz, Zdigits2_shift by lia. fold d. lia. }
    destruct (@binary_round_aux_normal (Z.pos mz) 1 sx (Z.pos mz) (d + e - 53)
                loc_Exact ltac:(lia) ltac:(lia) (locates_exact _)
                ltac:(lia) ltac:(lia) ltac:(lia) ltac:(lia))
      as (m & k & -> & Bm & Hk & _ & _ & X).
    rewrite Dz in *. change (53 - 53) with 0 in *.
    rewrite Z.pow_0_r, Z.mul_1_r, Z.div_1_r, Z.mod_1_r in X.
    specialize (X eq_refl).
    pose proof (Zdigits2_bounds (m := Z.pos mz) ltac:(lia)) as [_ U].
    rewrite Dz in U.
    destruct Hk as [-> | ->].
    - rewrite Z.pow_0_r, Z.mul_1_r in X. injection X as ->.
      now rewrite !Z.add_0_r.
    - rewrite Z.pow_1_r in X. lia. }
  destruct (d + e - 53 - e) as [|k|k] eqn:E.
  - replace e with (d + e - 53) at 1 by lia.
    replace (53 - d) with 0 by lia. rewrite Z.pow_0_r, Z.mul_1_r.
    rewrite Pos2Z.id. apply Hround.
    replace (53 - d) with 0 by lia. lia.
  - lia.
  - assert (Ek : 53 - d = Z.pos k) by lia.
    rewrite Hround.
    + f_equal. rewrite Ek, <- iter_xO. now rewrite Pos2Z.id.
    + rewrite iter_xO. now rewrite Ek.
Qed.

Lemma of_Z_pos z :
  0 < z < 2 ^ 53 ->
  of_Z z = S754_finite false (Z.to_pos (z * 2 ^ (53 - Zdigits2 z)))
             (Zdigits2 z - 53).
Proof.
  intros [L U]. destruct z as [|p|p]; try lia.
  unfold of_Z, binary_normalize.
  assert (D : Zdigits2 (Z.pos p) <= 53).
  { pose proof (Zdigits2_bounds (m := Z.pos p) ltac:(lia)) as [B _].
    destruct (Z.le_gt_cases (Zdigits2 (Z.pos p)) 53); [assumption|].
    assert (2 ^ 53 <= 2 ^ (Zdigits2 (Z.pos p) - 1))
      by (apply Z.pow_le_mono_r; lia). lia. }
  pose proof (Zdigits2_pos (m := Z.pos p) ltac:(lia)).
  rewrite binary_round_exact by lia.
  now rewrite Z.add_0_r.
Qed.

(** ** Real values and rounding errors *)

Local Open Scope R_scope.

Lemma IZR_pow2 n : (0 <= n)%Z -> IZR (2 ^ n) = powerRZ 2 n.
Proof.
  destruct n as [|p|p]; intros H; [reflexivity| |lia].
  change (2 ^ Z.pos p)%Z with (Z.pow_pos 2 p).
  apply Zpower_pos_powerRZ.
Qed.

Lemma powerRZ2_pos e : 0 < powerRZ 2 e.
Proof. apply powerRZ_lt. lra. Qed.

Lemma powerRZ2_add a b : powerRZ 2 (a + b) = powerRZ 2 a * powerRZ 2 b.
Proof. apply powerRZ_add. lra. Qed.

(** Half a unit in the last place is a relative error of at most [u53]. *)
Lemma rel_error (mk N D P : Z) (S : R) :
  (0 < D)%Z -> (0 < P)%Z ->
  (2 * Z.abs (mk * (D * P) - N) <= D * P)%Z ->
  (2 ^ 52 <= N / (D * P))%Z ->
  0 < S ->
  Rabs (IZR mk * IZR P * S - IZR N / IZR D * S)
  <= u53 * (IZR N / IZR D * S).
Proof.
  intros HD HP HA HL HS.
  assert (HDP : (0 < D * P)%Z) by nia.
  assert (HN : (2 ^ 52 * (D * P) <= N)%Z).
  { pose proof (Z.mul_div_le N (D * P) HDP). nia. }
  assert (A1 : (- (D * P) <= 2 * (mk * (D * P) - N))%Z) by lia.
  assert (A2 : (2 * (mk * (D * P) - N) <= D * P)%Z) by lia.
  apply IZR_le in HN, A1, A2. apply IZR_lt in HD, HP.
  rewrite ?opp_IZR, ?mult_IZR, ?minus_IZR, ?mult_IZR in *.
  set (a := IZR mk) in *. set (p := IZR P) in *.
  set (n := IZR N) in *. set (d := IZR D) in *.
  change (IZR (2 ^ 52)) with 4503599627370496 in HN.
  unfold u53. change (IZR (2 ^ 53)) with 9007199254740992.
  assert (Hq : n = (n / d) * d) by (field; lra).
  set (q := n / d) in *.
  assert (B1 : - p <= 2 * (a * p - q)).
  { apply Rmult_le_reg_r with d; [lra|]. rewrite Hq in A1. nra. }
  assert (B2 : 2 * (a * p - q) <= p).
  { apply Rmult_le_reg_r with d; [lra|]. rewrite Hq in A2. nra. }
  assert (B3 : 4503599627370496 * p <= q).
  { apply Rmult_le_reg_r with d; [lra|]. rewrite Hq in HN. nra. }
  replace (a * p * S - q * S) with ((a * p - q) * S) by ring.
  apply Rabs_le. split.
  - replace (- (/ 9007199254740992 * (q * S)))
      with ((- (/ 9007199254740992 * q)) * S) by ring.
    apply Rmult_le_compat_r; lra.
  - replace (/ 9007199254740992 * (q * S))
      with ((/ 9007199254740992 * q) * S) by ring.
    apply Rmult_le_compat_r; lra.
Qed.

Local Open Scope Z_scope.

Lemma Zdigits2_range m a b :
  0 <= a -> 2 ^ a <= m < 2 ^ b -> a < Zdigits2 m <= b.
Proof.
  intros Ha [L U].
  assert (Hm : 0 < m) by (pose proof (Z.pow_pos_nonneg 2 a); lia).
  pose proof (Zdigits2_bounds Hm) as [L' U'].
  pose proof (Zdigits2_pos Hm). split.
  - destruct (Z.lt_ge_cases a (Zdigits2 m)); [assumption|].
    assert (2 ^ Zdigits2 m <= 2 ^ a) by (apply Z.pow_le_mono_r; lia). lia.
  - destruct (Z.le_gt_cases (Zdigits2 m) b); [assumption|].
    assert (2 ^ b <= 2 ^ (Zdigits2 m - 1)) by (apply Z.pow_le_mono_r; lia).
    lia.
Qed.

(** The product of two normal numbers, away from the ends of the range. *)
Lemma mul_normal mx ex my ey :
  2 ^ 52 <= Z.pos mx < 2 ^ 53 ->
  2 ^ 52 <= Z.pos my < 2 ^ 53 ->
  -1074 <= ex + ey + 52 -> ex + ey + 53 < 971 ->
  exists m e,
    mul (S754_finite false mx ex) (S754_finite false my ey)
    = S754_finite false m e
    /\ 2 ^ 52 <= Z.pos m < 2 ^ 53
    /\ ex + ey + 52 <= e <= ex + ey + 54
    /\ (Rabs (B2R (S754_finite false m e)
              - B2R (S754_finite false mx ex) * B2R (S754_finite false my ey))
        <= u53 * (B2R (S754_finite false mx ex)
                  * B2R (S754_finite false my ey)))%R.
Proof.
  intros Bx By Hlo Hhi. unfold mul, SFmul. cbn [xorb].
  set (N := Z.pos (mx * my)).
  assert (EN : N = Z.pos mx * Z.pos my) by reflexivity.
  assert (BN : 2 ^ 104 <= N < 2 ^ 106).
  { change (2 ^ 104) with (2 ^ 52 * 2 ^ 52).
    change (2 ^ 106) with (2 ^ 53 * 2 ^ 53). nia. }
  pose proof (@Zdigits2_range N 104 106 ltac:(lia) BN) as Hd.
  destruct (@binary_round_aux_normal N 1 false N (ex + ey) loc_Exact
              ltac:(lia) ltac:(lia) (locates_exact N)
              ltac:(lia) ltac:(lia) ltac:(lia) ltac:(lia))
    as (m & k & E & Bm & Hk & L & A & _).
  set (n := Zdigits2 N - 53) in *.
  exists m, (ex + ey + n + k). split; [exact E|]. split; [exact Bm|].
  split; [unfold n; lia|].
  assert (Hn : 0 <= n) by (unfold n; lia).
  assert (HP : 0 < 2 ^ n) by (apply Z.pow_pos_nonneg; lia).
  assert (Hk0 : 0 <= k) by lia.
  pose proof (@rel_error (Z.pos m * 2 ^ k) N 1 (2 ^ n) (powerRZ 2 (ex + ey))
                ltac:(lia) HP A L (powerRZ2_pos _)) as RE.
  cbn [B2R cond_Zopp]. set (S := powerRZ 2 (ex + ey)) in *.
  assert (EX : (IZR (Z.pos m) * powerRZ 2 (ex + ey + n + k)
                = IZR (Z.pos m * 2 ^ k) * IZR (2 ^ n) * S)%R).
  { replace (ex + ey + n + k) with (k + n + (ex + ey)) by lia.
    rewrite (powerRZ2_add (k + n)), (powerRZ2_add k n).
    rewrite <- !IZR_pow2, mult_IZR by lia.
    unfold S. ring. }
  assert (EY : (IZR (Z.pos mx) * powerRZ 2 ex * (IZR (Z.pos my) * powerRZ 2 ey)
                = IZR N / IZR 1 * S)%R).
  { unfold S. rewrite powerRZ2_add, EN, mult_IZR. field. }
  rewrite EX, EY. exact RE.
Qed.

Lemma twice_mod_zero rho D :
  0 <= rho < D -> (2 * rho) mod D = 0 <-> (rho = 0 \/ 2 * rho = D).
Proof.
  intros B. split.
  - intros Z0. apply Z.mod_divide in Z0; [|lia].
    destruct Z0 as [k Hk].
    assert (k = 0 \/ k = 1) as [->| ->] by nia; lia.
  - intros [->| ->]; [reflexivity|]. apply Z.mod_same. lia.
Qed.

(** The location [SFdiv] computes from a remainder. *)
Lemma new_location_locates N D :
  0 <= N -> 0 < D ->
  locates N D (shr_record_of_loc (N / D) (new_location D (N mod D))).
Proof.
  intros HN HD. pose proof (Z.mod_pos_bound N D HD) as B.
  set (rho := N mod D) in *.
  pose proof (twice_mod_zero B) as T.
  assert (Hm : forall l, shr_m (shr_record_of_loc (N / D) l) = N / D)
    by (intros [|[]]; reflexivity).
  unfold locates. fold rho. rewrite Hm. split; [reflexivity|].
  unfold new_location, new_location_even, new_location_odd.
  destruct (Z.even D) eqn:Ev.
  - destruct (Z.eqb_spec rho 0) as [Z0|NZ].
    + rewrite Z0. simpl. rewrite ?Z.mod_0_l by lia.
      destruct (Z.leb_spec D 0); [lia|]. split; reflexivity.
    + destruct (Z.compare_spec (2 * rho) D) as [C|C|C]; cbn [shr_record_of_loc shr_r shr_s];
        destruct (Z.leb_spec D (2 * rho)); try lia;
        destruct (Z.eqb_spec ((2 * rho) mod D) 0) as [M|M];
        try (split; reflexivity); exfalso;
        rewrite T in M; lia.
  - assert (Od : Z.odd D = true) by (now rewrite <- Z.negb_even, Ev).
    apply Z.odd_spec in Od. destruct Od as [j Hj].
    destruct (Z.eqb_spec rho 0) as [Z0|NZ].
    + rewrite Z0. simpl. rewrite ?Z.mod_0_l by lia.
      destruct (Z.leb_spec D 0); [lia|]. split; reflexivity.
    + destruct (Z.compare_spec (2 * rho + 1) D) as [C|C|C]; cbn [shr_record_of_loc shr_r shr_s];
        destruct (Z.leb_spec D (2 * rho)); try lia;
        destruct (Z.eqb_spec ((2 * rho) mod D) 0) as [M|M];
        try (split; reflexivity); exfalso;
        rewrite T in M; lia.
Qed.

Lemma Zdigits2_53 m : 2 ^ 52 <= m < 2 ^ 53 -> Zdigits2 m = 53.
Proof. intros H. apply Zdigits2_unique; [exact H|lia]. Qed.

Lemma SFdiv_core_normal m1 e1 m2 e2 :
  2 ^ 52 <= Z.pos m1 < 2 ^ 53 ->
  2 ^ 52 <= Z.pos m2 < 2 ^ 53 ->
  -1074 <= e1 - e2 - 53 ->
  SFdiv_core_binary prec emax (Z.pos m1) e1 (Z.pos m2) e2
  = ((Z.pos m1 * 2 ^ 53) / Z.pos m2, e1 - e2 - 53,
     new_location (Z.pos m2) ((Z.pos m1 * 2 ^ 53) mod Z.pos m2)).
Proof.
  intros B1 B2 He. unfold SFdiv_core_binary.
  rewrite (Zdigits2_53 B1), (Zdigits2_53 B2).
  change (fexp prec emax (53 + e1 - (53 + e2)))
    with (fexp64 (53 + e1 - (53 + e2))).
  rewrite fexp64_eq.
  replace (Z.min (Z.max (53 + e1 - (53 + e2) - 53) (-1074)) (e1 - e2))
    with (e1 - e2 - 53) by lia.
  replace (e1 - e2 - (e1 - e2 - 53)) with 53 by lia.
  rewrite Z.shiftl_mul_pow2 by lia.
  unfold Z.div, Z.modulo.
  now destruct (Z.div_eucl (Z.pos m1 * 2 ^ 53) (Z.pos m2)).
Qed.

(** The quotient of two normal numbers, away from the ends of the range. *)
Lemma div_normal m1 e1 m2 e2 :
  2 ^ 52 <= Z.pos m1 < 2 ^ 53 ->
  2 ^ 52 <= Z.pos m2 < 2 ^ 53 ->
  -1074 <= e1 - e2 - 53 -> e1 - e2 - 52 < 971 ->
  exists m e,
    div (S754_finite false m1 e1) (S754_finite false m2 e2)
    = S754_finite false m e
    /\ 2 ^ 52 <= Z.pos m < 2 ^ 53
    /\ e1 - e2 - 53 <= e <= e1 - e2 - 51
    /\ (Rabs (B2R (S754_finite false m e)
              - B2R (S754_finite false m1 e1) / B2R (S754_finite false m2 e2))
        <= u53 * (B2R (S754_finite false m1 e1)
                  / B2R (S754_finite false m2 e2)))%R.
Proof.
  intros B1 B2 Hlo Hhi. unfold div, SFdiv. cbn [xorb].
  rewrite SFdiv_core_normal by assumption.
  set (N := Z.pos m1 * 2 ^ 53). set (D := Z.pos m2).
  assert (HN : 0 <= N) by (unfold N; lia).
  assert (HD : 0 < D) by (unfold D; lia).
  assert (Bq : 2 ^ 52 <= N / D < 2 ^ 54).
  { split.
    - apply Z.div_le_lower_bound; [lia|]. unfold N, D.
      change (2 ^ 53) with (2 * 2 ^ 52) in *. nia.
    - apply Z.div_lt_upper_bound; [lia|]. unfold N, D.
      change (2 ^ 54) with (2 * 2 ^ 53). change (2 ^ 53) with (2 * 2 ^ 52) in *.
      nia. }
  pose proof (@Zdigits2_range (N / D) 52 54 ltac:(lia) Bq) as Hd.
  destruct (@binary_round_aux_normal N D false (N / D) (e1 - e2 - 53)
              (new_location D (N mod D))
              HN HD (new_location_locates HN HD)
              ltac:(lia) ltac:(lia) ltac:(lia) ltac:(lia))
    as (m & k & E & Bm & Hk & L & A & _).
  set (n := Zdigits2 (N / D) - 53) in *.
  exists m, (e1 - e2 - 53 + n + k). split; [exact E|]. split; [exact Bm|].
  split; [unfold n; lia|].
  assert (Hn : 0 <= n) by (unfold n; lia).
  assert (HP : 0 < 2 ^ n) by (apply Z.pow_pos_nonneg; lia).
  assert (Hk0 : 0 <= k) by lia.
  pose proof (@rel_error (Z.pos m * 2 ^ k) N D (2 ^ n)
                (powerRZ 2 (e1 - e2 - 53))
                HD HP A L (powerRZ2_pos _)) as RE.
  cbn [B2R cond_Zopp]. set (S := powerRZ 2 (e1 - e2 - 53)) in *.
  assert (EX : (IZR (Z.pos m) * powerRZ 2 (e1 - e2 - 53 + n + k)
                = IZR (Z.pos m * 2 ^ k) * IZR (2 ^ n) * S)%R).
  { replace (e1 - e2 - 53 + n + k) with (k + n + (e1 - e2 - 53)) by lia.
    rewrite (powerRZ2_add (k + n)), (powerRZ2_add k n).
    rewrite <- !IZR_pow2, mult_IZR by lia.
    unfold S. ring. }
  assert (EY : (IZR (Z.pos m1) * powerRZ 2 e1 / (IZR (Z.pos m2) * powerRZ 2 e2)
                = IZR N / IZR D * S)%R).
  { unfold S, N, D. rewrite mult_IZR.
    replace e1 with ((e1 - e2 - 53) + 53 + e2) at 1 by lia.
    rewrite !powerRZ2_add, <- (IZR_pow2 (n := 53)) by lia.
    pose proof (powerRZ2_pos e2). pose proof (powerRZ2_pos (e1 - e2 - 53)).
    assert (0 < IZR (Z.pos m2))%R by (apply IZR_lt; lia).
    field. lra. }
  rewrite EX, EY. exact RE.
Qed.

(** ** The percentage of two integers *)

Lemma powerRZ2_neg e : e < 0 -> powerRZ 2 e = (/ IZR (2 ^ (- e)))%R.
Proof.
  intros He. rewrite IZR_pow2 by lia.
  rewrite <- powerRZ_neg'. now rewrite Z.opp_involutive.
Qed.

(** An integer below [2^53] is a normal number of that value. *)
Lemma of_Z_normal z :
  0 < z < 2 ^ 53 ->
  exists m,
    of_Z z = S754_finite false m (Zdigits2 z - 53)
    /\ 2 ^ 52 <= Z.pos m < 2 ^ 53
    /\ B2R (of_Z z) = IZR z.
Proof.
  intros Hz. pose proof (of_Z_pos Hz) as E.
  pose proof (@Zdigits2_range z 0 53 ltac:(lia) ltac:(simpl; lia)) as Hd.
  set (d := Zdigits2 z) in *.
  assert (P : 0 < 2 ^ (53 - d)) by (apply Z.pow_pos_nonneg; lia).
  assert (Em : Z.pos (Z.to_pos (z * 2 ^ (53 - d))) = z * 2 ^ (53 - d))
    by (apply Z2Pos.id; nia).
  exists (Z.to_pos (z * 2 ^ (53 - d))). split; [exact E|]. split.
  - rewrite Em.
    pose proof (@Zdigits2_shift z (53 - d) ltac:(lia) ltac:(lia)) as Ds.
    fold d in Ds.
    pose proof (@Zdigits2_bounds (z * 2 ^ (53 - d)) ltac:(nia)) as B.
    rewrite Ds in B. replace (d + (53 - d)) with 53 in B by lia. exact B.
  - rewrite E. cbn [B2R cond_Zopp]. rewrite Em, mult_IZR.
    rewrite IZR_pow2 by lia.
    rewrite Rmult_assoc, <- powerRZ2_add.
    replace (53 - d + (d - 53)) with 0 by lia. simpl. ring.
Qed.

Lemma hundred_eq : hundred = S754_finite false 7036874417766400 (-46).
Proof. reflexivity. Qed.

Lemma B2R_hundred : B2R hundred = 100%R.
Proof.
  unfold hundred.
  destruct (@of_Z_normal 100 ltac:(lia)) as (m & _ & _ & ->). reflexivity.
Qed.

(** [Math.round] of a positive normal number with a fraction. *)
Lemma Math_round_normal m e k :
  e < 0 ->
  (IZR k - / 2 < B2R (S754_finite false m e) < IZR k + / 2)%R ->
  Math_round (S754_finite false m e) = of_Z k.
Proof.
  intros He [L U]. cbn [B2R cond_Zopp] in L, U.
  rewrite powerRZ2_neg in L, U by assumption.
  set (w := 2 ^ (- e)) in *.
  assert (Hw : 0 < w) by (apply Z.pow_pos_nonneg; lia).
  assert (Hw' : (0 < IZR w)%R) by (apply IZR_lt; lia).
  assert (L' : ((2 * IZR k - 1) * IZR w < 2 * IZR (Z.pos m))%R).
  { apply Rmult_lt_reg_r with (/ IZR w)%R; [now apply Rinv_0_lt_compat|].
    replace ((2 * IZR k - 1) * IZR w * / IZR w)%R with (2 * IZR k - 1)%R
      by (field; lra). lra. }
  assert (U' : (2 * IZR (Z.pos m) < (2 * IZR k + 1) * IZR w)%R).
  { apply Rmult_lt_reg_r with (/ IZR w)%R; [now apply Rinv_0_lt_compat|].
    replace ((2 * IZR k + 1) * IZR w * / IZR w)%R with (2 * IZR k + 1)%R
      by (field; lra). lra. }
  assert (LZ : (2 * k - 1) * w < 2 * Z.pos m).
  { apply lt_IZR. rewrite !mult_IZR, minus_IZR, mult_IZR. exact L'. }
  assert (UZ : 2 * Z.pos m < (2 * k + 1) * w).
  { apply lt_IZR. rewrite !mult_IZR, plus_IZR, mult_IZR. exact U'. }
  unfold Math_round. destruct (Z.leb_spec 0 e); [lia|].
  fold w. replace (2 ^ (1 - e)) with (2 * w).
  2:{ unfold w. replace (1 - e) with (1 + - e) by lia.
      rewrite Z.pow_add_r by lia. reflexivity. }
  assert (Er : (2 * Z.pos m + w) / (2 * w) = k).
  { symmetry. apply Z.div_unique with (2 * Z.pos m + w - 2 * w * k); lia. }
  rewrite Er. destruct (Z.eqb_spec k 0) as [->|]; reflexivity.
Qed.

Lemma Rabs_bounds x y eps :
  (0 <= y)%R -> (Rabs (x - y) <= eps * y)%R ->
  ((1 - eps) * y <= x <= (1 + eps) * y)%R.
Proof.
  intros Hy H. unfold Rabs in H. destruct (Rcase_abs (x - y)); lra.
Qed.

(** The integer nearest to [10000 c / t] when that is not a tie. *)
Lemma nearest_integer c t :
  0 <= c -> 0 < t -> (20000 * c) mod (2 * t) <> t ->
  let k := (20000 * c + t) / (2 * t) in
  (2 * k - 1) * t + 1 <= 20000 * c <= (2 * k + 1) * t - 1.
Proof.
  intros Hc Ht Tie k.
  pose proof (Z.div_mod (20000 * c + t) (2 * t) ltac:(lia)) as E.
  pose proof (Z.mod_pos_bound (20000 * c + t) (2 * t) ltac:(lia)) as B.
  fold k in E. set (r := (20000 * c + t) mod (2 * t)) in *.
  assert (r <> 0).
  { intros R0. apply Tie. symmetry.
    apply Z.mod_unique with (k - 1); lia. }
  lia.
Qed.

Theorem percentage_of_integers c t :
  0 <= c < 2 ^ 32 -> 0 < t < 2 ^ 32 ->
  (20000 * c) mod (2 * t) <> t ->
  percentage (of_Z c) (of_Z t)
  = div (of_Z ((20000 * c + t) / (2 * t))) hundred.
Proof.
  intros Hc Ht Tie.
  destruct (@of_Z_normal t ltac:(lia)) as (mt & Et & Bt & Rt).
  pose proof (@Zdigits2_range t 0 32 ltac:(lia) ltac:(simpl; lia)) as Dt.
  unfold percentage. rewrite Et. cbn [gt SFltb SFcompare zero].
  destruct (Z.eq_dec c 0) as [->|Hc0].
  { replace ((20000 * 0 + t) / (2 * t)) with 0
      by (symmetry; apply Z.div_small; lia).
    reflexivity. }
  destruct (@of_Z_normal c ltac:(lia)) as (mc & Ec & Bc & Rc).
  pose proof (@Zdigits2_range c 0 32 ltac:(lia) ltac:(simpl; lia)) as Dc.
  rewrite Ec. rewrite Et in Rt. rewrite Ec in Rc.
  set (ec := Zdigits2 c - 53) in *. set (et := Zdigits2 t - 53) in *.
  destruct (@div_normal mc ec mt et Bc Bt ltac:(lia) ltac:(lia))
    as (m1 & e1 & E1 & B1 & X1 & R1).
  rewrite E1. rewrite Rc, Rt in R1.
  rewrite hundred_eq.
  destruct (@mul_normal m1 e1 7036874417766400 (-46) B1 ltac:(lia)
              ltac:(lia) ltac:(lia))
    as (m2 & e2 & E2 & B2 & X2 & R2).
  rewrite E2.
  destruct (@mul_normal m2 e2 7036874417766400 (-46) B2 ltac:(lia)
              ltac:(lia) ltac:(lia))
    as (m3 & e3 & E3 & B3 & X3 & R3).
  rewrite E3. rewrite <- hundred_eq in *. rewrite B2R_hundred in R2, R3.
  set (k := (20000 * c + t) / (2 * t)).
  pose proof (nearest_integer (c := c) (t := t) ltac:(lia) ltac:(lia) Tie) as NI.
  fold k in NI. cbv zeta in NI.
  rewrite (@Math_round_normal m3 e3 k); [reflexivity|lia|].
  set (v1 := B2R (S754_finite false m1 e1)) in *.
  set (v2 := B2R (S754_finite false m2 e2)) in *.
  set (v3 := B2R (S754_finite false m3 e3)) in *.
  assert (HC : (1 <= IZR c <= 4294967295)%R).
  { split; apply IZR_le; lia. }
  assert (HT : (1 <= IZR t)%R) by (apply IZR_le; lia).
  destruct NI as [NL NU]. apply IZR_le in NL, NU.
  repeat (rewrite plus_IZR in NL || rewrite minus_IZR in NL
          || rewrite mult_IZR in NL).
  repeat (rewrite plus_IZR in NU || rewrite minus_IZR in NU
          || rewrite mult_IZR in NU).
  set (x := (IZR c / IZR t)%R) in *.
  assert (Hx : (IZR c = x * IZR t)%R) by (unfold x; field; lra).
  assert (Hx0 : (0 <= x)%R).
  { unfold x. apply Rmult_le_pos; [lra|].
    apply Rlt_le, Rinv_0_lt_compat. lra. }
  unfold u53 in *. change (IZR (2 ^ 53)) with 9007199254740992%R in *.
  set (u := (/ 9007199254740992)%R) in *.
  assert (Hu : (0 < u < / 1000000000000000)%R).
  { unfold u. split; [apply Rinv_0_lt_compat; lra|].
    apply Rinv_lt_contravar; lra. }
  apply Rabs_bounds in R1; [|lra].
  assert (Hv1 : (0 <= v1)%R) by nra.
  apply Rabs_bounds in R2; [|nra].
  assert (Hv2 : (0 <= v2)%R) by nra.
  apply Rabs_bounds in R3; [|nra].
  (* v3 lies within (1 +- u)^3 of 10000 x *)
  assert (U3 : (v3 <= (1 + u) * (1 + u) * (1 + u) * (10000 * x))%R) by nra.
  assert (L3 : ((1 - u) * (1 - u) * (1 - u) * (10000 * x) <= v3)%R) by nra.
  assert (Eps : ((1 + u) * (1 + u) * (1 + u) <= 1 + 4 * u)%R) by nra.
  assert (Eps' : (1 - 4 * u <= (1 - u) * (1 - u) * (1 - u))%R) by nra.
  assert (U3' : (v3 * IZR t <= (1 + 4 * u) * (10000 * IZR c))%R).
  { rewrite Hx. nra. }
  assert (L3' : ((1 - 4 * u) * (10000 * IZR c) <= v3 * IZR t)%R).
  { rewrite Hx. nra. }
  assert (Small : (4 * u * (20000 * IZR c) < 1)%R) by nra.
  clear - NL NU U3' L3' Small HT.
  split.
  - apply Rmult_lt_reg_r with (2 * IZR t)%R; [lra|]. nra.
  - apply Rmult_lt_reg_r with (2 * IZR t)%R; [lra|]. nra.
Qed.

(** ** Addition *)

Lemma valid_expOk x : valid_binary prec emax x = true -> expOk x.
Proof.
  destruct x as [| | |sx m e]; simpl; auto.
  unfold bounded, canonical_mantissa. intros H.
  apply andb_true_iff in H. destruct H as [H _].
  apply Z.eqb_eq in H.
  change (fexp prec emax (Z.pos (digits2_pos m) + e))
    with (fexp64 (Z.pos (digits2_pos m) + e)) in H.
  rewrite fexp64_eq in H. lia.
Qed.

Lemma shl_align_exponent p e e' :
  -1074 <= e -> -1074 <= e' -> -1074 <= snd (shl_align p e e').
Proof.
  intros. unfold shl_align. destruct (e' - e); simpl; lia.
Qed.

Lemma binary_round_nonzero sx p e :
  -1074 <= e ->
  match binary_round prec emax sx p e with
  | S754_zero _ => False
  | S754_finite sy _ e' => sy = sx /\ -1074 <= e'
  | S754_infinity sy => sy = sx
  | S754_nan => False
  end.
Proof.
  intros He. unfold binary_round.
  pose proof (@shl_align_exponent p e
                (fexp prec emax (Z.pos (digits2_pos p) + e)) He) as H.
  destruct (shl_align p e (fexp prec emax (Z.pos (digits2_pos p) + e)))
    as [mz ez].
  apply binary_round_aux_exact_nonzero; [lia|].
  apply H.
  change (fexp prec emax (Z.pos (digits2_pos p) + e))
    with (fexp64 (Z.pos (digits2_pos p) + e)).
  rewrite fexp64_eq. lia.
Qed.

Lemma binary_normalize_acc z e :
  -1074 <= e -> accOk (binary_normalize prec emax z e false).
Proof.
  intros He. unfold binary_normalize, accOk.
  destruct z as [|p|p].
  - split; [discriminate|exact I].
  - pose proof (@binary_round_nonzero false p e He) as H.
    destruct (binary_round prec emax false p e); simpl;
      try tauto; split; try discriminate; tauto.
  - pose proof (@binary_round_nonzero true p e He) as H.
    destruct (binary_round prec emax true p e); simpl;
      try tauto; split; try discriminate; tauto.
Qed.

Lemma of_Z_acc z : accOk (of_Z z).
Proof. apply binary_normalize_acc. lia. Qed.

Lemma add_acc a b : accOk a -> expOk b -> accOk (add a b).
Proof.
  intros [Na Ea] Eb. unfold add.
  destruct a as [sa|sa| |sa ma ea], b as [sb|sb| |sb mb eb];
    try (split; [discriminate|exact I]);
    try (split; [assumption|assumption]);
    try (split; [discriminate|assumption]).
  - destruct sa; [congruence|]. destruct sb; split; try discriminate; exact I.
  - destruct sa, sb; split; try discriminate; exact I.
  - unfold SFadd. apply binary_normalize_acc. simpl in Ea, Eb. lia.
Qed.

(** Adding [0 + b] to a running total is adding [b]. *)
Lemma add_zero_absorb a b : accOk a -> add a (add zero b) = add a b.
Proof.
  intros [Na _].
  destruct b as [[|]|sb| |sb mb eb]; try reflexivity;
    destruct a as [[|]|sa| |sa ma ea]; try reflexivity; congruence.
Qed.


Lemma accOk_zero : accOk zero.
Proof. split; [discriminate|exact I]. Qed.

(** Small integers add without rounding. *)
Lemma add_of_Z a b :
  0 <= a -> 0 <= b -> a + b < 2 ^ 53 ->
  add (of_Z a) (of_Z b) = of_Z (a + b).
Proof.
  intros Ha Hb Hab.
  destruct (Z.eq_dec a 0) as [->|Na].
  { destruct (Z.eq_dec b 0) as [->|Nb]; [reflexivity|].
    rewrite Z.add_0_l. rewrite (@of_Z_pos b) by lia. reflexivity. }
  destruct (Z.eq_dec b 0) as [->|Nb].
  { rewrite Z.add_0_r. rewrite (@of_Z_pos a) by lia. reflexivity. }
  rewrite (@of_Z_pos a), (@of_Z_pos b), (@of_Z_pos (a + b)) by lia.
  pose proof (@Zdigits2_range a 0 53 ltac:(lia) ltac:(simpl; lia)) as Da.
  pose proof (@Zdigits2_range b 0 53 ltac:(lia) ltac:(simpl; lia)) as Db.
  pose proof (@Zdigits2_range (a + b) 0 53 ltac:(lia) ltac:(simpl; lia)) as Dc.
  set (da := Zdigits2 a) in *. set (db := Zdigits2 b) in *.
  set (dc := Zdigits2 (a + b)) in *.
  unfold add, SFadd. cbn [cond_Zopp].
  set (ez := Z.min (da - 53) (db - 53)).
  assert (Ea : Z.pos (fst (shl_align (Z.to_pos (a * 2 ^ (53 - da))) (da - 53) ez))
               = a * 2 ^ (- ez)).
  { unfold shl_align. destruct (ez - (da - 53)) as [|k|k] eqn:E; cbn [fst].
    - rewrite Z2Pos.id by (pose proof (Z.pow_pos_nonneg 2 (53 - da)); nia).
      f_equal. f_equal. lia.
    - lia.
    - rewrite iter_xO, Z2Pos.id by (pose proof (Z.pow_pos_nonneg 2 (53 - da)); nia).
      rewrite <- Z.mul_assoc, <- Z.pow_add_r by lia. f_equal. f_equal. lia. }
  assert (Eb : Z.pos (fst (shl_align (Z.to_pos (b * 2 ^ (53 - db))) (db - 53) ez))
               = b * 2 ^ (- ez)).
  { unfold shl_align. destruct (ez - (db - 53)) as [|k|k] eqn:E; cbn [fst].
    - rewrite Z2Pos.id by (pose proof (Z.pow_pos_nonneg 2 (53 - db)); nia).
      f_equal. f_equal. lia.
    - lia.
    - rewrite iter_xO, Z2Pos.id by (pose proof (Z.pow_pos_nonneg 2 (53 - db)); nia).
      rewrite <- Z.mul_assoc, <- Z.pow_add_r by lia. f_equal. f_equal. lia. }
  rewrite Ea, Eb. rewrite <- Z.mul_add_distr_r.
  set (w := - ez). assert (Hw : 0 <= w) by (unfold w, ez; lia).
  assert (Pw : 0 < 2 ^ w) by (apply Z.pow_pos_nonneg; lia).
  set (z := (a + b) * 2 ^ w).
  assert (Hz : 0 < z) by (unfold z; nia).
  assert (Dz : Zdigits2 z = dc + w) by (apply Zdigits2_shift; lia).
  assert (Dw : dc <= 53 + w) by (unfold w, ez; lia).
  destruct z as [|pz|pz] eqn:Ez; try lia.
  unfold binary_normalize, binary_round.
  change (Z.pos (digits2_pos pz)) with (Zdigits2 (Z.pos pz)). rewrite Dz.
  change (fexp prec emax (dc + w + ez)) with (fexp64 (dc + w + ez)).
  rewrite fexp64_eq. replace (dc + w + ez) with dc by (unfold w; lia).
  rewrite Z.max_l by lia.
  set (target := Z.pos (Z.to_pos ((a + b) * 2 ^ (53 - dc)))).
  assert (Et : target = (a + b) * 2 ^ (53 - dc)).
  { unfold target. apply Z2Pos.id.
    pose proof (Z.pow_pos_nonneg 2 (53 - dc)). nia. }
  assert (Dt : Zdigits2 target = 53).
  { rewrite Et, Zdigits2_shift by lia. fold dc. lia. }
  pose proof (@Zdigits2_bounds target ltac:(lia)) as Bt. rewrite Dt in Bt.
  assert (Ew : w = - ez) by reflexivity.
  assert (Hround : forall mz e0,
    53 <= Zdigits2 (Z.pos mz) ->
    e0 + Zdigits2 (Z.pos mz) - 53 = dc - 53 ->
    (Z.pos mz) mod 2 ^ (Zdigits2 (Z.pos mz) - 53) = 0 ->
    Z.pos mz / 2 ^ (Zdigits2 (Z.pos mz) - 53) = target ->
    binary_round_aux prec emax false (Z.pos mz) e0 loc_Exact
    = S754_finite false (Z.to_pos ((a + b) * 2 ^ (53 - dc))) (dc - 53)).
  { intros mz e0 Hd53 Hexp Hmod Hdiv.
    destruct (@binary_round_aux_normal (Z.pos mz) 1 false (Z.pos mz) e0
                loc_Exact ltac:(lia) ltac:(lia) (locates_exact _)
                ltac:(lia) Hd53 ltac:(lia) ltac:(lia))
      as (m & k & -> & Bm & Hk & _ & _ & X).
    rewrite Z.mul_1_l in X. specialize (X Hmod). rewrite Hdiv in X.
    destruct Hk as [-> | ->].
    - rewrite Z.pow_0_r, Z.mul_1_r in X. f_equal.
      + unfold target in X. now injection X.
      + lia.
    - rewrite Z.pow_1_r in X. lia. }
  unfold shl_align.
  destruct (dc - 53 - ez) as [|k|k] eqn:E.
  - (* the sum already has 53 bits *)
    apply Hround; rewrite Dz; try lia.
    + replace (dc + w - 53) with 0 by lia.
      now rewrite Z.pow_0_r, Z.mod_1_r.
    + replace (dc + w - 53) with 0 by lia.
      rewrite Z.pow_0_r, Z.div_1_r, Et, <- Ez. unfold z.
      f_equal. f_equal. lia.
  - (* more than 53 bits: the low ones are zeros *)
    assert (Hn : 0 < dc + w - 53 <= w) by lia.
    assert (Esplit : Z.pos pz = target * 2 ^ (dc + w - 53)).
    { rewrite <- Ez, Et. unfold z.
      rewrite <- Z.mul_assoc, <- Z.pow_add_r by lia.
      f_equal. f_equal. lia. }
    apply Hround; rewrite Dz; try lia.
    + rewrite Esplit. apply Z.mod_mul. apply Z.pow_nonzero; lia.
    + rewrite Esplit. apply Z.div_mul. apply Z.pow_nonzero; lia.
  - (* fewer than 53 bits: shifted left *)
    assert (Hk : Z.pos k = 53 - dc - w) by lia.
    assert (Em : Z.pos (Pos.iter xO pz k) = target).
    { rewrite iter_xO, <- Ez, Et. unfold z.
      rewrite <- Z.mul_assoc, <- Z.pow_add_r by lia.
      f_equal. f_equal. lia. }
    apply Hround; rewrite Em, Dt; try lia.
    + change (53 - 53) with 0. now rewrite Z.pow_0_r, Z.mod_1_r.
    + change (53 - 53) with 0. now rewrite Z.pow_0_r, Z.div_1_r.
Qed.

End Binary64.

(* ================================================================== *)
(** * The aggregator, counter by counter *)
(* ================================================================== *)

Lemma fold_addRecord rs : forall c,
  let c' := fold_left addRecord rs c in
  totalLines c'
    = fold_left (fun a r => JsNumber.add a (lengthOf (lines r))) rs
        (totalLines c)
  /\ coveredLines c'
    = fold_left (fun a r => JsNumber.add a (lengthOf (hitLines r))) rs
        (coveredLines c)
  /\ totalStatements c'
    = fold_left (fun a r => JsNumber.add a (lengthOf (lines r))) rs
        (totalStatements c)
  /\ coveredStatements c'
    = fold_left (fun a r => JsNumber.add a (lengthOf (hitLines r))) rs
        (coveredStatements c)
  /\ totalFunctions c'
    = fold_left (fun a r => JsNumber.add a (found (functions r))) rs
        (totalFunctions c)
  /\ coveredFunctions c'
    = fold_left (fun a r => JsNumber.add a (hits (functions r))) rs
        (coveredFunctions c)
  /\ totalBranches c'
    = fold_left (fun a r => JsNumber.add a (found (branches r))) rs
        (totalBranches c)
  /\ coveredBranches c'
    = fold_left (fun a r => JsNumber.add a (hits (branches r))) rs
        (coveredBranches c).
Proof.
  induction rs as [|r rs IH]; intros c; cbn zeta.
  - repeat split.
  - cbn [fold_left]. apply (IH (addRecord c r)).
Qed.

Lemma fold_single (h : LcovRecord -> number) rs : forall a,
  accOk a ->
  Forall (fun r => expOk (h r)) rs ->
  fold_left (fun acc r => JsNumber.add acc (JsNumber.add JsNumber.zero (h r)))
    rs a
  = fold_left (fun acc r => JsNumber.add acc (h r)) rs a.
Proof.
  induction rs as [|r rs IH]; intros a Ha H; [reflexivity|].
  inversion H; subst. cbn [fold_left].
  rewrite Binary64.add_zero_absorb by assumption.
  apply IH; [|assumption]. now apply Binary64.add_acc.
Qed.

(** Summing the single-record totals is summing the contributions. *)
Lemma sumOver_single (h : LcovRecord -> number) rs :
  Forall (fun r => expOk (h r)) rs ->
  sumOver (fun r => JsNumber.add JsNumber.zero (h r)) rs
  = fold_left (fun a r => JsNumber.add a (h r)) rs JsNumber.zero.
Proof.
  intros H. unfold sumOver. apply fold_single; [|assumption].
  apply Binary64.accOk_zero.
Qed.

Lemma lengthOf_expOk {A} (xs : list A) : expOk (lengthOf xs).
Proof. apply Binary64.of_Z_acc. Qed.

(** Counting lines stays exact. *)
Lemma fold_lengths (f : LcovRecord -> nat) rs : forall a,
  0 <= a ->
  a + Z.of_nat (list_sum (map f rs)) < 2 ^ 53 ->
  fold_left (fun acc r => JsNumber.add acc (JsNumber.of_nat (f r))) rs
    (JsNumber.of_Z a)
  = JsNumber.of_Z (a + Z.of_nat (list_sum (map f rs))).
Proof.
  induction rs as [|r rs IH]; intros a Ha H.
  - simpl. now rewrite Z.add_0_r.
  - assert (Hs : list_sum (map f (r :: rs))
                 = (f r + list_sum (map f rs))%nat) by reflexivity.
    rewrite Hs in *. cbn [fold_left].
    unfold JsNumber.of_nat at 2. rewrite Binary64.add_of_Z by lia.
    rewrite IH by lia. f_equal. lia.
Qed.

Lemma countHitLines_le records :
  (countHitLines records <= countLines records)%nat.
Proof.
  unfold countHitLines, countLines.
  induction records as [|r rs IH]; [apply Nat.le_refl|].
  cbn [map].
  change (list_sum (?x :: ?l)) with (x + list_sum l)%nat.
  apply Nat.add_le_mono; [|exact IH].
  apply filter_length_le.
Qed.

Lemma lines_counters records :
  Z.of_nat (countLines records) < 2 ^ 53 ->
  let report := lcovToCoverageReport records in
  total (r_lines report) = JsNumber.of_Z (Z.of_nat (countLines records))
  /\ covered (r_lines report)
     = JsNumber.of_Z (Z.of_nat (countHitLines records))
  /\ total (r_statements report)
     = JsNumber.of_Z (Z.of_nat (countLines records))
  /\ covered (r_statements report)
     = JsNumber.of_Z (Z.of_nat (countHitLines records)).
Proof.
  intros H report.
  pose proof (countHitLines_le records) as Hhit.
  destruct (fold_addRecord records zeroCounters)
    as (E1 & E2 & E3 & E4 & _).
  unfold report, lcovToCoverageReport, reportNumbers. cbn [r_lines r_statements total covered].
  rewrite E1, E2, E3, E4. cbn [zeroCounters totalLines coveredLines totalStatements coveredStatements].
  change JsNumber.zero with (JsNumber.of_Z 0).
  unfold lengthOf.
  rewrite (fold_lengths (fun r => List.length (lines r)) records) by
    (fold (countLines records); lia).
  rewrite (fold_lengths (fun r => List.length (hitLines r)) records) by
    (fold (countHitLines records); lia).
  repeat split.
Qed.

(** Every entry of a report carries the percentage of its own counts. *)
Lemma metrics_pct records m :
  In m (metrics (lcovToCoverageReport records)) ->
  pct m = percentage (covered m) (total m).
Proof.
  unfold metrics, lcovToCoverageReport, reportNumbers.
  intros [<-|[<-|[<-|[<-|[]]]]]; reflexivity.
Qed.

(** The numbers the parser reads are in range. *)
Lemma parseInt_expOk input : expOk (JsNumber.parseInt input).
Proof.
  unfold JsNumber.parseInt. destruct input as [str|]; [|exact I].
  destruct (match JsString.trimStart str with
            | 45%N :: str' => (true, str')
            | 43%N :: str' => (false, str')
            | _ => (false, JsString.trimStart str)
            end) as [negative rest].
  destruct (JsNumber.has_digit rest); [|exact I].
  destruct (_ =? 0); [exact I|]. apply Binary64.of_Z_acc.
Qed.

Lemma parseLine_countersOk st ln :
  Forall countersOk (fst st) ->
  (forall r, snd st = Some r -> countersOk r) ->
  Forall countersOk (fst (parseLine st ln))
  /\ (forall r, snd (parseLine st ln) = Some r -> countersOk r).
Proof.
  intros Hrs Hcur. destruct st as [records [r0|]]; cbn [fst snd] in *.
  - specialize (Hcur r0 eq_refl). destruct Hcur as (C1 & C2 & C3 & C4).
    parse_line_cases ln; cbn [fst snd]; (split; [|intros r [= <-]]);
      try assumption; try discriminate;
      try (repeat split; cbn; try assumption; try exact I;
           apply parseInt_expOk).
    all: try (destruct (sourceFile r0); [assumption|];
              apply Forall_app; split; [assumption|];
              constructor; [repeat split; assumption|constructor]).
    all: unfold countersOk, setFunctions, setBranches, intAfter;
      cbn [functions branches found hits];
      repeat split; try assumption; apply parseInt_expOk.
  - parse_line_cases ln; cbn [fst snd]; (split; [|intros r [= <-]]);
      try assumption; try discriminate;
      repeat split; exact I.
Qed.

Lemma parseLcovData_countersOk text : Forall countersOk (parseLcovData text).
Proof.
  unfold parseLcovData, parseLines.
  assert (G : forall lns st,
    Forall countersOk (fst st) ->
    (forall r, snd st = Some r -> countersOk r) ->
    Forall countersOk (fst (fold_left parseLine lns st))).
  { induction lns as [|ln lns IH]; intros st H1 H2; [assumption|].
    cbn [fold_left]. destruct (@parseLine_countersOk st ln H1 H2).
    now apply IH. }
  apply G; [constructor|discriminate].
Qed.

Lemma countLines_member records r :
  In r records -> (List.length (lines r) <= countLines records)%nat.
Proof.
  unfold countLines. induction records as [|r0 rs IH]; intros H; [destruct H|].
  cbn [map]. change (list_sum (?x :: ?l)) with (x + list_sum l)%nat.
  destruct H as [->|H]; [lia|]. specialize (IH H). lia.
Qed.

(** The line count of one record is the length of its [lines]. *)
Lemma single_lines_total r :
  Z.of_nat (List.length (lines r)) < 2 ^ 53 ->
  total (r_lines (lcovToCoverageReport [r]))
  = JsNumber.of_Z (Z.of_nat (List.length (lines r))).
Proof.
  intros H.
  assert (E : countLines [r] = List.length (lines r)).
  { unfold countLines. cbn [map]. 
    change (list_sum [?x]) with (x + 0)%nat. lia. }
  destruct (@lines_counters [r]) as (T & _); [rewrite E; exact H|].
  rewrite T, E. reflexivity.
Qed.

(* ================================================================== *)
(** * Claims about the aggregator *)
(* ================================================================== *)

(** C3, as stated, fails on the ["total"] entry: a file named [total]
    takes the place of the aggregate. *)
Lemma C3_counterexample :
  let records := parseLcovData totalNamedText in
  map sourceFile records = [total_; JsString.lit "src/a.ts"]
  /\ JsObject.get (lcovToJsonSummary records) total_
     <> Some (lcovToCoverageReport records)
  /\ option_map (fun b => total (r_lines b))
       (JsObject.get (lcovToJsonSummary records) total_)
     = Some (JsNumber.of_Z 1)
  /\ total (r_lines (lcovToCoverageReport records)) = JsNumber.of_Z 2.
Proof.
  vm_compute. repeat split; try reflexivity. discriminate.
Qed.

(** C3, amended. Each count of the aggregate of a record sequence is the
    sum, taken from 0 in sequence order, of the same count of the
    aggregates of the single records: so for the [total] and [covered] of
    lines, statements, functions and branches (the counters read from the
    text being numbers in range). For lines the numbers are the integers
    themselves: each record contributes the length of its [lines] and the
    aggregate holds their sum. And the ["total"] entry of the summary is
    the aggregate of all the records whenever no record is named
    ["total"]. *)
Theorem C3_aggregate_is_additive :
  forall records : list LcovRecord,
    Forall countersOk records ->
    let whole := lcovToCoverageReport records in
    let one := fun r => lcovToCoverageReport [r] in
    total (r_lines whole) = sumOver (fun r => total (r_lines (one r))) records
    /\ covered (r_lines whole)
       = sumOver (fun r => covered (r_lines (one r))) records
    /\ total (r_statements whole)
       = sumOver (fun r => total (r_statements (one r))) records
    /\ covered (r_statements whole)
       = sumOver (fun r => covered (r_statements (one r))) records
    /\ total (r_functions whole)
       = sumOver (fun r => total (r_functions (one r))) records
    /\ covered (r_functions whole)
       = sumOver (fun r => covered (r_functions (one r))) records
    /\ total (r_branches whole)
       = sumOver (fun r => total (r_branches (one r))) records
    /\ covered (r_branches whole)
       = sumOver (fun r => covered (r_branches (one r))) records
    /\ (Z.of_nat (countLines records) < 2 ^ 53 ->
        total (r_lines whole) = JsNumber.of_Z (Z.of_nat (countLines records))
        /\ Forall (fun r => total (r_lines (one r))
                            = JsNumber.of_Z (Z.of_nat (List.length (lines r))))
             records)
    /\ (Forall (fun r => sourceFile r <> total_) records ->
        JsObject.get (lcovToJsonSummary records) total_ = Some whole).
Proof.
  intros records Hok whole one.
  assert (Exact : Z.of_nat (countLines records) < 2 ^ 53 ->
    total (r_lines whole) = JsNumber.of_Z (Z.of_nat (countLines records))
    /\ Forall (fun r => total (r_lines (one r))
                        = JsNumber.of_Z (Z.of_nat (List.length (lines r))))
         records).
  { intros Hsmall. split.
    - now destruct (@lines_counters records Hsmall) as (T & _).
    - apply Forall_forall. intros r Hr. apply single_lines_total.
      pose proof (countLines_member records r Hr). lia. }
  assert (Last : Forall (fun r => sourceFile r <> total_) records ->
                 JsObject.get (lcovToJsonSummary records) total_ = Some whole)
    by apply summary_total_entry.
  revert Last. generalize (JsObject.get (lcovToJsonSummary records) total_).
  intros entry Last.
  destruct (fold_addRecord records zeroCounters)
    as (E1 & E2 & E3 & E4 & E5 & E6 & E7 & E8).
  assert (Hf : forall p : LcovRecord -> number,
             (forall r, countersOk r -> expOk (p r)) ->
             Forall (fun r => expOk (p r)) records).
  { intros p Hp. eapply Forall_impl; [|exact Hok]. exact Hp. }
  assert (Hl : forall p : LcovRecord -> list LineEntry,
             Forall (fun r => expOk (lengthOf (p r))) records).
  { intros p. apply Forall_forall. intros r _. apply lengthOf_expOk. }
  repeat match goal with |- _ /\ _ => split end;
    try exact Last; try exact Exact; clear Last Exact;
    unfold whole, one, lcovToCoverageReport, reportNumbers;
    cbn [r_lines r_statements r_functions r_branches total covered
         fold_left addRecord zeroCounters totalLines coveredLines
         totalFunctions coveredFunctions totalBranches coveredBranches
         totalStatements coveredStatements];
    rewrite ?E1, ?E2, ?E3, ?E4, ?E5, ?E6, ?E7, ?E8;
    cbn [zeroCounters totalLines coveredLines totalFunctions
         coveredFunctions totalBranches coveredBranches totalStatements
         coveredStatements];
    rewrite sumOver_single; try reflexivity;
    try apply Hl; apply Hf; intros r (C1 & C2 & C3 & C4); assumption.
Qed.

(** C1, as stated, fails twice. A negative [FNF:] makes [total] differ
    from 0 and yet [pct] is 0, where the rule gives -60. And 23 lines hit
    out of 160 make [10000 * 23 / 160 = 1437.5], which the rule rounds up
    to 14.38, while the arithmetic of the code arrives at 14.37. *)
Lemma C1_counterexample :
  (let m := r_functions
              (lcovToCoverageReport (parseLcovData negativeFoundText)) in
   total m = JsNumber.of_Z (-5)
   /\ covered m = JsNumber.of_Z 3
   /\ nearestHundredth 3 (-5) = -6000
   /\ JsNumber.div (JsNumber.of_Z (-6000)) hundred = JsNumber.of_Z (-60)
   /\ pct m = JsNumber.zero
   /\ pct m <> JsNumber.of_Z (-60))
  /\ (let m := r_lines (lcovToCoverageReport [tieRecord]) in
      total m = JsNumber.of_Z 160
      /\ covered m = JsNumber.of_Z 23
      /\ nearestHundredth 23 160 = 1438
      /\ pct m = JsNumber.div (JsNumber.of_Z 1437) hundred
      /\ pct m <> JsNumber.div (JsNumber.of_Z 1438) hundred).
Proof.
  vm_compute. repeat split; try reflexivity; discriminate.
Qed.

(** C1, amended. In every entry of a report, [pct] is 0 as soon as
    [total] is not greater than 0: when it is 0, negative or not a number.
    When [total] and [covered] are integers [t] and [c] below [2^32] with
    [0 < t] and [0 <= c], and [10000 c / t] is not halfway between two
    integers, [pct] is the number nearest to [k / 100], [k] being
    [10000 c / t] rounded to the nearest integer: [c / t * 100] rounded to
    two decimals. The counts of lines and statements are such integers,
    namely the number of line entries and of those with [hit > 0]. In
    particular 7 lines hit out of 10 give 70, and no line gives 0. *)
Theorem C1_percentage_rule :
  forall records : list LcovRecord,
    let report := lcovToCoverageReport records in
    (forall m, In m (metrics report) ->
       (JsNumber.gt (total m) JsNumber.zero = false -> pct m = JsNumber.zero)
       /\ (forall c t : Z,
             total m = JsNumber.of_Z t -> covered m = JsNumber.of_Z c ->
             0 < t < 2 ^ 32 -> 0 <= c < 2 ^ 32 -> ~ isTie c t ->
             pct m = JsNumber.div
                       (JsNumber.of_Z (nearestHundredth c t))
                       (JsNumber.of_Z 100)))
    /\ (let t := Z.of_nat (countLines records) in
        let c := Z.of_nat (countHitLines records) in
        t < 2 ^ 32 ->
        (total (r_lines report) = JsNumber.of_Z t
         /\ covered (r_lines report) = JsNumber.of_Z c
         /\ total (r_statements report) = JsNumber.of_Z t
         /\ covered (r_statements report) = JsNumber.of_Z c)
        /\ (t = 0 ->
            pct (r_lines report) = JsNumber.zero
            /\ pct (r_statements report) = JsNumber.zero)
        /\ (0 < t -> ~ isTie c t ->
            pct (r_lines report)
            = JsNumber.div (JsNumber.of_Z (nearestHundredth c t))
                (JsNumber.of_Z 100)
            /\ pct (r_statements report)
               = JsNumber.div (JsNumber.of_Z (nearestHundredth c t))
                   (JsNumber.of_Z 100)))
    /\ (forall r,
          List.length (lines r) = 10%nat ->
          List.length (hitLines r) = 7%nat ->
          pct (r_lines (lcovToCoverageReport [r])) = JsNumber.of_Z 70)
    /\ (forall r,
          lines r = [] ->
          pct (r_lines (lcovToCoverageReport [r])) = JsNumber.zero).
Proof.
  intros records report.
  assert (General : forall m, In m (metrics report) ->
    (JsNumber.gt (total m) JsNumber.zero = false -> pct m = JsNumber.zero)
    /\ (forall c t : Z,
          total m = JsNumber.of_Z t -> covered m = JsNumber.of_Z c ->
          0 < t < 2 ^ 32 -> 0 <= c < 2 ^ 32 -> ~ isTie c t ->
          pct m = JsNumber.div (JsNumber.of_Z (nearestHundredth c t))
                    (JsNumber.of_Z 100))).
  { intros m Hm. rewrite (@metrics_pct records m Hm). split.
    - intros Hgt. unfold percentage. now rewrite Hgt.
    - intros c t -> -> Ht Hc Htie.
      now apply Binary64.percentage_of_integers. }
  split; [exact General|]. split; [|split].
  - intros t c Ht.
    destruct (@lines_counters records ltac:(fold t; lia))
      as (T1 & C1 & T2 & C2).
    fold report in T1, C1, T2, C2. fold t in T1, T2. fold c in C1, C2.
    pose proof (countHitLines_le records) as Hle.
    destruct (General (r_lines report) ltac:(simpl; auto)) as [Gl Il].
    destruct (General (r_statements report) ltac:(simpl; auto)) as [Gs Is].
    split; [repeat split; assumption|]. split.
    + intros Z0. split; [apply Gl|apply Gs];
        rewrite ?T1, ?T2, Z0; reflexivity.
    + intros Hpos Htie. split; [apply Il|apply Is]; auto; unfold c, t; lia.
  - intros r H10 H7.
    change (pct (r_lines (lcovToCoverageReport [r])))
      with (percentage
              (JsNumber.add JsNumber.zero (lengthOf (hitLines r)))
              (JsNumber.add JsNumber.zero (lengthOf (lines r)))).
    unfold lengthOf. rewrite H10, H7. vm_compute. reflexivity.
  - intros r H.
    change (pct (r_lines (lcovToCoverageReport [r])))
      with (percentage
              (JsNumber.add JsNumber.zero (lengthOf (hitLines r)))
              (JsNumber.add JsNumber.zero (lengthOf (lines r)))).
    unfold lengthOf. rewrite H. reflexivity.
Qed.

(** C7, as stated, fails when the shared name is ["total"]: the summary
    has the single key ["total"], which holds the bundle of the second
    record alone. *)
Lemma C7_counterexample :
  let records := parseLcovData twiceTotalText in
  map sourceFile records = [total_; total_]
  /\ JsObject.keys (lcovToJsonSummary records) = [total_]
  /\ JsObject.get (lcovToJsonSummary records) total_
     <> Some (lcovToCoverageReport records)
  /\ option_map (fun b => total (r_lines b))
       (JsObject.get (lcovToJsonSummary records) total_)
     = Some (JsNumber.of_Z 2)
  /\ total (r_lines (lcovToCoverageReport records)) = JsNumber.of_Z 3
  /\ map sourceFile (parseLcovData indexNamedText)
     = [JsString.lit "src/b.ts"; JsString.lit "42"]
  /\ JsObject.keys (lcovToJsonSummary (parseLcovData indexNamedText))
     = [JsString.lit "42"; total_; JsString.lit "src/b.ts"]
  /\ map sourceFile (parseLcovData protoNamedText) = [JsObject.proto_]
  /\ JsObject.keys (lcovToJsonSummary (parseLcovData protoNamedText))
     = [total_].
Proof.
  vm_compute. repeat split; try reflexivity. discriminate.
Qed.

(* ================================================================== *)
(** * The claims at sample inputs *)
(* ================================================================== *)

Lemma C1_percentage_rule_witness :
  let records := [linesRecord (JsString.lit "src/a.ts") 7 3] in
  let t := Z.of_nat (countLines records) in
  let c := Z.of_nat (countHitLines records) in
  (t < 2 ^ 32 /\ 0 < t /\ ~ isTie c t)
  /\ pct (r_lines (lcovToCoverageReport records))
     = JsNumber.div (JsNumber.of_Z 7000) (JsNumber.of_Z 100)
  /\ pct (r_functions (lcovToCoverageReport records)) = JsNumber.zero.
Proof.
  intros records t c.
  assert (Ht : t < 2 ^ 32) by reflexivity.
  assert (Hpos : 0 < t) by reflexivity.
  assert (Htie : ~ isTie c t) by (vm_compute; discriminate).
  destruct (C1_percentage_rule records) as (General & Lines & _).
  destruct (Lines Ht) as (_ & _ & Rule).
  destruct (Rule Hpos Htie) as (Rl & _).
  destruct (General (r_functions (lcovToCoverageReport records)))
    as (Guard & _); [simpl; auto|].
  split; [split; [exact Ht|split; [exact Hpos|exact Htie]]|].
  split; [exact Rl|]. apply Guard. reflexivity.
Defined.

Lemma C2_one_record_per_block_witness :
  (Forall (fun ln => isSF ln = false) ([] : list jsstring)
   /\ Forall wellFormed [blockA; blockB]
   /\ JsString.split JsString.newline twoBlocksText
      = [] ++ flat_map blockLines [blockA; blockB])
  /\ List.length (parseLcovData twoBlocksText) = 2%nat
  /\ Forall2 recordOf [blockA; blockB] (parseLcovData twoBlocksText).
Proof.
  assert (H1 : Forall (fun ln => isSF ln = false) ([] : list jsstring))
    by constructor.
  assert (H2 : Forall wellFormed [blockA; blockB]).
  { repeat constructor; try (vm_compute; reflexivity);
      vm_compute; discriminate. }
  assert (H3 : JsString.split JsString.newline twoBlocksText
               = [] ++ flat_map blockLines [blockA; blockB])
    by (vm_compute; reflexivity).
  split; [split; [exact H1|split; [exact H2|exact H3]]|].
  exact (@C2_one_record_per_block [] [blockA; blockB] twoBlocksText H1 H2 H3).
Defined.

Lemma C3_aggregate_is_additive_witness :
  let records := sharedPathRecords in
  (Forall countersOk records
   /\ Z.of_nat (countLines records) < 2 ^ 53
   /\ Forall (fun r => sourceFile r <> total_) records)
  /\ total (r_lines (lcovToCoverageReport records))
     = sumOver (fun r => total (r_lines (lcovToCoverageReport [r]))) records
  /\ total (r_lines (lcovToCoverageReport records)) = JsNumber.of_Z 7
  /\ JsObject.get (lcovToJsonSummary records) total_
     = Some (lcovToCoverageReport records).
Proof.
  intros records.
  assert (H1 : Forall countersOk records)
    by (repeat constructor; vm_compute; discriminate).
  assert (H2 : Forall (fun r => sourceFile r <> total_) records)
    by (repeat constructor; vm_compute; discriminate).
  assert (H3 : Z.of_nat (countLines records) < 2 ^ 53)
    by (vm_compute; reflexivity).
  destruct (@C3_aggregate_is_additive records H1)
    as (A & _ & _ & _ & _ & _ & _ & _ & X & T).
  destruct (X H3) as (S & _).
  split; [split; [exact H1|split; [exact H3|exact H2]]|].
  split; [exact A|]. split; [exact S|exact (T H2)].
Defined.

Lemma C4_loaders_diverge_on_failure_witness :
  let cwd := JsString.lit "/work" in
  let lcovPath := JsString.lit "coverage/lcov.info" in
  let err := ErrorObject (JsString.lit "Error: ENOENT") in
  noSuchFile (joinPath cwd lcovPath) = inl err
  /\ parseBunLcovSummary cwd joinPath noSuchFile lcovPath
     = ([setFailed lcovPath (stackOf err)], inl err)
  /\ parseBunLcovFinal cwd joinPath noSuchFile lcovPath
     = ([warning lcovPath (stackOf err)], inr JsObject.empty).
Proof.
  intros cwd lcovPath err.
  assert (H : noSuchFile (joinPath cwd lcovPath) = inl err) by reflexivity.
  split; [exact H|].
  exact (@C4_loaders_diverge_on_failure cwd joinPath noSuchFile lcovPath err H).
Defined.

Lemma C5_only_closed_records_are_output_witness :
  (let r := nth 1 (parseLcovData twoBlocksText) (newRecord []) in
   In r (parseLcovData twoBlocksText)
   /\ closedIn (JsString.split JsString.newline twoBlocksText) r)
  /\ (let lns := [JsString.lit "SF:src/a.ts"; JsString.lit "DA:1,1"] in
      Forall (fun ln => isEnd ln = false) lns
      /\ fst (parseLines lns ([], None)) = [])
  /\ (let ln := JsString.lit "SF:src/b.ts" in
      let cur := Some (fiveNine (JsString.lit "src/a.ts")) in
      isSF ln = true
      /\ parseLine ([], cur) ln
         = ([], Some (newRecord (JsString.substring 3 (JsString.trim ln))))).
Proof.
  destruct C5_only_closed_records_are_output as (P1 & P2 & P3).
  split; [|split].
  - intros r.
    assert (H : In r (parseLcovData twoBlocksText))
      by (vm_compute; right; left; reflexivity).
    split; [exact H|]. exact (P1 twoBlocksText r H).
  - intros lns.
    assert (H : Forall (fun ln => isEnd ln = false) lns)
      by (repeat constructor).
    split; [exact H|]. exact (P2 [] None lns H).
  - intros ln cur.
    assert (H : isSF ln = true) by (vm_compute; reflexivity).
    split; [exact H|]. exact (P3 [] cur ln H).
Defined.

Lemma C6_final_map_entry_witness :
  let record := fiveNine (JsString.lit "src/a.ts") in
  let post := [fiveNine (JsString.lit "src/b.ts")] in
  exists entry,
    (sourceFile record <> JsObject.proto_
     /\ Forall (fun r' => sourceFile r' <> sourceFile record) post
     /\ nth_error (lines record) 1 = Some (lineHit 9 0))
    /\ JsObject.get (lcovToJsonFinal ([] ++ record :: post))
         (sourceFile record) = Some entry
    /\ JsObject.get (statementMap entry) (JsString.String 1)
       = Some {| start := {| p_line := JsNumber.of_Z 9;
                             column := JsNumber.of_Z 0 |};
                 end_ := {| p_line := JsNumber.of_Z 9;
                            column := JsNumber.of_Z 100 |} |}
    /\ JsObject.get (s entry) (JsString.String 1) = Some (JsNumber.of_Z 0).
Proof.
  intros record post.
  assert (H0 : sourceFile record <> JsObject.proto_)
    by (vm_compute; discriminate).
  destruct (@C6_final_map_entry [] record H0)
    as (entry & _ & Hpost & _ & _ & _ & _ & Hids).
  exists entry.
  assert (H1 : Forall (fun r' => sourceFile r' <> sourceFile record) post)
    by (repeat constructor; vm_compute; discriminate).
  assert (H2 : nth_error (lines record) 1 = Some (lineHit 9 0))
    by reflexivity.
  destruct (Hids 1%nat (lineHit 9 0) H2) as (Hm & Hs).
  split; [split; [exact H0|split; [exact H1|exact H2]]|].
  split; [exact (Hpost post H1)|]. split; [exact Hm|exact Hs].
Defined.

Lemma C7_summary_entries_witness :
  let records := sharedPathRecords in
  let last := linesRecord (JsString.lit "src/a.ts") 0 3 in
  (records = firstn 2 records ++ last :: []
   /\ Forall (fun r' => sourceFile r' <> sourceFile last) ([] : list LcovRecord)
   /\ Forall (fun r => sourceFile r <> total_) records
   /\ Forall ordinaryName (map sourceFile records)
   /\ sourceFile last <> JsObject.proto_)
  /\ JsObject.keys (lcovToJsonSummary records)
     = [total_; JsString.lit "src/a.ts"; JsString.lit "src/b.ts"]
  /\ JsObject.get (lcovToJsonSummary records) (sourceFile last)
     = Some (lcovToCoverageReport [last])
  /\ JsObject.get (lcovToJsonSummary records) total_
     = Some (lcovToCoverageReport records).
Proof.
  intros records last.
  assert (H1 : records = firstn 2 records ++ last :: []) by reflexivity.
  assert (H2 : Forall (fun r' => sourceFile r' <> sourceFile last)
                 ([] : list LcovRecord)) by constructor.
  assert (H3 : Forall (fun r => sourceFile r <> total_) records)
    by (repeat constructor; vm_compute; discriminate).
  assert (H4 : Forall ordinaryName (map sourceFile records)).
  { repeat constructor; first [vm_compute; discriminate
                              |vm_compute; reflexivity]. }
  assert (H5 : sourceFile last <> JsObject.proto_)
    by (vm_compute; discriminate).
  destruct (C7_summary_entries records) as (_ & Hord & Hlast & Htotal).
  destruct (Hord H4) as (_ & Hkeys & _).
  split; [split; [exact H1|split; [exact H2|split; [exact H3|
            split; [exact H4|exact H5]]]]|].
  split; [rewrite Hkeys; reflexivity|].
  split; [exact (Hlast (firstn 2 records) last [] H1 H2 H5)
         |exact (Htotal H3)].
Defined.

Lemma C8_parser_total_and_tolerant_witness :
  (let junk := JsString.lit "  TN:some test  " in
   let pre := firstn 3 (JsString.split JsString.newline sampleText) in
   let post := skipn 3 (JsString.split JsString.newline sampleText) in
   (JsString.split JsString.newline sampleText = pre ++ post
    /\ JsString.split JsString.newline (unlines (pre ++ junk :: post))
       = pre ++ junk :: post
    /\ ignorable junk = true)
   /\ parseLcovData (unlines (pre ++ junk :: post))
      = parseLcovData sampleText)
  /\ (let ln := JsString.lit "DA:7,1" in
      isDA ln || isCounter ln = true
      /\ parseLine ([], None) ln = ([], None)).
Proof.
  destruct C8_parser_total_and_tolerant as (_ & Insert & Outside).
  split.
  - intros junk pre post.
    assert (H1 : JsString.split JsString.newline sampleText = pre ++ post)
      by (vm_compute; reflexivity).
    assert (H2 : JsString.split JsString.newline
                   (unlines (pre ++ junk :: post)) = pre ++ junk :: post)
      by (vm_compute; reflexivity).
    assert (H3 : ignorable junk = true) by (vm_compute; reflexivity).
    split; [split; [exact H1|split; [exact H2|exact H3]]|].
    exact (Insert sampleText (unlines (pre ++ junk :: post))
             pre junk post H1 H2 H3).
  - intros ln.
    assert (H : isDA ln || isCounter ln = true) by (vm_compute; reflexivity).
    split; [exact H|]. exact (Outside [] ln H).
Defined.

(* ================================================================== *)
(** * More about the record parser *)
(* ================================================================== *)

(** ** Trimming *)

Lemma trimStart_idem str :
  JsString.trimStart (JsString.trimStart str) = JsString.trimStart str.
Proof.
  induction str as [|c str IH]; [reflexivity|].
  simpl. destruct (JsString.is_space c) eqn:E; [exact IH|].
  simpl. now rewrite E.
Qed.

Lemma trimStart_snoc str c :
  JsString.is_space c = false ->
  exists str', JsString.trimStart (str ++ [c]) = str' ++ [c].
Proof.
  intros Hc. induction str as [|c0 str IH]; simpl.
  - rewrite Hc. now exists [].
  - destruct (JsString.is_space c0); [exact IH|].
    now exists (c0 :: str).
Qed.

(** Trimming the end of a string that starts with no space keeps its
    first code unit. *)
Lemma trimEnd_head c str :
  JsString.is_space c = false ->
  exists str', JsString.trimEnd (c :: str) = c :: str'.
Proof.
  intros Hc. unfold JsString.trimEnd. simpl rev.
  destruct (@trimStart_snoc (rev str) c Hc) as (str' & ->).
  rewrite rev_app_distr. simpl. now exists (rev str').
Qed.

Lemma trimEnd_idem str :
  JsString.trimEnd (JsString.trimEnd str) = JsString.trimEnd str.
Proof.
  unfold JsString.trimEnd. now rewrite rev_involutive, trimStart_idem.
Qed.

Lemma trim_idem str : JsString.trim (JsString.trim str) = JsString.trim str.
Proof.
  unfold JsString.trim.
  assert (H : JsString.trimStart (JsString.trimEnd (JsString.trimStart str))
              = JsString.trimEnd (JsString.trimStart str)).
  { pose proof (trimStart_idem str) as I.
    destruct (JsString.trimStart str) as [|c t] eqn:E; [reflexivity|].
    simpl in I. destruct (JsString.is_space c) eqn:Ec.
    - (* the head of a left-trimmed string is no space *)
      exfalso. clear I.
      assert (G : forall s0 c0 t0, JsString.trimStart s0 = c0 :: t0 ->
                                  JsString.is_space c0 = false).
      { induction s0 as [|a s0 IH0]; simpl; intros c0 t0 H0; [discriminate|].
        destruct (JsString.is_space a) eqn:Ea; [eauto|].
        injection H0 as <- _. exact Ea. }
      rewrite (G str c t E) in Ec. discriminate.
    - destruct (@trimEnd_head c t Ec) as (t' & ->). simpl. now rewrite Ec. }
  rewrite H. apply trimEnd_idem.
Qed.

(** A carriage return (or any white space) at the end of a line is
    trimmed away. *)
Lemma trim_snoc_space str c :
  JsString.is_space c = true ->
  JsString.trim (str ++ [c]) = JsString.trim str.
Proof.
  intros Hc. unfold JsString.trim.
  assert (H : JsString.trimStart (str ++ [c]) = []
              /\ JsString.trimStart str = []
              \/ JsString.trimStart (str ++ [c])
                 = JsString.trimStart str ++ [c]).
  { induction str as [|a str IH]; simpl.
    - rewrite Hc. now left.
    - destruct (JsString.is_space a); [exact IH|now right]. }
  destruct H as [[E1 E2] | E]; [now rewrite E1, E2|rewrite E].
  unfold JsString.trimEnd. rewrite rev_app_distr. simpl. now rewrite Hc.
Qed.

Lemma parseLine_trim st ln : parseLine st (JsString.trim ln) = parseLine st ln.
Proof. unfold parseLine. now rewrite trim_idem. Qed.

Lemma parseLines_trim lns : forall st,
  parseLines (map JsString.trim lns) st = parseLines lns st.
Proof.
  induction lns as [|ln lns IH]; intros st; [reflexivity|].
  unfold parseLines in *. simpl. now rewrite parseLine_trim, IH.
Qed.

Lemma unlines_no_newline lns :
  Forall (fun ln => ~ In JsString.newline ln) lns ->
  JsString.split JsString.newline (unlines lns)
  = match lns with [] => [[]] | _ :: _ => lns end.
Proof.
  intros H. destruct lns as [|ln lns]; [reflexivity|].
  apply split_unlines; [discriminate|assumption].
Qed.

(** X1. Only the trimmed lines of a text matter: two texts whose lines
    are equal once trimmed parse to the same records. In particular a
    text with CRLF line ends parses like the same text with LF ends. *)
Theorem X1_only_trimmed_lines_matter :
  (forall text text' : jsstring,
      map JsString.trim (JsString.split JsString.newline text)
      = map JsString.trim (JsString.split JsString.newline text') ->
      parseLcovData text' = parseLcovData text)
  /\ (forall lns : list jsstring,
        Forall (fun ln => ~ In JsString.newline ln) lns ->
        parseLcovData (unlines (map (fun ln => ln ++ [13%N]) lns))
        = parseLcovData (unlines lns)).
Proof.
  assert (Main : forall text text' : jsstring,
      map JsString.trim (JsString.split JsString.newline text)
      = map JsString.trim (JsString.split JsString.newline text') ->
      parseLcovData text' = parseLcovData text).
  { intros text text' H. unfold parseLcovData.
    rewrite <- (parseLines_trim (JsString.split _ text')).
    rewrite <- (parseLines_trim (JsString.split _ text)).
    now rewrite H. }
  split; [exact Main|].
  intros lns H. apply Main.
  rewrite !unlines_no_newline.
  - destruct lns as [|ln lns]; [reflexivity|].
    cbn [map]. rewrite map_map. f_equal.
    + symmetry. now apply trim_snoc_space.
    + apply map_ext. intros a. symmetry. now apply trim_snoc_space.
  - apply Forall_map. eapply Forall_impl; [|exact H].
    intros a Ha C. apply in_app_or in C. destruct C as [C|[C|[]]];
      [exact (Ha C)|discriminate C].
  - exact H.
Qed.

(** ** The lines of a record, one by one *)

(** What a line that neither opens nor closes a record does to the open
    record: each field is touched by its own directive only. *)
Lemma parseLine_body records r ln :
  isSF ln = false -> isEnd ln = false ->
  parseLine (records, Some r) ln
  = (records,
     Some {| sourceFile := sourceFile r;
             lines := lines r ++
               (if isDA ln then [daEntry (JsString.trim ln)] else []);
             functions :=
               {| found := if isFNF ln then intAfter 4 (JsString.trim ln)
                           else found (functions r);
                  hits := if isFNH ln then intAfter 4 (JsString.trim ln)
                          else hits (functions r) |};
             branches :=
               {| found := if isBRF ln then intAfter 4 (JsString.trim ln)
                           else found (branches r);
                  hits := if isBRH ln then intAfter 4 (JsString.trim ln)
                          else hits (branches r) |} |}).
Proof.
  destruct r as [sf ls [ff fh] [bf bh]].
  unfold parseLine, onCurrent, isSF, isEnd, isDA, isFNF, isFNH, isBRF, isBRH.
  intros HSF HE.
  destruct (JsString.trim ln) as [|c0 [|c1 [|c2 t]]] eqn:T;
    try (cbn; now rewrite app_nil_r).
  - rewrite HE. cbn. rewrite ?andb_false_r. cbn. now rewrite app_nil_r.
  - rewrite HE. cbn. rewrite ?andb_false_r. cbn. now rewrite app_nil_r.
  - rewrite HSF, HE. clear HSF HE T.
    cbn [JsString.startsWith DA_ FNF_ FNH_ BRF_ BRH_ fst snd
         setFunctions setBranches pushLine sourceFile lines functions
         branches found hits].
    repeat match goal with
      | |- context [N.eqb ?c ?k] =>
          is_var c; destruct (N.eqb_spec c k); [subst c|]; cbn [andb N.eqb Pos.eqb]
      end;
    repeat match goal with
      | |- context [JsString.startsWith ?a ?b] =>
          destruct (JsString.startsWith a b)
      end;
    cbn [andb]; rewrite ?app_nil_r; try reflexivity; try congruence.
Qed.

Lemma parseLines_body lns : forall records r,
  Forall inBody lns ->
  parseLines lns (records, Some r)
  = (records,
     Some {| sourceFile := sourceFile r;
             lines := lines r ++
               map (fun ln => daEntry (JsString.trim ln)) (filter isDA lns);
             functions :=
               {| found := lastIntFrom isFNF (found (functions r)) lns;
                  hits := lastIntFrom isFNH (hits (functions r)) lns |};
             branches :=
               {| found := lastIntFrom isBRF (found (branches r)) lns;
                  hits := lastIntFrom isBRH (hits (branches r)) lns |} |}).
Proof.
  induction lns as [|ln lns IH]; intros records r H.
  - destruct r as [sf ls [ff fh] [bf bh]]. cbn. now rewrite app_nil_r.
  - inversion H as [|? ? [H1 H2] Hrest]; subst.
    unfold parseLines in *. cbn [fold_left].
    rewrite parseLine_body by assumption. rewrite IH by assumption.
    cbn [sourceFile lines functions branches found hits].
    unfold lastIntFrom. cbn [fold_left filter].
    destruct (isDA ln); cbn [map app]; rewrite <- ?app_assoc; reflexivity.
Qed.

Lemma parseLines_block_record b records :
  wellFormed b ->
  parseLines (blockLines b) (records, None)
  = (records ++ [blockRecord b], None).
Proof.
  intros (Hopen & Hpath & Hbody & Hclose & Hafter).
  unfold blockLines.
  change (b_open b :: ?l) with ([b_open b] ++ l).
  rewrite parseLines_app.
  change (parseLines [b_open b] ?st) with (parseLine st (b_open b)).
  rewrite parseLine_SF by assumption. cbn [fst].
  rewrite parseLines_app. fold (blockPath b).
  rewrite parseLines_body by assumption.
  change (b_close b :: ?l) with ([b_close b] ++ l).
  rewrite parseLines_app.
  change (parseLines [b_close b] ?st) with (parseLine st (b_close b)).
  rewrite parseLine_end by assumption. cbn [fst snd sourceFile newRecord].
  destruct (blockPath b) eqn:P; [congruence|].
  rewrite parseLines_closed by assumption.
  unfold blockRecord, blockEntries. rewrite P. reflexivity.
Qed.

Lemma parseLines_block_records blocks : forall records,
  Forall wellFormed blocks ->
  parseLines (flat_map blockLines blocks) (records, None)
  = (records ++ map blockRecord blocks, None).
Proof.
  induction blocks as [|b blocks IH]; intros records H.
  - cbn. now rewrite app_nil_r.
  - inversion H; subst. cbn [flat_map map].
    rewrite parseLines_app, parseLines_block_record by assumption.
    rewrite IH by assumption. now rewrite <- app_assoc.
Qed.

(** X2. On a text made of well-formed blocks the parser is fully
    determined: the records are, in order, one for each block, with the
    block's path, the entries of its [DA:] lines in order, and for each of
    [FNF:], [FNH:], [BRF:], [BRH:] the number of the last such line of the
    block, or 0 when the block has none. *)
Theorem X2_records_of_blocks :
  forall (lead : list jsstring) (blocks : list Block) (text : jsstring),
    Forall (fun ln => isSF ln = false) lead ->
    Forall wellFormed blocks ->
    JsString.split JsString.newline text
    = lead ++ flat_map blockLines blocks ->
    parseLcovData text = map blockRecord blocks.
Proof.
  intros lead blocks text Hlead Hblocks E.
  unfold parseLcovData. rewrite E, parseLines_app.
  rewrite parseLines_closed by assumption.
  now rewrite parseLines_block_records.
Qed.

(** ** Counting and concatenating *)

Lemma isEnd_false_of_SF ln : isSF ln = true -> isEnd ln = false.
Proof.
  intros H. destruct (isEnd ln) eqn:E; [|reflexivity].
  apply isEnd_not_SF in E. congruence.
Qed.

Lemma parseLine_cases st ln :
  (isSF ln = true
   /\ parseLine st ln
      = (fst st, Some (newRecord (JsString.substring 3 (JsString.trim ln)))))
  \/ (isSF ln = false /\ isEnd ln = true
      /\ snd (parseLine st ln) = None
      /\ exists out, fst (parseLine st ln) = fst st ++ out
                     /\ (List.length out <= isOpen st)%nat
                     /\ (forall records, fst (parseLine (records, snd st) ln)
                                         = records ++ out))
  \/ (isSF ln = false /\ isEnd ln = false
      /\ fst (parseLine st ln) = fst st
      /\ isOpen (parseLine st ln) = isOpen st
      /\ forall records, parseLine (records, snd st) ln
                         = (records, snd (parseLine st ln))).
Proof.
  destruct (isSF ln) eqn:HSF; [left; split; [reflexivity|]; now apply parseLine_SF|].
  right. destruct (isEnd ln) eqn:HE.
  - left. repeat (split; [reflexivity|]).
    rewrite parseLine_end by assumption. split; [reflexivity|].
    destruct st as [records [r|]]; cbn [fst snd isOpen].
    + destruct (sourceFile r) eqn:Hs.
      * exists []. rewrite app_nil_r. repeat split; [cbn; lia|].
        intros records'. rewrite parseLine_end by assumption.
        cbn. now rewrite Hs, app_nil_r.
      * exists [r]. repeat split; [cbn; lia|].
        intros records'. rewrite parseLine_end by assumption.
        cbn. now rewrite Hs.
    + exists []. rewrite app_nil_r. repeat split; [cbn; lia|].
      intros records'. rewrite parseLine_end by assumption.
      cbn. now rewrite app_nil_r.
  - right. repeat (split; [reflexivity|]).
    destruct st as [records [r|]]; cbn [fst snd].
    + rewrite !parseLine_body by assumption. repeat split.
      intros records'. now rewrite parseLine_body.
    + rewrite parseLine_closed by assumption. repeat split.
      intros records'. now rewrite parseLine_closed.
Qed.

Lemma parseLines_count lns : forall st,
  (List.length (fst (parseLines lns st))
   <= List.length (fst st) + List.length (filter isEnd lns))%nat
  /\ (List.length (fst (parseLines lns st)) + isOpen (parseLines lns st)
      <= List.length (fst st) + isOpen st
         + List.length (filter isSF lns))%nat.
Proof.
  induction lns as [|ln lns IH]; intros st; [cbn; lia|].
  unfold parseLines in *. cbn [fold_left filter].
  destruct (IH (parseLine st ln)) as [I1 I2].
  destruct (parseLine_cases st ln)
    as [(HSF & E)|[(HSF & HE & _ & out & E & Hout & _)|(HSF & HE & E & O & _)]].
  - rewrite HSF. rewrite (isEnd_false_of_SF ln HSF).
    rewrite E in *. cbn [fst snd isOpen List.length] in *. lia.
  - rewrite HSF, HE. cbn [List.length].
    assert (O : (isOpen (parseLine st ln) = 0)%nat).
    { unfold isOpen. rewrite parseLine_end by assumption. reflexivity. }
    assert (B : (isOpen st <= 1)%nat)
      by (unfold isOpen; destruct (snd st); lia).
    rewrite E, length_app in *. lia.
  - rewrite HSF, HE. rewrite E, O in *. lia.
Qed.

(** X3. The parser never outputs more records than the text has
    [end_of_record] lines, nor more than it has [SF:] lines. *)
Theorem X3_records_bounded_by_markers :
  forall text : jsstring,
    let lns := JsString.split JsString.newline text in
    (List.length (parseLcovData text) <= List.length (filter isEnd lns))%nat
    /\ (List.length (parseLcovData text)
        <= List.length (filter isSF lns))%nat.
Proof.
  intros text lns. unfold parseLcovData. fold lns.
  destruct (parseLines_count lns ([], None)) as [H1 H2].
  cbn [fst snd isOpen List.length] in *. lia.
Qed.

(** The records already output only ever get more records appended. *)
Lemma parseLines_prefix lns : forall records cur,
  parseLines lns (records, cur)
  = (records ++ fst (parseLines lns ([], cur)),
     snd (parseLines lns ([], cur))).
Proof.
  induction lns as [|ln lns IH]; intros records cur.
  - cbn. now rewrite app_nil_r.
  - unfold parseLines in *. cbn [fold_left].
    destruct (parseLine_cases ([], cur) ln)
      as [(HSF & E)|[(HSF & HE & N & out & E & _ & P)|(HSF & HE & E & _ & P)]].
    + rewrite E. rewrite (parseLine_SF (records, cur) ln HSF).
      cbn [fst]. apply IH.
    + cbn [snd fst] in *.
      destruct (parseLine ([], cur) ln) as [f1 c1] eqn:E1.
      cbn [fst snd app] in *. subst c1 f1.
      assert (E2 : parseLine (records, cur) ln = (records ++ out, None)).
      { rewrite parseLine_end by assumption.
        f_equal. rewrite <- (P records).
        now rewrite parseLine_end by assumption. }
      rewrite E2. rewrite (IH (records ++ out) None), (IH out None).
      cbn [fst snd]. now rewrite app_assoc.
    + cbn [snd fst] in *. rewrite (P records).
      destruct (parseLine ([], cur) ln) as [f1 c1] eqn:E1.
      cbn [fst snd] in *. subst f1.
      apply IH.
Qed.

(** X4. Parsing is stable under appending: the records of a text stay,
    in place, the first records of the text continued by more lines; and
    when the text ends with no record open, the records of the two texts
    joined by a newline are those of the first followed by those of the
    second. *)
Theorem X4_concatenated_texts :
  forall a b : jsstring,
    (exists more,
        parseLcovData (a ++ JsString.newline :: b) = parseLcovData a ++ more)
    /\ (snd (parseLines (JsString.split JsString.newline a) ([], None)) = None
        -> parseLcovData (a ++ JsString.newline :: b)
           = parseLcovData a ++ parseLcovData b).
Proof.
  intros a b. unfold parseLcovData.
  rewrite split_app, parseLines_app.
  destruct (parseLines (JsString.split JsString.newline a) ([], None))
    as [records cur] eqn:E.
  rewrite parseLines_prefix. cbn [fst snd]. split.
  - eexists. reflexivity.
  - intros ->. reflexivity.
Qed.

(** ** Reading a [DA:] line back *)

Lemma of_uint_no_comma d : ~ In JsString.comma (JsString.of_uint d).
Proof.
  induction d; cbn [JsString.of_uint In]; [tauto|..]; intros [H|H];
    try discriminate H; auto.
Qed.

(** A string that starts with a digit is read as the integer its digits
    spell. *)
Lemma parseInt_digit_led c str :
  JsNumber.is_digit c = true ->
  JsNumber.parseInt (Some (c :: str))
  = JsNumber.of_Z (JsNumber.digits_value 0 (c :: str)).
Proof.
  intros H.
  assert (K : JsNumber.parseInt (Some (c :: str))
              = if JsNumber.digits_value 0 (c :: str) =? 0
                then S754_zero false
                else JsNumber.of_Z (JsNumber.digits_value 0 (c :: str))).
  { unfold JsNumber.is_digit in H. apply andb_true_iff in H.
    destruct H as [L U]. apply N.leb_le in L. apply N.leb_le in U.
    assert (D : (c = 48 \/ c = 49 \/ c = 50 \/ c = 51 \/ c = 52 \/ c = 53
                 \/ c = 54 \/ c = 55 \/ c = 56 \/ c = 57)%N) by lia.
    repeat (destruct D as [D|D]; [subst c; reflexivity|]).
    subst c; reflexivity. }
  rewrite K. destruct (Z.eqb_spec (JsNumber.digits_value 0 (c :: str)) 0) as [E|_];
    [now rewrite E|reflexivity].
Qed.

(** [parseInt] of a number written by [String], whatever non-digit
    follows. *)
Lemma parseInt_String n rest :
  JsNumber.has_digit rest = false ->
  JsNumber.parseInt (Some (JsString.String n ++ rest)) = JsNumber.of_nat n.
Proof.
  intros H. destruct (to_uint_digit_led n) as (c & str & E & Hc).
  pose proof (@digits_value_of_uint (Nat.to_uint n) 0%nat rest H) as V.
  fold (JsString.String n) in V. change (Z.of_nat 0) with 0 in V.
  rewrite E in *. cbn [app] in *. rewrite parseInt_digit_led by assumption.
  unfold JsNumber.of_nat. f_equal.
  etransitivity; [exact V|]. f_equal.
  apply DecimalNat.Unsigned.of_to.
Qed.

Lemma split_head sep a : forall b,
  ~ In sep a ->
  JsString.split sep (a ++ b)
  = (a ++ hd [] (JsString.split sep b)) :: tl (JsString.split sep b).
Proof.
  induction a as [|c a IH]; intros b H.
  - cbn [app]. destruct (JsString.split sep b) eqn:E; [|reflexivity].
    now apply split_nonempty in E.
  - cbn [app JsString.split].
    destruct (N.eqb_spec c sep) as [->|_]; [cbn in H; tauto|].
    rewrite IH by (cbn in H; tauto). reflexivity.
Qed.

Lemma has_digit_first_piece sep rest :
  JsNumber.has_digit rest = false ->
  JsNumber.has_digit (hd [] (JsString.split sep rest)) = false.
Proof.
  destruct rest as [|c rest]; [reflexivity|].
  cbn [JsString.split JsNumber.has_digit]. intros H.
  destruct (N.eqb c sep); [reflexivity|].
  destruct (JsString.split sep rest); exact H.
Qed.

(** A positive integer is greater than 0 as a number, and 0 is not. *)
Lemma gt_of_nat n :
  JsNumber.gt (JsNumber.of_nat n) JsNumber.zero = (0 <? n)%nat.
Proof.
  destruct n as [|n]; [reflexivity|].
  unfold JsNumber.of_nat, JsNumber.of_Z, binary_normalize.
  change (Z.of_nat (S n)) with (Z.pos (Pos.of_succ_nat n)).
  pose proof (@Binary64.binary_round_nonzero false (Pos.of_succ_nat n) 0
                ltac:(lia)) as H.
  destruct (binary_round JsNumber.prec JsNumber.emax false
              (Pos.of_succ_nat n) 0) as [| s | | s m e];
    try contradiction.
  - subst s. reflexivity.
  - destruct H as [-> _]. reflexivity.
Qed.

Lemma trimStart_keeps x c y :
  JsString.is_space c = false ->
  JsString.trimStart (x ++ c :: y) = JsString.trimStart x ++ c :: y.
Proof.
  intros Hc. induction x as [|a x IH]; cbn [app JsString.trimStart].
  - now rewrite Hc.
  - destruct (JsString.is_space a); [exact IH|reflexivity].
Qed.

(** White space is trimmed from the end up to the last code unit that
    is none. *)
Lemma trimEnd_keeps a c rest :
  JsString.is_space c = false ->
  JsString.trimEnd (a ++ c :: rest) = a ++ c :: JsString.trimEnd rest.
Proof.
  intros Hc. unfold JsString.trimEnd.
  rewrite rev_app_distr. cbn [rev]. rewrite <- app_assoc. cbn [app].
  rewrite trimStart_keeps by assumption.
  rewrite rev_app_distr. cbn [rev]. rewrite rev_involutive.
  now rewrite <- app_assoc.
Qed.

Lemma trimStart_suffix x : exists pre, x = pre ++ JsString.trimStart x.
Proof.
  induction x as [|a x [pre IH]]; [now exists []|].
  cbn [JsString.trimStart]. destruct (JsString.is_space a).
  - exists (a :: pre). cbn [app]. now rewrite <- IH.
  - now exists [].
Qed.

Lemma has_digit_trimEnd rest :
  JsNumber.has_digit rest = false ->
  JsNumber.has_digit (JsString.trimEnd rest) = false.
Proof.
  destruct rest as [|c rest]; [reflexivity|]. intros H.
  unfold JsString.trimEnd.
  destruct (trimStart_suffix (rev (c :: rest))) as [pre E].
  destruct (JsString.trimStart (rev (c :: rest))) as [|b t _] using rev_ind;
    [reflexivity|].
  rewrite rev_app_distr. cbn [rev app].
  cbn [rev] in E. rewrite app_assoc in E.
  apply app_inj_tail in E. destruct E as [_ <-]. exact H.
Qed.

Lemma of_uint_last d :
  d <> Decimal.Nil ->
  exists a c, JsString.of_uint d = a ++ [c] /\ JsString.is_space c = false.
Proof.
  induction d; intros N; [now destruct N|..];
    cbn [JsString.of_uint];
    (destruct (Decimal.uint_eq_dec d Decimal.Nil) as [->|Hd];
     [eexists []; eexists; split; reflexivity|
      destruct (IHd Hd) as (a & c & -> & Hc);
      eexists (_ :: a); exists c; split; [reflexivity|exact Hc]]).
Qed.

Lemma String_last n :
  exists a c, JsString.String n = a ++ [c] /\ JsString.is_space c = false.
Proof.
  apply of_uint_last. intros E.
  pose proof (DecimalNat.Unsigned.of_to n) as H. rewrite E in H.
  cbn in H. subst n. discriminate E.
Qed.

Lemma trim_daLine n h rest :
  JsString.trim (daLine n h rest) = daLine n h (JsString.trimEnd rest).
Proof.
  unfold JsString.trim, daLine.
  change (JsString.trimStart (DA_ ++ ?x)) with (DA_ ++ x).
  destruct (String_last h) as (a & c & E & Hc). rewrite E.
  replace (DA_ ++ JsString.String n ++ JsString.comma :: (a ++ [c]) ++ rest)
    with ((DA_ ++ JsString.String n ++ JsString.comma :: a) ++ c :: rest).
  2:{ repeat first [rewrite <- app_assoc | progress cbn [app]]. reflexivity. }
  rewrite trimEnd_keeps by assumption.
  repeat first [rewrite <- app_assoc | progress cbn [app]]. reflexivity.
Qed.

Lemma daEntry_daLine n h rest :
  JsNumber.has_digit rest = false ->
  daEntry (daLine n h rest)
  = {| line := JsNumber.of_nat n; hit := JsNumber.of_nat h |}.
Proof.
  intros H. unfold daEntry, daLine.
  change (JsString.substring 3 (DA_ ++ ?x)) with x.
  rewrite split_app.
  rewrite (@split_no_sep JsString.comma (JsString.String n))
    by apply of_uint_no_comma.
  rewrite (@split_head JsString.comma (JsString.String h) rest)
    by apply of_uint_no_comma.
  cbn [app nth_error].
  rewrite <- (app_nil_r (JsString.String n)) at 1.
  rewrite !parseInt_String;
    [reflexivity|now apply has_digit_first_piece|reflexivity].
Qed.

(** X5. A [DA:] line written with the line number and the hit count in
    decimal reads back as these two numbers, whatever follows the count
    (a checksum after a second comma, say) as long as it does not go on
    with a digit: inside a record the parser appends exactly that entry
    to the lines. The entry counts as hit exactly when the count is not
    0. *)
Theorem X5_da_line_reads_back :
  forall (lineNumber hitCount : nat) (rest : jsstring),
    JsNumber.has_digit rest = false ->
    let entry := {| line := JsNumber.of_nat lineNumber;
                    hit := JsNumber.of_nat hitCount |} in
    daEntry (daLine lineNumber hitCount rest) = entry
    /\ (forall records r,
          parseLine (records, Some r) (daLine lineNumber hitCount rest)
          = (records, Some (pushLine r entry)))
    /\ JsNumber.gt (hit entry) JsNumber.zero = (0 <? hitCount)%nat.
Proof.
  intros n h rest H entry.
  split; [now apply daEntry_daLine|]. split; [|apply gt_of_nat].
  intros records r. unfold parseLine. rewrite trim_daLine.
  unfold entry.
  rewrite <- (@daEntry_daLine n h (JsString.trimEnd rest))
    by now apply has_digit_trimEnd.
  unfold daLine.
  generalize (JsString.String n
              ++ JsString.comma :: JsString.String h ++ JsString.trimEnd rest).
  intros str. destruct str; reflexivity.
Qed.

(** X6. A [DA:] line without a comma has no hit count: the entry gets
    the number read before as its line and not-a-number as its count, is
    kept among the lines of the record, and never counts as hit. *)
Theorem X6_da_line_without_count :
  forall (records : list LcovRecord) (r : LcovRecord) (ln : jsstring),
    isDA ln = true ->
    ~ In JsString.comma (JsString.trim ln) ->
    let entry := {| line := intAfter 3 (JsString.trim ln);
                    hit := JsNumber.NaN |} in
    parseLine (records, Some r) ln = (records, Some (pushLine r entry))
    /\ hitLines (pushLine r entry) = hitLines r.
Proof.
  intros records r ln HDA Hc entry.
  assert (HSF : isSF ln = false) by now apply isDA_not_SF.
  assert (HE : isEnd ln = false).
  { destruct (isEnd ln) eqn:E; [|reflexivity].
    unfold isEnd in E. apply eqb_eq in E.
    unfold isDA in HDA. rewrite E in HDA. discriminate HDA. }
  split.
  - unfold parseLine. unfold isDA, isSF in *.
    destruct (JsString.trim ln) as [|c t] eqn:T; [discriminate HDA|].
    rewrite HSF, HDA. unfold onCurrent. cbn [fst snd]. do 3 f_equal.
    unfold daEntry, entry, intAfter.
    rewrite split_no_sep; [reflexivity|].
    intros C. apply Hc. unfold JsString.substring in C.
    revert C. generalize (c :: t). intros str C.
    rewrite <- (firstn_skipn 3 str). apply in_or_app. now right.
  - unfold hitLines, pushLine. cbn [lines]. rewrite filter_app.
    cbn [filter entry hit]. 
    change (JsNumber.gt JsNumber.NaN JsNumber.zero) with false.
    apply app_nil_r.
Qed.

(* ================================================================== *)
(** * More about the aggregator *)
(* ================================================================== *)

Module Hundredths.

Import JsNumber.

(** The number rounded by [Math.round] in the percentage of two
    integers: within four units of the last place of [10000 c / t]. *)
Lemma scaled_quotient c t :
  1 <= c < 2 ^ 32 -> 0 < t < 2 ^ 32 ->
  exists m e,
    mul (mul (div (of_Z c) (of_Z t)) hundred) hundred
    = S754_finite false m e
    /\ e < 0
    /\ ((1 - 4 * / 9007199254740992) * (10000 * IZR c)
        <= B2R (S754_finite false m e) * IZR t
        <= (1 + 4 * / 9007199254740992) * (10000 * IZR c))%R.
Proof.
  intros Hc Ht.
  destruct (@Binary64.of_Z_normal t ltac:(lia)) as (mt & Et & Bt & Rt).
  pose proof (@Binary64.Zdigits2_range t 0 32 ltac:(lia) ltac:(simpl; lia))
    as Dt.
  destruct (@Binary64.of_Z_normal c ltac:(lia)) as (mc & Ec & Bc & Rc).
  pose proof (@Binary64.Zdigits2_range c 0 32 ltac:(lia) ltac:(simpl; lia))
    as Dc.
  rewrite Ec, Et. rewrite Et in Rt. rewrite Ec in Rc.
  set (ec := Zdigits2 c - 53) in *. set (et := Zdigits2 t - 53) in *.
  destruct (@Binary64.div_normal mc ec mt et Bc Bt ltac:(lia) ltac:(lia))
    as (m1 & e1 & E1 & B1 & X1 & R1).
  rewrite E1. rewrite Rc, Rt in R1.
  rewrite Binary64.hundred_eq.
  destruct (@Binary64.mul_normal m1 e1 7036874417766400 (-46) B1 ltac:(lia)
              ltac:(lia) ltac:(lia))
    as (m2 & e2 & E2 & B2 & X2 & R2).
  rewrite E2.
  destruct (@Binary64.mul_normal m2 e2 7036874417766400 (-46) B2 ltac:(lia)
              ltac:(lia) ltac:(lia))
    as (m3 & e3 & E3 & B3 & X3 & R3).
  rewrite E3. rewrite <- Binary64.hundred_eq in *.
  rewrite Binary64.B2R_hundred in R2, R3.
  exists m3, e3. split; [reflexivity|]. split; [lia|].
  set (v1 := B2R (S754_finite false m1 e1)) in *.
  set (v2 := B2R (S754_finite false m2 e2)) in *.
  set (v3 := B2R (S754_finite false m3 e3)) in *.
  assert (HC : (1 <= IZR c <= 4294967295)%R).
  { split; apply IZR_le; lia. }
  assert (HT : (1 <= IZR t)%R) by (apply IZR_le; lia).
  set (x := (IZR c / IZR t)%R) in *.
  assert (Hx : (IZR c = x * IZR t)%R) by (unfold x; field; lra).
  assert (Hx0 : (0 <= x)%R).
  { unfold x. apply Rmult_le_pos; [lra|].
    apply Rlt_le, Rinv_0_lt_compat. lra. }
  unfold u53 in *. change (IZR (2 ^ 53)) with 9007199254740992%R in *.
  set (u := (/ 9007199254740992)%R) in *.
  assert (Hu : (0 < u < / 1000000000000000)%R).
  { unfold u. split; [apply Rinv_0_lt_compat; lra|].
    apply Rinv_lt_contravar; lra. }
  apply Binary64.Rabs_bounds in R1; [|lra].
  assert (Hv1 : (0 <= v1)%R) by nra.
  apply Binary64.Rabs_bounds in R2; [|nra].
  assert (Hv2 : (0 <= v2)%R) by nra.
  apply Binary64.Rabs_bounds in R3; [|nra].
  assert (U3 : (v3 <= (1 + u) * (1 + u) * (1 + u) * (10000 * x))%R) by nra.
  assert (L3 : ((1 - u) * (1 - u) * (1 - u) * (10000 * x) <= v3)%R) by nra.
  assert (Eps : ((1 + u) * (1 + u) * (1 + u) <= 1 + 4 * u)%R) by nra.
  assert (Eps' : (1 - 4 * u <= (1 - u) * (1 - u) * (1 - u))%R) by nra.
  split; rewrite Hx; nra.
Qed.

(** [Math.round] of a number strictly between two consecutive integers
    is one of the two. *)
Lemma Math_round_between m e j :
  e < 0 ->
  (IZR j < B2R (S754_finite false m e) < IZR j + 1)%R ->
  Math_round (S754_finite false m e) = of_Z j
  \/ Math_round (S754_finite false m e) = of_Z (j + 1).
Proof.
  intros He [L U]. cbn [B2R cond_Zopp] in L, U.
  rewrite Binary64.powerRZ2_neg in L, U by assumption.
  set (w := 2 ^ (- e)) in *.
  assert (Hw : 0 < w) by (apply Z.pow_pos_nonneg; lia).
  assert (Hw' : (0 < IZR w)%R) by (apply IZR_lt; lia).
  assert (L' : (IZR j * IZR w < IZR (Z.pos m))%R).
  { apply Rmult_lt_reg_r with (/ IZR w)%R; [now apply Rinv_0_lt_compat|].
    replace (IZR j * IZR w * / IZR w)%R with (IZR j) by (field; lra).
    lra. }
  assert (U' : (IZR (Z.pos m) < (IZR j + 1) * IZR w)%R).
  { apply Rmult_lt_reg_r with (/ IZR w)%R; [now apply Rinv_0_lt_compat|].
    replace ((IZR j + 1) * IZR w * / IZR w)%R with (IZR j + 1)%R
      by (field; lra).
    lra. }
  assert (LZ : j * w < Z.pos m).
  { apply lt_IZR. rewrite mult_IZR. exact L'. }
  assert (UZ : Z.pos m < (j + 1) * w).
  { apply lt_IZR. rewrite mult_IZR, plus_IZR. exact U'. }
  unfold Math_round. destruct (Z.leb_spec 0 e); [lia|].
  fold w. replace (2 ^ (1 - e)) with (2 * w).
  2:{ unfold w. replace (1 - e) with (1 + - e) by lia.
      rewrite Z.pow_add_r by lia. reflexivity. }
  cbv zeta. set (r := (2 * Z.pos m + w) / (2 * w)).
  assert (Er : r = j \/ r = j + 1).
  { pose proof (Z.div_mod (2 * Z.pos m + w) (2 * w) ltac:(lia)) as E.
    pose proof (Z.mod_pos_bound (2 * Z.pos m + w) (2 * w) ltac:(lia)) as B.
    fold r in E. nia. }
  destruct (Z.eqb_spec r 0) as [R0|_]; destruct Er as [Er|Er];
    rewrite <- Er, ?R0; [left|right|left|right]; reflexivity.
Qed.

(** The percentage of two integers is a number of hundredths nearest to
    the exact one, ties included. *)
Lemma percentage_nearest c t :
  0 <= c < 2 ^ 32 -> 0 < t < 2 ^ 32 ->
  exists k,
    percentage (of_Z c) (of_Z t) = div (of_Z k) hundred
    /\ (2 * k - 1) * t <= 20000 * c <= (2 * k + 1) * t.
Proof.
  intros Hc Ht.
  destruct (Z.eq_dec ((20000 * c) mod (2 * t)) t) as [Tie|NoTie].
  2:{ exists ((20000 * c + t) / (2 * t)). split.
      - now apply Binary64.percentage_of_integers.
      - pose proof (@Binary64.nearest_integer c t ltac:(lia) ltac:(lia)
                      NoTie) as H.
        cbv zeta in H. lia. }
  assert (Hc1 : 1 <= c).
  { destruct (Z.eq_dec c 0) as [->|]; [|lia].
    rewrite Z.mul_0_r, Z.mod_0_l in Tie by lia. lia. }
  set (j := (20000 * c) / (2 * t)).
  assert (Ej : 20000 * c = (2 * j + 1) * t).
  { pose proof (Z.div_mod (20000 * c) (2 * t) ltac:(lia)) as E.
    fold j in E. lia. }
  destruct (@scaled_quotient c t ltac:(lia) Ht) as (m & e & E & He & L & U).
  assert (G : gt (of_Z t) zero = true).
  { destruct (@Binary64.of_Z_normal t ltac:(lia)) as (mt & Et & _).
    rewrite Et. reflexivity. }
  unfold percentage. rewrite G, E.
  assert (B : (IZR j < B2R (S754_finite false m e) < IZR j + 1)%R).
  { set (v := B2R (S754_finite false m e)) in *.
    assert (HT : (1 <= IZR t)%R) by (apply IZR_le; lia).
    assert (HC : (1 <= IZR c <= 4294967295)%R)
      by (split; apply IZR_le; lia).
    assert (EjR : (20000 * IZR c = (2 * IZR j + 1) * IZR t)%R).
    { rewrite <- (mult_IZR 20000 c), Ej.
      now rewrite mult_IZR, plus_IZR, mult_IZR. }
    set (u := (/ 9007199254740992)%R) in *.
    assert (Hu : (0 < u < / 1000000000000000)%R).
    { unfold u. split; [apply Rinv_0_lt_compat; lra|].
      apply Rinv_lt_contravar; lra. }
    assert (Small : (4 * u * (20000 * IZR c) < 1)%R) by nra.
    clear - L U Small HT EjR.
    split; apply Rmult_lt_reg_r with (2 * IZR t)%R; try lra; nra. }
  destruct (@Math_round_between m e j He B) as [R|R]; rewrite R.
  - exists j. split; [reflexivity|lia].
  - exists (j + 1). split; [reflexivity|lia].
Qed.

End Hundredths.

(** X7. In every report the statements entry is the lines entry, and no
    entry counts anything as skipped: statements are lines, counted
    once. *)
Theorem X7_statements_mirror_lines :
  forall records : list LcovRecord,
    let report := lcovToCoverageReport records in
    r_statements report = r_lines report
    /\ Forall (fun m => skipped m = JsNumber.zero) (metrics report).
Proof.
  intros records report.
  destruct (fold_addRecord records zeroCounters)
    as (E1 & E2 & E3 & E4 & _).
  split.
  - unfold report, lcovToCoverageReport. cbn [r_statements r_lines].
    rewrite E1, E2, E3, E4. reflexivity.
  - unfold report, lcovToCoverageReport, metrics, reportNumbers.
    repeat constructor.
Qed.

(** X8. With at least one line entry (and fewer than [2^32]), the
    percentage of lines is a whole number of hundredths between 0 and
    100, within half a hundredth of the exact percentage of hit entries,
    ties included; it is 100 when every entry is hit and 0 when none
    is. *)
Theorem X8_line_percentage_in_hundredths :
  forall records : list LcovRecord,
    let report := lcovToCoverageReport records in
    let t := Z.of_nat (countLines records) in
    let c := Z.of_nat (countHitLines records) in
    0 < t < 2 ^ 32 ->
    (exists k,
        pct (r_lines report) = JsNumber.div (JsNumber.of_Z k) hundred
        /\ 0 <= k <= 10000
        /\ 2 * Z.abs (k * t - 10000 * c) <= t)
    /\ (c = t -> pct (r_lines report) = JsNumber.of_Z 100)
    /\ (c = 0 -> pct (r_lines report) = JsNumber.zero).
Proof.
  intros records report t c Ht.
  pose proof (countHitLines_le records) as Hle.
  destruct (@lines_counters records ltac:(fold t; lia)) as (T & C & _).
  fold report in T, C. fold t in T. fold c in C.
  assert (P : pct (r_lines report)
              = percentage (JsNumber.of_Z c) (JsNumber.of_Z t)).
  { rewrite <- T, <- C. reflexivity. }
  assert (Hc : 0 <= c <= t) by (unfold c, t; lia).
  destruct (@Hundredths.percentage_nearest c t ltac:(lia) Ht)
    as (k & E & B).
  assert (Hk : 0 <= k <= 10000) by nia.
  rewrite P, E. split; [|split].
  - exists k. split; [reflexivity|]. split; [exact Hk|lia].
  - intros Ect. assert (k = 10000) as -> by nia. reflexivity.
  - intros Ec0. assert (k = 0) as -> by nia. reflexivity.
Qed.

(* ================================================================== *)
(** * More about the two builders *)
(* ================================================================== *)

(** Reading after a loop of writes: the last write under the name wins,
    and a name never written keeps what it had. *)
Lemma get_writes {V R} (keyOf : R -> jsstring) (valueOf : R -> V) rs :
  forall o k,
    k <> JsObject.proto_ ->
    JsObject.get (fold_left (write keyOf valueOf) rs o) k
    = match find (fun r => JsString.eqb (keyOf r) k) (rev rs) with
      | Some r => Some (valueOf r)
      | None => JsObject.get o k
      end.
Proof.
  induction rs as [|r rs IH] using rev_ind; intros o k N; [reflexivity|].
  rewrite fold_left_app, rev_app_distr. cbn [fold_left rev app find].
  unfold write at 1.
  destruct (JsString.eqb (keyOf r) k) eqn:E.
  - apply eqb_eq in E. subst k. now apply get_set_same.
  - apply eqb_neq in E. rewrite get_set_other by assumption. now apply IH.
Qed.

Lemma lastNamed_spec k records r :
  lastNamed k records = Some r -> In r records /\ sourceFile r = k.
Proof.
  unfold lastNamed. intros H. apply find_some in H. destruct H as [I E].
  split; [now apply in_rev|now apply eqb_eq].
Qed.

Lemma lastNamed_none k records :
  lastNamed k records = None <-> Forall (fun r => sourceFile r <> k) records.
Proof.
  unfold lastNamed. split.
  - intros H. apply Forall_forall. intros r I.
    apply eqb_neq. apply (find_none _ _ H). now apply in_rev in I.
  - intros H. destruct (find _ (rev records)) as [r|] eqn:E; [|reflexivity].
    apply find_some in E. destruct E as [I E]. apply eqb_eq in E.
    apply in_rev in I. rewrite Forall_forall in H. now destruct (H r I).
Qed.

(** X9. The entries of the two builders, as own properties. Neither
    ever has an entry under [__proto__]. Under any other name, what they
    hold is decided by the last record of that name alone: the final map
    holds its file report, whose [path] is the name, and has no entry
    under a name no record has; the summary holds its one-record report,
    and under ["total"] the aggregate of all the records unless a record
    is itself named ["total"]. So, ["total"] apart, the two have entries
    under the very same names. *)
Theorem X9_lookup_is_last_record :
  forall (records : list LcovRecord) (k : jsstring),
    JsObject.get (lcovToJsonFinal records) k
    = (if JsString.eqb k JsObject.proto_ then None
       else option_map fileReport (lastNamed k records))
    /\ JsObject.get (lcovToJsonSummary records) k
       = (if JsString.eqb k JsObject.proto_ then None
          else match lastNamed k records with
               | Some r => Some (lcovToCoverageReport [r])
               | None => if JsString.eqb total_ k
                         then Some (lcovToCoverageReport records) else None
               end)
    /\ (forall entry,
          JsObject.get (lcovToJsonFinal records) k = Some entry ->
          path entry = k
          /\ exists r, In r records /\ entry = fileReport r)
    /\ (k <> total_ ->
        (JsObject.get (lcovToJsonFinal records) k = None
         <-> JsObject.get (lcovToJsonSummary records) k = None)).
Proof.
  intros records k.
  assert (F : JsObject.get (lcovToJsonFinal records) k
              = (if JsString.eqb k JsObject.proto_ then None
                 else option_map fileReport (lastNamed k records))).
  { unfold lcovToJsonFinal.
    change (fold_left addFileReport records)
      with (fold_left (write sourceFile fileReport) records).
    destruct (JsString.eqb k JsObject.proto_) eqn:P.
    - apply eqb_eq in P. subst k. now rewrite get_writes_proto.
    - apply eqb_neq in P. rewrite get_writes by assumption.
      fold (lastNamed k records). now destruct (lastNamed k records). }
  assert (S' : JsObject.get (lcovToJsonSummary records) k
               = (if JsString.eqb k JsObject.proto_ then None
                  else match lastNamed k records with
                       | Some r => Some (lcovToCoverageReport [r])
                       | None =>
                           if JsString.eqb total_ k
                           then Some (lcovToCoverageReport records)
                           else None
                       end)).
  { unfold lcovToJsonSummary.
    change (fold_left addFileCoverage records)
      with (fold_left
              (write sourceFile (fun r => lcovToCoverageReport [r])) records).
    destruct (JsString.eqb k JsObject.proto_) eqn:P.
    - apply eqb_eq in P. subst k. now rewrite get_writes_proto.
    - apply eqb_neq in P. rewrite get_writes by assumption.
      fold (lastNamed k records). reflexivity. }
  split; [exact F|]. split; [exact S'|]. split.
  - intros entry H. rewrite F in H.
    destruct (JsString.eqb k JsObject.proto_); [discriminate H|].
    destruct (lastNamed k records) as [r|] eqn:L; [|discriminate H].
    injection H as <-. apply lastNamed_spec in L. destruct L as [I E].
    split; [exact E|]. now exists r.
  - intros Hk. rewrite F, S'.
    destruct (JsString.eqb k JsObject.proto_); [split; reflexivity|].
    destruct (lastNamed k records) as [r|].
    + split; discriminate.
    + assert (E : JsString.eqb total_ k = false)
        by (apply eqb_neq; congruence).
      rewrite E. split; reflexivity.
Qed.

Lemma valuesOf_idMap {A V} (f : A -> V) xs : forall i,
  valuesOf (idMap f i xs) = map f xs.
Proof.
  unfold valuesOf, idMap, indexed.
  induction xs as [|x xs IH]; intros i; [reflexivity|].
  cbn [List.length seq combine map snd]. now rewrite IH.
Qed.

Lemma filter_map_length {A B} (f : A -> B) (p : B -> bool) xs :
  List.length (filter p (map f xs))
  = List.length (filter (fun x => p (f x)) xs).
Proof.
  induction xs as [|x xs IH]; [reflexivity|].
  cbn [map filter]. destruct (p (f x)); cbn [List.length]; now rewrite IH.
Qed.

(** X10. The two outputs agree on every record: the lines total of its
    one-record report is the number of statements of its file report,
    and the covered count is the number of statements whose count in [s]
    is greater than 0. *)
Theorem X10_summary_counts_match_final :
  forall record : LcovRecord,
    Z.of_nat (List.length (lines record)) < 2 ^ 53 ->
    let counts := r_lines (lcovToCoverageReport [record]) in
    let entry := fileReport record in
    total counts = lengthOf (JsObject.keys (statementMap entry))
    /\ total counts = lengthOf (JsObject.keys (s entry))
    /\ covered counts
       = lengthOf (filter (fun h => JsNumber.gt h JsNumber.zero)
                     (valuesOf (s entry))).
Proof.
  intros record H counts entry.
  destruct (fileReport_maps record) as [Em Es]. fold entry in Em, Es.
  assert (EL : countLines [record] = List.length (lines record)).
  { unfold countLines. cbn [map].
    change (list_sum [?x]) with (x + 0)%nat. lia. }
  assert (EH : countHitLines [record] = List.length (hitLines record)).
  { unfold countHitLines. cbn [map].
    change (list_sum [?x]) with (x + 0)%nat. lia. }
  destruct (@lines_counters [record]) as (T & C & _);
    [rewrite EL; exact H|].
  fold counts in T, C. rewrite T, C, EL, EH, Em, Es.
  unfold lengthOf, JsNumber.of_nat.
  rewrite !keys_idMap, valuesOf_idMap, !length_map, length_seq.
  rewrite filter_map_length. repeat split.
Qed.

(* ================================================================== *)
(** * More about the loaders *)
(* ================================================================== *)

(** X11. The LCOV loaders look at the file system at one place only, the
    resolved path: two file systems that agree there give the same
    outcome. The final-map loader never throws and logs at most one
    call, none exactly when the read succeeds; the summary loader
    throws exactly when the read fails, and then what the read threw.
    When neither fails, both report on the same records. *)
Theorem X11_lcov_loaders_outcomes :
  forall (cwd : jsstring) (resolve : jsstring -> jsstring -> jsstring)
         (readFile : jsstring -> Thrown + jsstring) (lcovPath : jsstring),
    let summary := parseBunLcovSummary cwd resolve readFile lcovPath in
    let final := parseBunLcovFinal cwd resolve readFile lcovPath in
    (forall readFile' : jsstring -> Thrown + jsstring,
        readFile' (resolve cwd lcovPath) = readFile (resolve cwd lcovPath) ->
        parseBunLcovSummary cwd resolve readFile' lcovPath = summary
        /\ parseBunLcovFinal cwd resolve readFile' lcovPath = final)
    /\ (exists report, snd final = inr report)
    /\ (List.length (fst final) <= 1)%nat
    /\ (fst final = [] <->
        exists lcovContent, readFile (resolve cwd lcovPath) = inr lcovContent)
    /\ (forall err, snd summary = inl err <->
                    readFile (resolve cwd lcovPath) = inl err)
    /\ (forall s f, snd summary = inr s -> snd final = inr f ->
          exists lcovContent,
            readFile (resolve cwd lcovPath) = inr lcovContent
            /\ s = lcovToJsonSummary (parseLcovData lcovContent)
            /\ f = lcovToJsonFinal (parseLcovData lcovContent)).
Proof.
  intros cwd resolve readFile lcovPath summary final.
  unfold summary, final, parseBunLcovSummary, parseBunLcovFinal,
    awaitReadFile, tryCatch, bind, ret, throw, call.
  split.
  { intros readFile' E. rewrite E. split; reflexivity. }
  destruct (readFile (resolve cwd lcovPath)) as [err|lcovContent];
    cbn [fst snd app List.length].
  - split; [eexists; reflexivity|]. split; [lia|]. split.
    + split; [discriminate|]. intros [x Hx]. discriminate Hx.
    + split.
      * intros err'. split; intros [= ->]; reflexivity.
      * intros s f H. discriminate H.
  - split; [eexists; reflexivity|]. split; [lia|]. split.
    + split; [|reflexivity]. intros _. now exists lcovContent.
    + split.
      * intros err'. split; discriminate.
      * intros s f [= <-] [= <-]. exists lcovContent. repeat split.
Qed.

Section JsonLoaderFacts.

Variable J : Type.
Variable emptyObject : J.
Variable cwd : jsstring.
Variable resolve : jsstring -> jsstring -> jsstring.
Variable readFile : jsstring -> Thrown + jsstring.
Variable JSON_parse : jsstring -> Thrown + J.

(** What reading and parsing the file at a path comes to. *)
Lemma parseBunCoverageReport_outcome jsonPath :
  parseBunCoverageReport cwd resolve readFile JSON_parse jsonPath
  = ([], match readFile (resolve cwd jsonPath) with
         | inl err => inl err
         | inr raw => JSON_parse raw
         end).
Proof.
  unfold parseBunCoverageReport, bindE, awaitE.
  destruct (readFile (resolve cwd jsonPath)); reflexivity.
Qed.

(** X12. The JSON loaders treat a file that cannot be read and a file
    whose text [JSON.parse] rejects alike. When the text read parses,
    both return the parsed value and log nothing. When the read or the
    parse throws, the summary loader reports the failure once through
    [setFailed], with the stack of what was thrown, and throws that very
    value, whereas the final-map loader logs one warning with that stack
    and returns the empty object. So the final-map loader never throws,
    and the summary loader never throws without having called
    [setFailed]. *)
Theorem X12_json_loaders_outcomes :
  forall jsonPath : jsstring,
    let summary :=
      parseBunJsonSummary cwd resolve readFile JSON_parse jsonPath in
    let final :=
      parseBunJsonFinal emptyObject cwd resolve readFile JSON_parse
        jsonPath in
    (forall raw value,
        readFile (resolve cwd jsonPath) = inr raw ->
        JSON_parse raw = inr value ->
        summary = ([], inr value) /\ final = ([], inr value))
    /\ (forall err,
          (readFile (resolve cwd jsonPath) = inl err
           \/ exists raw, readFile (resolve cwd jsonPath) = inr raw
                          /\ JSON_parse raw = inl err) ->
          summary = ([jsonSetFailed jsonPath (stackOf err)], inl err)
          /\ final = ([jsonWarning jsonPath (stackOf err)], inr emptyObject))
    /\ (exists report, snd final = inr report)
    /\ (forall err, snd summary = inl err ->
          fst summary = [jsonSetFailed jsonPath (stackOf err)]).
Proof.
  intros jsonPath summary final.
  unfold summary, final, parseBunJsonSummary, parseBunJsonFinal.
  rewrite parseBunCoverageReport_outcome.
  unfold tryCatchE, bindE, logE, throwE, retE.
  split; [|split; [|split]].
  - intros raw value -> ->. split; reflexivity.
  - intros err [-> |(raw & -> & ->)]; split; reflexivity.
  - destruct (readFile (resolve cwd jsonPath)) as [e|raw];
      [eexists; reflexivity|].
    destruct (JSON_parse raw); eexists; reflexivity.
  - intros err.
    destruct (readFile (resolve cwd jsonPath)) as [e|raw].
    + cbn. intros [= ->]. reflexivity.
    + destruct (JSON_parse raw); cbn; [|discriminate].
      intros [= ->]. reflexivity.
Qed.

End JsonLoaderFacts.

(* ================================================================== *)
(** * The configuration lookup and the options *)
(* ================================================================== *)

Section ConfigFacts.

Variable resolve : jsstring -> jsstring -> jsstring.
Variable access : jsstring -> Thrown + unit.
Variable aggregateError : Thrown.

Lemma getBunConfigPath_outcome workingDirectory input :
  getBunConfigPath resolve access aggregateError workingDirectory input
  = match access (configTarget resolve workingDirectory input) with
    | inr _ => ([], inr (Some (configTarget resolve workingDirectory input)))
    | inl _ =>
        ([configWarning
            (match input with
             | [] => anyDefaultLocation workingDirectory
             | _ :: _ => resolve workingDirectory input
             end)], inr None)
    end.
Proof.
  unfold getBunConfigPath, configTarget, testFilePath.
  destruct input as [|c input].
  - cbn [defaultPaths map promiseAny].
    change (JsString.lit "bunfig.toml")
      with [98; 117; 110; 102; 105; 103; 46; 116; 111; 109; 108]%N.
    destruct (access _); reflexivity.
  - destruct (access _); reflexivity.
Qed.

(** X13. The configuration lookup never throws, whatever the file
    system does. It tests one file, the input resolved against the
    working directory, or [bunfig.toml] there when the input is empty.
    If the file can be read, its resolved path is returned and nothing is
    logged; otherwise the result is [null] and exactly one warning is
    logged, naming the resolved input or, with an empty input, the
    default locations of the working directory. The error of the failed
    test is not looked at. *)
Theorem X13_config_lookup_outcomes :
  forall workingDirectory input : jsstring,
    let target := configTarget resolve workingDirectory input in
    let outcome :=
      getBunConfigPath resolve access aggregateError workingDirectory input in
    (exists found, snd outcome = inr found)
    /\ (forall found, snd outcome = inr (Some found) ->
          found = target /\ access target = inr tt /\ fst outcome = [])
    /\ (snd outcome = inr None ->
        (exists err, access target = inl err)
        /\ fst outcome
           = [configWarning (if JsString.eqb input []
                             then anyDefaultLocation workingDirectory
                             else target)])
    /\ (access target = inr tt -> outcome = ([], inr (Some target))).
Proof.
  intros workingDirectory input target outcome.
  unfold outcome. rewrite getBunConfigPath_outcome. fold target.
  destruct (access target) as [err|[]] eqn:A; cbn [fst snd].
  - split; [eexists; reflexivity|]. split; [discriminate|].
    split; [|discriminate]. intros _. split; [now exists err|].
    destruct input; reflexivity.
  - split; [eexists; reflexivity|]. split.
    + intros found [= <-]. repeat split.
    + split; [discriminate|reflexivity].
Qed.

End ConfigFacts.

Lemma bindE_returns {L A B} (m : Eff L A) (k : A -> Eff L B) log b :
  bindE m k = (log, inr b) ->
  exists l1 a l2, m = (l1, inr a) /\ k a = (l2, inr b) /\ log = l1 ++ l2.
Proof.
  unfold bindE. destruct m as [l1 [err|a]]; [discriminate|].
  destruct (k a) as [l2 r] eqn:K. intros [= <- ->].
  now exists l1, a, l2.
Qed.

Lemma bindE_ext {L A B} (m : Eff L A) (k k' : A -> Eff L B) :
  (forall l a, m = (l, inr a) -> k a = k' a) -> bindE m k = bindE m k'.
Proof.
  intros H. unfold bindE. destruct m as [l [err|a]]; [reflexivity|].
  now rewrite (H l a).
Qed.

Section OptionsFacts.

Variables FileCoverageMode Thresholds Octokit C : Type.
Variable emptyThresholds : Thresholds.
Variable getInput : jsstring -> jsstring.
Variable resolve : jsstring -> jsstring -> jsstring.
Variable access : jsstring -> Thrown + unit.
Variable aggregateError : Thrown.
Variable getCoverageModeFrom : jsstring -> Eff C FileCoverageMode.
Variable getCommentOn : Eff C (list jsstring).
Variable getCommitSHA : Eff C jsstring.

(** X14. The options [readOptions] returns. The working directory, the
    name and the coverage root are the inputs as given; the LCOV path is
    its input resolved against the working directory; the path to
    compare with is [null] exactly when its input is empty and the
    resolved input otherwise; the file coverage mode is the one read
    from its input. No pull request number is set unless comments go to
    ["pr"]; the thresholds are the empty ones whenever the
    configuration file cannot be read, and those parsed from that file
    when it can. *)
Theorem X14_options_returned :
  forall (parseCoverageThresholds : jsstring -> Eff C Thresholds)
         (getPullRequestNumber : Octokit -> Eff C (option number))
         (octokit : Octokit) log options,
    readOptions emptyThresholds getInput resolve access aggregateError
      getCoverageModeFrom getCommentOn parseCoverageThresholds getCommitSHA
      getPullRequestNumber octokit = (log, inr options) ->
    let wd := getInput working_directory_ in
    workingDirectory options = wd
    /\ name options = getInput name_
    /\ fileCoverageRootPath options = getInput file_coverage_root_path_
    /\ lcovPath options = resolve wd (getInput lcov_path_)
    /\ lcovComparePath options
       = (if JsString.eqb (getInput lcov_compare_path_) [] then None
          else Some (resolve wd (getInput lcov_compare_path_)))
    /\ snd (getCoverageModeFrom (getInput file_coverage_mode_))
       = inr (fileCoverageMode options)
    /\ snd getCommentOn = inr (commentOn options)
    /\ snd getCommitSHA = inr (commitSHA options)
    /\ (includesPr (commentOn options) = false -> prNumber options = None)
    /\ (forall err,
          access (configTarget resolve wd (getInput bunfig_path_)) = inl err ->
          thresholds options = emptyThresholds)
    /\ (let target := configTarget resolve wd (getInput bunfig_path_) in
        access target = inr tt -> target <> [] ->
        snd (parseCoverageThresholds target) = inr (thresholds options)).
Proof.
  intros parseCoverageThresholds getPullRequestNumber octokit log options H wd.
  unfold readOptions in H. fold wd in H.
  apply bindE_returns in H. destruct H as (l1 & mode & l1' & E1 & H & _).
  apply bindE_returns in H. destruct H as (l2 & comments & l2' & E2 & H & _).
  apply bindE_returns in H. destruct H as (l3 & config & l3' & E3 & H & _).
  apply bindE_returns in H. destruct H as (l4 & thr & l4' & E4 & H & _).
  apply bindE_returns in H. destruct H as (l5 & sha & l5' & E5 & H & _).
  apply bindE_returns in H. destruct H as (l6 & pr & l6' & E6 & H & _).
  injection H as _ <-.
  cbn [workingDirectory name fileCoverageRootPath lcovPath lcovComparePath
       fileCoverageMode commentOn commitSHA prNumber thresholds].
  unfold liftE in E1, E2, E3, E5.
  injection E1 as _ E1. injection E2 as _ E2. injection E5 as _ E5.
  repeat match goal with |- _ /\ _ => split end;
    try reflexivity; try assumption.
  - destruct (getInput lcov_compare_path_); reflexivity.
  - intros P. rewrite P in E6. now injection E6 as _ <-.
  - intros err A. rewrite getBunConfigPath_outcome in E3.
    fold wd in E3. rewrite A in E3. cbn [snd] in E3.
    injection E3 as _ <-. now injection E4 as _ <-.
  - intros A N. rewrite getBunConfigPath_outcome in E3.
    fold wd in E3. rewrite A in E3. cbn [snd] in E3.
    injection E3 as _ <-.
    destruct (configTarget resolve wd (getInput bunfig_path_))
      as [|c target']; [now destruct N|].
    unfold liftE in E4. now injection E4 as _ E4.
Qed.

(** X15. Collaborators that are not called. The thresholds are parsed
    only from a configuration file that was found: when the file cannot
    be read, [readOptions] does the same whatever
    [parseCoverageThresholds] is. The pull request number is asked for
    only when comments go to ["pr"]: otherwise [readOptions] does the
    same whatever [getPullRequestNumber] is. And when the coverage mode
    cannot be read, that failure is the outcome, and nothing else is
    logged. *)
Theorem X15_options_collaborators_not_called :
  forall (octokit : Octokit),
    let target :=
      configTarget resolve (getInput working_directory_)
        (getInput bunfig_path_) in
    let run := readOptions emptyThresholds getInput resolve access
                 aggregateError getCoverageModeFrom getCommentOn in
    (forall err, access target = inl err ->
       forall parse parse' getPullRequestNumber,
         run parse getCommitSHA getPullRequestNumber octokit
         = run parse' getCommitSHA getPullRequestNumber octokit)
    /\ (forall comments,
          snd getCommentOn = inr comments -> includesPr comments = false ->
          forall parse getPullRequestNumber getPullRequestNumber',
            run parse getCommitSHA getPullRequestNumber octokit
            = run parse getCommitSHA getPullRequestNumber' octokit)
    /\ (forall entries err,
          getCoverageModeFrom (getInput file_coverage_mode_)
          = (entries, inl err) ->
          forall parse getPullRequestNumber,
            run parse getCommitSHA getPullRequestNumber octokit
            = (map (@fromCollaborator C) entries, inl err)).
Proof.
  intros octokit target run. unfold run, readOptions.
  split; [|split].
  - intros err A parse parse' getPullRequestNumber.
    rewrite getBunConfigPath_outcome. fold target. rewrite A.
    reflexivity.
  - intros comments Hc P parse getPullRequestNumber getPullRequestNumber'.
    apply bindE_ext. intros _ mode _.
    apply bindE_ext. intros l comments' E.
    assert (comments' = comments) as ->.
    { unfold liftE in E. injection E as _ E. congruence. }
    apply bindE_ext. intros _ config _.
    apply bindE_ext. intros _ thr _.
    apply bindE_ext. intros _ sha _.
    rewrite P. reflexivity.
  - intros entries err E parse getPullRequestNumber. rewrite E.
    reflexivity.
Qed.

End OptionsFacts.

(* ================================================================== *)
(** * Function and branch counters *)
(* ================================================================== *)

Lemma fold_add_ext (g h : LcovRecord -> number) rs : forall a,
  Forall (fun r => g r = h r) rs ->
  fold_left (fun acc r => JsNumber.add acc (g r)) rs a
  = fold_left (fun acc r => JsNumber.add acc (h r)) rs a.
Proof.
  induction rs as [|r rs IH]; intros a H; [reflexivity|].
  inversion H as [|? ? E Hrest]; subst. cbn [fold_left].
  rewrite E. now apply IH.
Qed.

Lemma fold_counter (g : LcovRecord -> number) (f : LcovRecord -> nat) rs :
  Forall (fun r => g r = JsNumber.of_nat (f r)) rs ->
  Z.of_nat (list_sum (map f rs)) < 2 ^ 53 ->
  fold_left (fun acc r => JsNumber.add acc (g r)) rs JsNumber.zero
  = JsNumber.of_nat (list_sum (map f rs)).
Proof.
  intros H B. rewrite (fold_add_ext g (fun r => JsNumber.of_nat (f r)))
    by assumption.
  change JsNumber.zero with (JsNumber.of_Z 0).
  rewrite fold_lengths by lia. reflexivity.
Qed.

Lemma intAfter_String directive n :
  In directive [FNF_; FNH_; BRF_; BRH_] ->
  intAfter 4 (directive ++ JsString.String n) = JsNumber.of_nat n.
Proof.
  intros H. unfold intAfter.
  assert (E : JsString.substring 4 (directive ++ JsString.String n)
              = JsString.String n ++ []).
  { rewrite app_nil_r.
    destruct H as [<-|[<-|[<-|[<-|[]]]]]; reflexivity. }
  rewrite E. now apply parseInt_String.
Qed.

Lemma trim_directive directive n :
  In directive [FNF_; FNH_; BRF_; BRH_] ->
  JsString.trim (directive ++ JsString.String n)
  = directive ++ JsString.String n.
Proof.
  intros H. unfold JsString.trim.
  assert (E : JsString.trimStart (directive ++ JsString.String n)
              = directive ++ JsString.String n)
    by (destruct H as [<-|[<-|[<-|[<-|[]]]]]; reflexivity).
  rewrite E. destruct (String_last n) as (a & c & -> & Hc).
  rewrite app_assoc, trimEnd_keeps by assumption. reflexivity.
Qed.

Lemma counters_exact records (fnf fnh brf brh : LcovRecord -> nat) :
  Forall (fun r =>
            functions r = {| found := JsNumber.of_nat (fnf r);
                             hits := JsNumber.of_nat (fnh r) |}
            /\ branches r = {| found := JsNumber.of_nat (brf r);
                               hits := JsNumber.of_nat (brh r) |})
    records ->
  Z.of_nat (list_sum (map fnf records)) < 2 ^ 53 ->
  Z.of_nat (list_sum (map fnh records)) < 2 ^ 53 ->
  Z.of_nat (list_sum (map brf records)) < 2 ^ 53 ->
  Z.of_nat (list_sum (map brh records)) < 2 ^ 53 ->
  total (r_functions (lcovToCoverageReport records))
  = JsNumber.of_nat (list_sum (map fnf records))
  /\ covered (r_functions (lcovToCoverageReport records))
     = JsNumber.of_nat (list_sum (map fnh records))
  /\ total (r_branches (lcovToCoverageReport records))
     = JsNumber.of_nat (list_sum (map brf records))
  /\ covered (r_branches (lcovToCoverageReport records))
     = JsNumber.of_nat (list_sum (map brh records)).
Proof.
  intros H B1 B2 B3 B4.
  destruct (fold_addRecord records zeroCounters)
    as (_ & _ & _ & _ & E5 & E6 & E7 & E8).
  unfold lcovToCoverageReport, reportNumbers.
  cbn [r_functions r_branches total covered].
  rewrite E5, E6, E7, E8.
  cbn [zeroCounters totalFunctions coveredFunctions totalBranches
       coveredBranches].
  rewrite (@fold_counter (fun r => found (functions r)) fnf),
          (@fold_counter (fun r => hits (functions r)) fnh),
          (@fold_counter (fun r => found (branches r)) brf),
          (@fold_counter (fun r => hits (branches r)) brh);
    try assumption;
    try (eapply Forall_impl; [|exact H]; cbv beta;
         intros r [F B]; rewrite ?F, ?B; reflexivity).
  repeat split.
Qed.

(** X16. Function and branch counters written in decimal are read back
    as the integers written, each directive setting its own counter of
    the open record and no other; and the aggregate adds such counters
    without any rounding: over records whose counters are such integers,
    the totals and covered counts of functions and branches are the
    integer sums, as long as these stay below [2^53]. *)
Theorem X16_integer_counters_add_exactly :
  (forall (n : nat) records r,
      parseLine (records, Some r) (FNF_ ++ JsString.String n)
      = (records,
         Some (setFunctions r {| found := JsNumber.of_nat n;
                                 hits := hits (functions r) |}))
      /\ parseLine (records, Some r) (FNH_ ++ JsString.String n)
         = (records,
            Some (setFunctions r {| found := found (functions r);
                                    hits := JsNumber.of_nat n |}))
      /\ parseLine (records, Some r) (BRF_ ++ JsString.String n)
         = (records,
            Some (setBranches r {| found := JsNumber.of_nat n;
                                   hits := hits (branches r) |}))
      /\ parseLine (records, Some r) (BRH_ ++ JsString.String n)
         = (records,
            Some (setBranches r {| found := found (branches r);
                                   hits := JsNumber.of_nat n |})))
  /\ (forall (records : list LcovRecord)
             (fnf fnh brf brh : LcovRecord -> nat),
        Forall (fun r =>
                  functions r = {| found := JsNumber.of_nat (fnf r);
                                   hits := JsNumber.of_nat (fnh r) |}
                  /\ branches r = {| found := JsNumber.of_nat (brf r);
                                     hits := JsNumber.of_nat (brh r) |})
          records ->
        let sum := fun f : LcovRecord -> nat => list_sum (map f records) in
        Z.of_nat (sum fnf) < 2 ^ 53 -> Z.of_nat (sum fnh) < 2 ^ 53 ->
        Z.of_nat (sum brf) < 2 ^ 53 -> Z.of_nat (sum brh) < 2 ^ 53 ->
        let report := lcovToCoverageReport records in
        total (r_functions report) = JsNumber.of_nat (sum fnf)
        /\ covered (r_functions report) = JsNumber.of_nat (sum fnh)
        /\ total (r_branches report) = JsNumber.of_nat (sum brf)
        /\ covered (r_branches report) = JsNumber.of_nat (sum brh)).
Proof.
  split.
  - intros n records r.
    assert (P : forall directive,
              In directive [FNF_; FNH_; BRF_; BRH_] ->
              parseLine (records, Some r) (directive ++ JsString.String n)
              = match JsString.String n with
                | [] | _ :: _ =>
                  if JsString.eqb directive FNF_ then
                    (records,
                     Some (setFunctions r
                             {| found := JsNumber.of_nat n;
                                hits := hits (functions r) |}))
                  else if JsString.eqb directive FNH_ then
                    (records,
                     Some (setFunctions r
                             {| found := found (functions r);
                                hits := JsNumber.of_nat n |}))
                  else if JsString.eqb directive BRF_ then
                    (records,
                     Some (setBranches r
                             {| found := JsNumber.of_nat n;
                                hits := hits (branches r) |}))
                  else
                    (records,
                     Some (setBranches r
                             {| found := found (branches r);
                                hits := JsNumber.of_nat n |}))
                end).
    { intros directive H. unfold parseLine.
      rewrite trim_directive by assumption.
      rewrite <- (intAfter_String n H).
      generalize (JsString.String n). intros str.
      destruct H as [<-|[<-|[<-|[<-|[]]]]]; destruct str; reflexivity. }
    assert (K : forall A (x : A), match JsString.String n with
                                  | [] | _ :: _ => x
                                  end = x)
      by (intros A x; destruct (JsString.String n); reflexivity).
    rewrite !P by (cbn [In]; tauto). rewrite !K.
    repeat split.
  - intros records fnf fnh brf brh H sum B1 B2 B3 B4 report.
    now apply counters_exact.
Qed.

(** X18. The percentages of functions and branches, for records whose
    counters are natural numbers: with a total between 1 and [2^32] and
    a covered count below [2^32], the percentage is a whole number of
    hundredths within half a hundredth of the exact one, ties included.
    Nothing caps it: with at least as many hits as found it is 100 or
    more. With nothing found it is 0. *)
Theorem X18_counter_percentages :
  forall (records : list LcovRecord) (fnf fnh brf brh : LcovRecord -> nat),
    Forall (fun r =>
              functions r = {| found := JsNumber.of_nat (fnf r);
                               hits := JsNumber.of_nat (fnh r) |}
              /\ branches r = {| found := JsNumber.of_nat (brf r);
                                 hits := JsNumber.of_nat (brh r) |})
      records ->
    let sum := fun f : LcovRecord -> nat =>
                 Z.of_nat (list_sum (map f records)) in
    sum fnf < 2 ^ 32 -> sum fnh < 2 ^ 32 ->
    sum brf < 2 ^ 32 -> sum brh < 2 ^ 32 ->
    let report := lcovToCoverageReport records in
    let nearest := fun (m : ReportNumbers) (c t : Z) =>
      (0 < t ->
       exists k,
         pct m = JsNumber.div (JsNumber.of_Z k) hundred
         /\ 2 * Z.abs (k * t - 10000 * c) <= t
         /\ (t <= c -> 10000 <= k))
      /\ (t = 0 -> pct m = JsNumber.zero) in
    nearest (r_functions report) (sum fnh) (sum fnf)
    /\ nearest (r_branches report) (sum brh) (sum brf).
Proof.
  intros records fnf fnh brf brh H sum B1 B2 B3 B4 report nearest.
  destruct (@counters_exact records fnf fnh brf brh H)
    as (T1 & C1 & T2 & C2); try (unfold sum in *; lia).
  fold report in T1, C1, T2, C2.
  assert (G : forall m c t,
            pct m = percentage (covered m) (total m) ->
            total m = JsNumber.of_Z t -> covered m = JsNumber.of_Z c ->
            0 <= c < 2 ^ 32 -> 0 <= t < 2 ^ 32 -> nearest m c t).
  { intros m c t P T C Hc Ht. unfold nearest. rewrite P, T, C. split.
    - intros Pos.
      destruct (@Hundredths.percentage_nearest c t Hc ltac:(lia))
        as (k & E & B).
      exists k. split; [exact E|]. split; [lia|nia].
    - intros ->. reflexivity. }
  split; apply G; try assumption; try reflexivity;
    unfold sum in *; lia.
Qed.

(* ================================================================== *)
(** * Writing records out and reading them back *)
(* ================================================================== *)

Lemma trimStart_head x c t :
  JsString.trimStart x = c :: t -> JsString.is_space c = false.
Proof.
  induction x as [|a x IH]; cbn [JsString.trimStart]; [discriminate|].
  destruct (JsString.is_space a) eqn:Ea; [exact IH|].
  intros [= <- _]. exact Ea.
Qed.

(** A trimmed string that is not empty ends with a code unit that is no
    white space. *)
Lemma trimmed_last str :
  JsString.trim str = str -> str <> [] ->
  exists a c, str = a ++ [c] /\ JsString.is_space c = false.
Proof.
  unfold JsString.trim, JsString.trimEnd. intros E N.
  assert (R : rev str
              = JsString.trimStart (rev (JsString.trimStart str)))
    by (rewrite <- E at 1; apply rev_involutive).
  destruct (rev str) as [|c t] eqn:Er.
  - apply (f_equal (@rev _)) in Er. rewrite rev_involutive in Er.
    now destruct N.
  - exists (rev t), c. split.
    + apply (f_equal (@rev _)) in Er. now rewrite rev_involutive in Er.
    + symmetry in R. now apply trimStart_head in R.
Qed.

Lemma trim_SF path :
  JsString.trim path = path -> path <> [] ->
  JsString.trim (SF_ ++ path) = SF_ ++ path.
Proof.
  intros E N. destruct (trimmed_last E N) as (a & c & -> & Hc).
  unfold JsString.trim.
  change (JsString.trimStart (SF_ ++ ?x)) with (SF_ ++ x).
  rewrite app_assoc, trimEnd_keeps by assumption. reflexivity.
Qed.

Lemma of_uint_no_newline d : ~ In JsString.newline (JsString.of_uint d).
Proof.
  induction d; cbn [JsString.of_uint In]; [tauto|..]; intros [H|H];
    try discriminate H; auto.
Qed.

(** How the parser takes the lines of a written block. *)
Lemma daLine_kind n h :
  let ln := daLine n h [] in
  JsString.trim ln = ln
  /\ isSF ln = false /\ isEnd ln = false /\ isDA ln = true
  /\ isFNF ln = false /\ isFNH ln = false
  /\ isBRF ln = false /\ isBRH ln = false.
Proof.
  intros ln.
  assert (T : JsString.trim ln = ln) by apply trim_daLine.
  split; [exact T|].
  unfold isSF, isEnd, isDA, isFNF, isFNH, isBRF, isBRH. rewrite T.
  assert (E : JsString.eqb ln end_of_record = false)
    by (apply eqb_neq; discriminate).
  rewrite E. unfold ln, daLine.
  generalize (JsString.String n
              ++ JsString.comma :: JsString.String h ++ []).
  intros str. destruct str; repeat split.
Qed.

Lemma directive_kind directive n :
  In directive [FNF_; FNH_; BRF_; BRH_] ->
  let ln := directive ++ JsString.String n in
  isSF ln = false /\ isEnd ln = false /\ isDA ln = false
  /\ isFNF ln = JsString.eqb directive FNF_
  /\ isFNH ln = JsString.eqb directive FNH_
  /\ isBRF ln = JsString.eqb directive BRF_
  /\ isBRH ln = JsString.eqb directive BRH_.
Proof.
  intros H ln.
  unfold isSF, isEnd, isDA, isFNF, isFNH, isBRF, isBRH.
  unfold ln. rewrite trim_directive by assumption.
  assert (E : JsString.eqb (directive ++ JsString.String n) end_of_record
              = false).
  { apply eqb_neq. destruct H as [<-|[<-|[<-|[<-|[]]]]]; discriminate. }
  rewrite E. generalize (JsString.String n). intros str.
  destruct H as [<-|[<-|[<-|[<-|[]]]]]; destruct str; repeat split.
Qed.

Lemma lastIntFrom_skip kind init lns :
  Forall (fun ln => kind ln = false) lns ->
  lastIntFrom kind init lns = init.
Proof.
  unfold lastIntFrom. induction 1 as [|ln lns H _ IH]; [reflexivity|].
  cbn [fold_left]. now rewrite H.
Qed.

Lemma toBlock_wellFormed p :
  pathOk (plainPath p) -> wellFormed (toBlock p).
Proof.
  intros (N & T & _). unfold wellFormed, blockPath.
  cbn [toBlock b_open b_body b_close b_after].
  unfold isSF. rewrite trim_SF by assumption.
  split; [now destruct (plainPath p)|]. split; [exact N|].
  split; [|split; [reflexivity|constructor]].
  apply Forall_app. split.
  - apply Forall_forall. intros ln I. apply in_map_iff in I.
    destruct I as ((n & h) & <- & _).
    destruct (daLine_kind n h) as (_ & A & B & _). now split.
  - repeat constructor;
      match goal with
      | |- isSF (?d ++ JsString.String ?n) = false =>
          apply (@directive_kind d n); cbn [In]; tauto
      | |- isEnd (?d ++ JsString.String ?n) = false =>
          apply (@directive_kind d n); cbn [In]; tauto
      end.
Qed.

Lemma toBlock_record p :
  pathOk (plainPath p) -> blockRecord (toBlock p) = toRecord p.
Proof.
  intros (N & T & _).
  set (das := map (fun nh => daLine (fst nh) (snd nh) []) (plainLines p)).
  assert (K : forall kind,
            In kind [isFNF; isFNH; isBRF; isBRH] ->
            Forall (fun ln => kind ln = false) das).
  { intros kind Hk. apply Forall_forall. intros ln I.
    apply in_map_iff in I. destruct I as ((n & h) & <- & _).
    destruct (daLine_kind n h) as (_ & _ & _ & _ & A & B & C & D).
    destruct Hk as [<-|[<-|[<-|[<-|[]]]]]; assumption. }
  assert (F : forall d n, In d [FNF_; FNH_; BRF_; BRH_] ->
              intAfter 4 (JsString.trim (d ++ JsString.String n))
              = JsNumber.of_nat n).
  { intros d n H. rewrite trim_directive by assumption.
    now apply intAfter_String. }
  unfold blockRecord, toRecord, blockPath, blockEntries.
  cbn [toBlock b_open b_body]. fold das.
  rewrite trim_SF by assumption.
  change (JsString.substring 3 (SF_ ++ ?x)) with x.
  f_equal.
  - rewrite filter_app.
    assert (E1 : filter isDA das = das).
    { clear K. unfold das. induction (plainLines p) as [|(n & h) ls IH];
        [reflexivity|].
      cbn [map filter fst snd].
      destruct (daLine_kind n h) as (_ & _ & _ & -> & _). now rewrite IH. }
    rewrite E1. cbn [filter].
    assert (D : forall d n, In d [FNF_; FNH_; BRF_; BRH_] ->
                isDA (d ++ JsString.String n) = false)
      by (intros d n Hd; apply (directive_kind n Hd)).
    rewrite !D by (cbn [In]; tauto).
    rewrite app_nil_r. unfold das. rewrite map_map.
    apply map_ext. intros (n & h). cbn [fst snd].
    destruct (daLine_kind n h) as (-> & _).
    now apply daEntry_daLine.
  - unfold lastIntFrom. rewrite !fold_left_app.
    fold (lastIntFrom isFNF JsNumber.zero das).
    fold (lastIntFrom isFNH JsNumber.zero das).
    rewrite !lastIntFrom_skip by (apply K; cbn [In]; tauto).
    cbn [fold_left].
    destruct (@directive_kind FNF_ (plainFnf p) ltac:(cbn [In]; tauto))
      as (_ & _ & _ & -> & -> & _).
    destruct (@directive_kind FNH_ (plainFnh p) ltac:(cbn [In]; tauto))
      as (_ & _ & _ & -> & -> & _).
    destruct (@directive_kind BRF_ (plainBrf p) ltac:(cbn [In]; tauto))
      as (_ & _ & _ & -> & -> & _).
    destruct (@directive_kind BRH_ (plainBrh p) ltac:(cbn [In]; tauto))
      as (_ & _ & _ & -> & -> & _).
    change (JsString.eqb FNF_ FNF_) with true.
    change (JsString.eqb FNH_ FNH_) with true.
    change (JsString.eqb FNF_ FNH_) with false.
    change (JsString.eqb FNH_ FNF_) with false.
    change (JsString.eqb BRF_ FNF_) with false.
    change (JsString.eqb BRF_ FNH_) with false.
    change (JsString.eqb BRH_ FNF_) with false.
    change (JsString.eqb BRH_ FNH_) with false.
    cbv iota. rewrite !F by (cbn [In]; tauto). reflexivity.
  - unfold lastIntFrom. rewrite !fold_left_app.
    fold (lastIntFrom isBRF JsNumber.zero das).
    fold (lastIntFrom isBRH JsNumber.zero das).
    rewrite !lastIntFrom_skip by (apply K; cbn [In]; tauto).
    cbn [fold_left].
    destruct (@directive_kind FNF_ (plainFnf p) ltac:(cbn [In]; tauto))
      as (_ & _ & _ & _ & _ & -> & ->).
    destruct (@directive_kind FNH_ (plainFnh p) ltac:(cbn [In]; tauto))
      as (_ & _ & _ & _ & _ & -> & ->).
    destruct (@directive_kind BRF_ (plainBrf p) ltac:(cbn [In]; tauto))
      as (_ & _ & _ & _ & _ & -> & ->).
    destruct (@directive_kind BRH_ (plainBrh p) ltac:(cbn [In]; tauto))
      as (_ & _ & _ & _ & _ & -> & ->).
    change (JsString.eqb BRF_ BRF_) with true.
    change (JsString.eqb BRH_ BRH_) with true.
    change (JsString.eqb BRF_ BRH_) with false.
    change (JsString.eqb BRH_ BRF_) with false.
    change (JsString.eqb FNF_ BRF_) with false.
    change (JsString.eqb FNF_ BRH_) with false.
    change (JsString.eqb FNH_ BRF_) with false.
    change (JsString.eqb FNH_ BRH_) with false.
    cbv iota. rewrite !F by (cbn [In]; tauto). reflexivity.
Qed.

Lemma toBlock_no_newline p :
  pathOk (plainPath p) ->
  Forall (fun ln => ~ In JsString.newline ln) (blockLines (toBlock p)).
Proof.
  intros (_ & _ & NL). unfold blockLines.
  cbn [toBlock b_open b_body b_close b_after].
  assert (D : forall d n, In d [FNF_; FNH_; BRF_; BRH_] ->
              ~ In JsString.newline (d ++ JsString.String n)).
  { intros d n H I. apply in_app_or in I. destruct I as [I|I].
    - destruct H as [<-|[<-|[<-|[<-|[]]]]]; cbn in I;
        repeat (destruct I as [I|I]; [discriminate I|]); exact I.
    - now apply of_uint_no_newline in I. }
  constructor.
  - intros I. apply in_app_or in I. destruct I as [I|I]; [|now apply NL].
    cbn in I. repeat (destruct I as [I|I]; [discriminate I|]). exact I.
  - rewrite <- app_assoc. apply Forall_app. split.
    + apply Forall_forall. intros ln I. apply in_map_iff in I.
      destruct I as ((n & h) & <- & _). unfold daLine. cbn [fst snd].
      intros I. apply in_app_or in I. destruct I as [I|I].
      * cbn in I. repeat (destruct I as [I|I]; [discriminate I|]). exact I.
      * apply in_app_or in I. destruct I as [I|I];
          [now apply of_uint_no_newline in I|].
        destruct I as [I|I]; [discriminate I|].
        rewrite app_nil_r in I. now apply of_uint_no_newline in I.
    + cbn [app]. repeat constructor;
        try (apply D; cbn [In]; tauto).
      intros I. cbn in I.
      repeat (destruct I as [I|I]; [discriminate I|]). exact I.
Qed.

(** The parser on a written text: every record comes out, and no
    record is left open. *)
Lemma parseLines_toText ps :
  Forall (fun p => pathOk (plainPath p)) ps ->
  parseLines (JsString.split JsString.newline (toText ps)) ([], None)
  = (map toRecord ps, None).
Proof.
  intros H. unfold toText.
  assert (W : Forall wellFormed (map toBlock ps)).
  { apply Forall_map. eapply Forall_impl; [|exact H].
    intros p. apply toBlock_wellFormed. }
  assert (NL : Forall (fun ln => ~ In JsString.newline ln)
                 (flat_map (fun p => blockLines (toBlock p)) ps)).
  { apply Forall_flat_map. eapply Forall_impl; [|exact H].
    intros p. apply toBlock_no_newline. }
  assert (R : map blockRecord (map toBlock ps) = map toRecord ps).
  { rewrite map_map. apply map_ext_Forall.
    eapply Forall_impl; [|exact H]. intros p. apply toBlock_record. }
  rewrite unlines_no_newline by assumption.
  destruct ps as [|p ps]; [reflexivity|].
  assert (E : flat_map (fun p => blockLines (toBlock p)) (p :: ps)
              = flat_map blockLines (map toBlock (p :: ps))).
  { now rewrite flat_map_concat_map, flat_map_concat_map, map_map. }
  rewrite E in *.
  destruct (flat_map blockLines (map toBlock (p :: ps))) eqn:L.
  - discriminate L.
  - rewrite <- L, parseLines_block_records by assumption.
    cbn [app]. now rewrite R.
Qed.

(** X17. Records written out are read back: for records whose numbers
    are natural numbers and whose paths are not empty, hold no line
    break and no white space at either end, the text that spells each
    record as [SF:path], one [DA:line,count] for each entry, [FNF:],
    [FNH:], [BRF:], [BRH:] and [end_of_record] parses to exactly these
    records, in order, and leaves no record open. *)
Theorem X17_written_records_read_back :
  forall ps : list PlainRecord,
    Forall (fun p => pathOk (plainPath p)) ps ->
    parseLcovData (toText ps) = map toRecord ps
    /\ snd (parseLines (JsString.split JsString.newline (toText ps))
              ([], None)) = None.
Proof.
  intros ps H. unfold parseLcovData.
  rewrite parseLines_toText by assumption.
  split; reflexivity.
Qed.

Lemma hitLines_toRecord p :
  List.length (hitLines (toRecord p))
  = List.length (filter (fun nh => (0 <? snd nh)%nat) (plainLines p)).
Proof.
  unfold hitLines, toRecord. cbn [lines].
  induction (plainLines p) as [|nh ls IH]; [reflexivity|].
  cbn [map filter]. unfold plainEntry at 1. cbn [hit].
  rewrite gt_of_nat. destruct (0 <? snd nh)%nat; cbn [List.length];
    now rewrite IH.
Qed.

(** X19. From the file to the two reports. When the LCOV file holds
    records written out as above, both loaders return without logging,
    and for a record that is not named [__proto__] and that no later
    record shares its path with: the
    summary gives, under its path, as many lines as the record has
    entries and as many covered lines as it has entries with a count
    other than 0; the final map gives, under its path, the counts of the
    entries in order. *)
Theorem X19_file_to_reports :
  forall (cwd : jsstring) (resolve : jsstring -> jsstring -> jsstring)
         (readFile : jsstring -> Thrown + jsstring) (lcovPath : jsstring)
         (ps : list PlainRecord),
    Forall (fun p => pathOk (plainPath p)) ps ->
    readFile (resolve cwd lcovPath) = inr (toText ps) ->
    exists summary final,
      parseBunLcovSummary cwd resolve readFile lcovPath = ([], inr summary)
      /\ parseBunLcovFinal cwd resolve readFile lcovPath = ([], inr final)
      /\ forall pre p post,
           ps = pre ++ p :: post ->
           Forall (fun q => plainPath q <> plainPath p) post ->
           plainPath p <> JsObject.proto_ ->
           Z.of_nat (List.length (plainLines p)) < 2 ^ 53 ->
           (exists bundle,
               JsObject.get summary (plainPath p) = Some bundle
               /\ total (r_lines bundle) = lengthOf (plainLines p)
               /\ covered (r_lines bundle)
                  = lengthOf (filter (fun nh => (0 <? snd nh)%nat)
                                (plainLines p)))
           /\ (exists entry,
                  JsObject.get final (plainPath p) = Some entry
                  /\ path entry = plainPath p
                  /\ valuesOf (s entry)
                     = map (fun nh => JsNumber.of_nat (snd nh))
                         (plainLines p)).
Proof.
  intros cwd resolve readFile lcovPath ps Hps Hread.
  destruct (@loaders_on_success cwd resolve readFile lcovPath (toText ps)
              Hread) as [ES EF].
  assert (R : parseLcovData (toText ps) = map toRecord ps).
  { unfold parseLcovData. now rewrite parseLines_toText. }
  rewrite R in ES, EF.
  exists (lcovToJsonSummary (map toRecord ps)),
         (lcovToJsonFinal (map toRecord ps)).
  split; [exact ES|]. split; [exact EF|].
  intros pre p post -> Hpost Named Hlen.
  assert (Hpost' : Forall (fun r' => sourceFile r' <> sourceFile (toRecord p))
                     (map toRecord post)).
  { apply Forall_map. eapply Forall_impl; [|exact Hpost].
    intros q. exact (fun H => H). }
  rewrite map_app. cbn [map]. split.
  - exists (lcovToCoverageReport [toRecord p]). split.
    + unfold lcovToJsonSummary.
      change (fold_left addFileCoverage ?rs)
        with (fold_left
                (write sourceFile (fun r => lcovToCoverageReport [r])) rs).
      now apply (@get_writes_last _ _ sourceFile
                   (fun r => lcovToCoverageReport [r])
                   (map toRecord pre) (toRecord p) (map toRecord post) _
                   Named).
    + assert (EL : countLines [toRecord p]
                   = List.length (plainLines p)).
      { unfold countLines. cbn [map toRecord lines].
        change (list_sum [?x]) with (x + 0)%nat.
        rewrite length_map. lia. }
      assert (EH : countHitLines [toRecord p]
                   = List.length (filter (fun nh => (0 <? snd nh)%nat)
                                    (plainLines p))).
      { unfold countHitLines. cbn [map].
        change (list_sum [?x]) with (x + 0)%nat.
        rewrite hitLines_toRecord. lia. }
      destruct (@lines_counters [toRecord p]) as (T & C & _);
        [rewrite EL; exact Hlen|].
      rewrite T, C, EL, EH. split; reflexivity.
  - exists (fileReport (toRecord p)). split.
    + unfold lcovToJsonFinal.
      change (fold_left addFileReport ?rs)
        with (fold_left (write sourceFile fileReport) rs).
      now apply (@get_writes_last _ _ sourceFile fileReport
                   (map toRecord pre) (toRecord p) (map toRecord post) _
                   Named).
    + split; [reflexivity|].
      destruct (fileReport_maps (toRecord p)) as [_ ->].
      rewrite valuesOf_idMap. cbn [toRecord lines]. rewrite map_map.
      reflexivity.
Qed.

(* ================================================================== *)
(** * The further properties at sample inputs *)
(* ================================================================== *)

Lemma X1_only_trimmed_lines_matter_witness :
  (map JsString.trim (JsString.split JsString.newline sampleText)
   = map JsString.trim (JsString.split JsString.newline crlfText)
   /\ Forall (fun ln => ~ In JsString.newline ln)
        [JsString.lit "SF:a"; JsString.lit "DA:1,1";
         JsString.lit "end_of_record"])
  /\ parseLcovData crlfText = parseLcovData sampleText
  /\ parseLcovData
       (unlines (map (fun ln => ln ++ [13%N])
                   [JsString.lit "SF:a"; JsString.lit "DA:1,1";
                    JsString.lit "end_of_record"]))
     = parseLcovData
         (unlines [JsString.lit "SF:a"; JsString.lit "DA:1,1";
                   JsString.lit "end_of_record"]).
Proof.
  assert (H1 : map JsString.trim (JsString.split JsString.newline sampleText)
               = map JsString.trim
                   (JsString.split JsString.newline crlfText))
    by (vm_compute; reflexivity).
  assert (H2 : Forall (fun ln => ~ In JsString.newline ln)
                 [JsString.lit "SF:a"; JsString.lit "DA:1,1";
                  JsString.lit "end_of_record"]).
  { repeat constructor; vm_compute; intros H;
      repeat (destruct H as [H|H]; [discriminate H|]); exact H. }
  split; [split; [exact H1|exact H2]|].
  split.
  - exact (proj1 X1_only_trimmed_lines_matter sampleText crlfText H1).
  - exact (proj2 X1_only_trimmed_lines_matter _ H2).
Defined.

Lemma X2_records_of_blocks_witness :
  (Forall (fun ln => isSF ln = false) ([] : list jsstring)
   /\ Forall wellFormed [blockA; blockB]
   /\ JsString.split JsString.newline twoBlocksText
      = [] ++ flat_map blockLines [blockA; blockB])
  /\ parseLcovData twoBlocksText = map blockRecord [blockA; blockB].
Proof.
  assert (H1 : Forall (fun ln => isSF ln = false) ([] : list jsstring))
    by constructor.
  assert (H2 : Forall wellFormed [blockA; blockB]).
  { repeat constructor; try (vm_compute; reflexivity);
      vm_compute; discriminate. }
  assert (H3 : JsString.split JsString.newline twoBlocksText
               = [] ++ flat_map blockLines [blockA; blockB])
    by (vm_compute; reflexivity).
  split; [split; [exact H1|split; [exact H2|exact H3]]|].
  exact (@X2_records_of_blocks [] [blockA; blockB] twoBlocksText H1 H2 H3).
Defined.

Lemma X4_concatenated_texts_witness :
  snd (parseLines (JsString.split JsString.newline sampleText) ([], None))
  = None
  /\ parseLcovData (sampleText ++ JsString.newline :: totalNamedText)
     = parseLcovData sampleText ++ parseLcovData totalNamedText.
Proof.
  assert (H : snd (parseLines (JsString.split JsString.newline sampleText)
                     ([], None)) = None)
    by (vm_compute; reflexivity).
  split; [exact H|].
  exact (proj2 (X4_concatenated_texts sampleText totalNamedText) H).
Defined.

Lemma X5_da_line_reads_back_witness :
  JsNumber.has_digit (JsString.lit ",Zm9v") = false
  /\ daEntry (daLine 12 3 (JsString.lit ",Zm9v"))
     = {| line := JsNumber.of_nat 12; hit := JsNumber.of_nat 3 |}.
Proof.
  assert (H : JsNumber.has_digit (JsString.lit ",Zm9v") = false)
    by (vm_compute; reflexivity).
  split; [exact H|].
  exact (proj1 (@X5_da_line_reads_back 12 3 (JsString.lit ",Zm9v") H)).
Defined.

Lemma X6_da_line_without_count_witness :
  let ln := JsString.lit " DA:7" in
  let r := newRecord (JsString.lit "src/a.ts") in
  (isDA ln = true /\ ~ In JsString.comma (JsString.trim ln))
  /\ parseLine ([], Some r) ln
     = ([], Some (pushLine r {| line := JsNumber.of_Z 7;
                               hit := JsNumber.NaN |})).
Proof.
  intros ln r.
  assert (H1 : isDA ln = true) by (vm_compute; reflexivity).
  assert (H2 : ~ In JsString.comma (JsString.trim ln)).
  { vm_compute. intros H.
    repeat (destruct H as [H|H]; [discriminate H|]). exact H. }
  split; [split; [exact H1|exact H2]|].
  exact (proj1 (@X6_da_line_without_count [] r ln H1 H2)).
Defined.

Lemma X8_line_percentage_in_hundredths_witness :
  0 < Z.of_nat (countLines [tieRecord]) < 2 ^ 32
  /\ exists k,
       pct (r_lines (lcovToCoverageReport [tieRecord]))
       = JsNumber.div (JsNumber.of_Z k) hundred
       /\ 0 <= k <= 10000
       /\ 2 * Z.abs (k * Z.of_nat (countLines [tieRecord])
                     - 10000 * Z.of_nat (countHitLines [tieRecord]))
          <= Z.of_nat (countLines [tieRecord]).
Proof.
  assert (H : 0 < Z.of_nat (countLines [tieRecord]) < 2 ^ 32)
    by (vm_compute; split; reflexivity).
  split; [exact H|].
  exact (proj1 (@X8_line_percentage_in_hundredths [tieRecord] H)).
Defined.

Lemma X9_lookup_is_last_record_witness :
  let k := JsString.lit "src/a.ts" in
  k <> total_
  /\ (JsObject.get (lcovToJsonFinal sharedPathRecords) k = None
      <-> JsObject.get (lcovToJsonSummary sharedPathRecords) k = None).
Proof.
  intros k.
  assert (H : k <> total_) by (vm_compute; discriminate).
  split; [exact H|].
  destruct (X9_lookup_is_last_record sharedPathRecords k) as (_ & _ & _ & S).
  exact (S H).
Defined.

Lemma X10_summary_counts_match_final_witness :
  let record := fiveNine (JsString.lit "src/a.ts") in
  Z.of_nat (List.length (lines record)) < 2 ^ 53
  /\ covered (r_lines (lcovToCoverageReport [record]))
     = lengthOf (filter (fun h => JsNumber.gt h JsNumber.zero)
                   (valuesOf (s (fileReport record)))).
Proof.
  intros record.
  assert (H : Z.of_nat (List.length (lines record)) < 2 ^ 53)
    by (vm_compute; reflexivity).
  split; [exact H|].
  destruct (@X10_summary_counts_match_final record H) as (_ & _ & C).
  exact C.
Defined.

Lemma X11_lcov_loaders_outcomes_witness :
  let cwd := JsString.lit "/w" in
  let lcovPath := JsString.lit "lcov.info" in
  let readFile := oneFile (joinPath cwd lcovPath) sampleText in
  let readFile' := fun _ : jsstring => inr sampleText in
  readFile' (joinPath cwd lcovPath) = readFile (joinPath cwd lcovPath)
  /\ parseBunLcovSummary cwd joinPath readFile' lcovPath
     = parseBunLcovSummary cwd joinPath readFile lcovPath
  /\ parseBunLcovFinal cwd joinPath readFile' lcovPath
     = parseBunLcovFinal cwd joinPath readFile lcovPath.
Proof.
  intros cwd lcovPath readFile readFile'.
  assert (H : readFile' (joinPath cwd lcovPath)
              = readFile (joinPath cwd lcovPath))
    by (vm_compute; reflexivity).
  split; [exact H|].
  exact (proj1 (X11_lcov_loaders_outcomes cwd joinPath readFile lcovPath)
           readFile' H).
Defined.

Lemma X12_json_loaders_outcomes_witness :
  let cwd := JsString.lit "/w" in
  let jsonPath := JsString.lit "coverage-final.json" in
  let readFile := oneFile (joinPath cwd jsonPath) (JsString.lit "{oops") in
  let err := ErrorObject (JsString.lit "SyntaxError") in
  (exists raw, readFile (joinPath cwd jsonPath) = inr raw
               /\ parseBraces raw = inl err)
  /\ parseBunJsonSummary cwd joinPath readFile parseBraces jsonPath
     = ([jsonSetFailed jsonPath (stackOf err)], inl err)
  /\ parseBunJsonFinal [] cwd joinPath readFile parseBraces jsonPath
     = ([jsonWarning jsonPath (stackOf err)], inr []).
Proof.
  intros cwd jsonPath readFile err.
  assert (H : exists raw, readFile (joinPath cwd jsonPath) = inr raw
                          /\ parseBraces raw = inl err).
  { exists (JsString.lit "{oops"). split; vm_compute; reflexivity. }
  split; [exact H|].
  destruct (@X12_json_loaders_outcomes jsstring [] cwd joinPath readFile
              parseBraces jsonPath) as (_ & F & _).
  exact (F err (or_intror H)).
Defined.

Lemma X13_config_lookup_outcomes_witness :
  let wd := JsString.lit "/w" in
  let access := readable (JsString.lit "/w/bunfig.toml") in
  access (configTarget joinPath wd []) = inr tt
  /\ getBunConfigPath joinPath access OtherValue wd []
     = ([], inr (Some (JsString.lit "/w/bunfig.toml"))).
Proof.
  intros wd access.
  assert (H : access (configTarget joinPath wd []) = inr tt)
    by (vm_compute; reflexivity).
  split; [exact H|].
  destruct (X13_config_lookup_outcomes joinPath access OtherValue wd [])
    as (_ & _ & _ & F).
  exact (F H).
Defined.

Lemma X14_options_returned_witness :
  let access := readable (JsString.lit "/w/bunfig.toml") in
  let run := readOptions [] sampleInput joinPath access OtherValue
               sampleMode sampleCommentOn sampleThresholds sampleCommitSHA
               failingPullRequest tt in
  (exists log options, run = (log, inr options))
  /\ forall log options,
       run = (log, inr options) ->
       lcovPath options = JsString.lit "/w/lcov.info"
       /\ lcovComparePath options = None
       /\ prNumber options = None
       /\ thresholds options = JsString.lit "/w/bunfig.toml".
Proof.
  intros access run.
  assert (H : exists log options, run = (log, inr options)).
  { eexists. eexists. vm_compute. reflexivity. }
  split; [exact H|].
  intros log options E.
  destruct (@X14_options_returned jsstring jsstring unit unit []
              sampleInput joinPath access OtherValue sampleMode
              sampleCommentOn sampleCommitSHA sampleThresholds
              failingPullRequest tt log options E)
    as (_ & _ & _ & L & LC & _ & CO & _ & PR & _ & TH).
  split; [exact L|]. split; [exact LC|]. split.
  - apply PR. cbn [snd sampleCommentOn retE] in CO.
    injection CO as <-. vm_compute. reflexivity.
  - assert (A : access (configTarget joinPath (sampleInput working_directory_)
                          (sampleInput bunfig_path_)) = inr tt)
      by (vm_compute; reflexivity).
    assert (N : configTarget joinPath (sampleInput working_directory_)
                  (sampleInput bunfig_path_) <> [])
      by (vm_compute; discriminate).
    specialize (TH A N). cbn [snd sampleThresholds retE] in TH.
    injection TH as TH. symmetry. etransitivity; [|exact TH].
    vm_compute. reflexivity.
Defined.

Lemma X15_options_collaborators_not_called_witness :
  let access := readable (JsString.lit "/w/bunfig.toml") in
  let run := readOptions [] sampleInput joinPath access OtherValue
               sampleMode sampleCommentOn sampleThresholds sampleCommitSHA in
  (snd sampleCommentOn = inr [JsString.lit "commit"]
   /\ includesPr [JsString.lit "commit"] = false)
  /\ run samplePullRequest tt = run failingPullRequest tt.
Proof.
  intros access run.
  assert (H1 : snd sampleCommentOn = inr [JsString.lit "commit"])
    by reflexivity.
  assert (H2 : includesPr [JsString.lit "commit"] = false)
    by (vm_compute; reflexivity).
  split; [split; [exact H1|exact H2]|].
  destruct (@X15_options_collaborators_not_called jsstring jsstring unit
              unit [] sampleInput joinPath access OtherValue sampleMode
              sampleCommentOn sampleCommitSHA tt) as (_ & P & _).
  exact (P _ H1 H2 sampleThresholds samplePullRequest failingPullRequest).
Defined.

Lemma X16_integer_counters_add_exactly_witness :
  let records := [countersRecord 4 3 10 5; countersRecord 4 3 10 5] in
  let report := lcovToCoverageReport records in
  (Forall (fun r =>
             functions r = {| found := JsNumber.of_nat 4;
                              hits := JsNumber.of_nat 3 |}
             /\ branches r = {| found := JsNumber.of_nat 10;
                                hits := JsNumber.of_nat 5 |}) records
   /\ Z.of_nat (list_sum (map (fun _ => 10%nat) records)) < 2 ^ 53)
  /\ total (r_functions report) = JsNumber.of_nat 8
  /\ covered (r_functions report) = JsNumber.of_nat 6
  /\ total (r_branches report) = JsNumber.of_nat 20
  /\ covered (r_branches report) = JsNumber.of_nat 10.
Proof.
  intros records report.
  assert (H2 : Forall (fun r =>
                functions r = {| found := JsNumber.of_nat 4;
                                 hits := JsNumber.of_nat 3 |}
                /\ branches r = {| found := JsNumber.of_nat 10;
                                   hits := JsNumber.of_nat 5 |}) records)
    by (repeat constructor).
  assert (B : forall n : nat, (n <= 10)%nat ->
                Z.of_nat (list_sum (map (fun _ => n) records)) < 2 ^ 53).
  { intros n Hn. cbn [records map list_sum fold_right]. lia. }
  split; [split; [exact H2|exact (B 10%nat (le_n _))]|].
  exact (proj2 X16_integer_counters_add_exactly records
           (fun _ => 4%nat) (fun _ => 3%nat) (fun _ => 10%nat)
           (fun _ => 5%nat) H2
           (B 4%nat ltac:(lia)) (B 3%nat ltac:(lia))
           (B 10%nat ltac:(lia)) (B 5%nat ltac:(lia))).
Defined.

Lemma X17_written_records_read_back_witness :
  Forall (fun p => pathOk (plainPath p)) [plainA; plainB]
  /\ parseLcovData (toText [plainA; plainB])
     = [toRecord plainA; toRecord plainB].
Proof.
  assert (H : Forall (fun p => pathOk (plainPath p)) [plainA; plainB]).
  { repeat constructor; try (vm_compute; discriminate);
      try (vm_compute; reflexivity);
      vm_compute; intros H;
      repeat (destruct H as [H|H]; [discriminate H|]); exact H. }
  split; [exact H|].
  exact (proj1 (@X17_written_records_read_back [plainA; plainB] H)).
Defined.

Lemma X18_counter_percentages_witness :
  let records := [overHit] in
  (Forall (fun r =>
             functions r = {| found := JsNumber.of_nat 2;
                              hits := JsNumber.of_nat 3 |}
             /\ branches r = {| found := JsNumber.of_nat 0;
                                hits := JsNumber.of_nat 0 |}) records
   /\ 0 < Z.of_nat (list_sum (map (fun _ => 2%nat) records)) < 2 ^ 32
   /\ Z.of_nat (list_sum (map (fun _ => 3%nat) records)) < 2 ^ 32)
  /\ (exists k,
        pct (r_functions (lcovToCoverageReport records))
        = JsNumber.div (JsNumber.of_Z k) hundred
        /\ 10000 < k)
  /\ pct (r_branches (lcovToCoverageReport records)) = JsNumber.zero.
Proof.
  intros records.
  assert (H : Forall (fun r =>
                functions r = {| found := JsNumber.of_nat 2;
                                 hits := JsNumber.of_nat 3 |}
                /\ branches r = {| found := JsNumber.of_nat 0;
                                   hits := JsNumber.of_nat 0 |}) records)
    by (repeat constructor).
  assert (B2 : 0 < Z.of_nat (list_sum (map (fun _ => 2%nat) records))
               < 2 ^ 32) by (vm_compute; split; reflexivity).
  assert (B3 : Z.of_nat (list_sum (map (fun _ => 3%nat) records)) < 2 ^ 32)
    by (vm_compute; reflexivity).
  assert (B0 : Z.of_nat (list_sum (map (fun _ => 0%nat) records)) < 2 ^ 32)
    by (vm_compute; reflexivity).
  split; [split; [exact H|split; [exact B2|exact B3]]|].
  destruct (@X18_counter_percentages records
              (fun _ => 2%nat) (fun _ => 3%nat) (fun _ => 0%nat)
              (fun _ => 0%nat) H (proj2 B2) B3 B0 B0)
    as ((F & _) & (_ & Z0)).
  split.
  - destruct (F (proj1 B2)) as (k & E & Near & _).
    exists k. split; [exact E|].
    change (Z.of_nat (list_sum (map (fun _ => 2%nat) records))) with 2
      in Near.
    change (Z.of_nat (list_sum (map (fun _ => 3%nat) records))) with 3
      in Near.
    lia.
  - apply Z0. reflexivity.
Defined.

Lemma X19_file_to_reports_witness :
  let cwd := JsString.lit "/w" in
  let lcovPath := JsString.lit "lcov.info" in
  let ps := [plainA; plainB] in
  let readFile := oneFile (joinPath cwd lcovPath) (toText ps) in
  (Forall (fun p => pathOk (plainPath p)) ps
   /\ readFile (joinPath cwd lcovPath) = inr (toText ps))
  /\ exists summary final,
       parseBunLcovSummary cwd joinPath readFile lcovPath
       = ([], inr summary)
       /\ parseBunLcovFinal cwd joinPath readFile lcovPath = ([], inr final)
       /\ option_map (fun b => covered (r_lines b))
            (JsObject.get summary (plainPath plainA))
          = Some (JsNumber.of_Z 2)
       /\ option_map (fun e => valuesOf (s e))
            (JsObject.get final (plainPath plainA))
          = Some [JsNumber.of_Z 1; JsNumber.of_Z 0; JsNumber.of_Z 12].
Proof.
  intros cwd lcovPath ps readFile.
  assert (H1 : Forall (fun p => pathOk (plainPath p)) ps).
  { repeat constructor; try (vm_compute; discriminate);
      try (vm_compute; reflexivity);
      vm_compute; intros H;
      repeat (destruct H as [H|H]; [discriminate H|]); exact H. }
  assert (H2 : readFile (joinPath cwd lcovPath) = inr (toText ps))
    by (vm_compute; reflexivity).
  split; [split; [exact H1|exact H2]|].
  destruct (@X19_file_to_reports cwd joinPath readFile lcovPath ps H1 H2)
    as (summary & final & ES & EF & Each).
  exists summary, final. split; [exact ES|]. split; [exact EF|].
  assert (H3 : Forall (fun q => plainPath q <> plainPath plainA) [plainB])
    by (repeat constructor; vm_compute; discriminate).
  assert (H4 : Z.of_nat (List.length (plainLines plainA)) < 2 ^ 53)
    by (vm_compute; reflexivity).
  assert (H5 : plainPath plainA <> JsObject.proto_)
    by (vm_compute; discriminate).
  destruct (Each [] plainA [plainB] eq_refl H3 H5 H4)
    as ((bundle & -> & _ & C) & (entry & -> & _ & V)).
  cbn [option_map]. rewrite C, V. split; reflexivity.
Defined.
